(** * The bypass-403 probing engine: a shallow embedding of [src/bypass_403.py]

    The [Fuzzer] class is modelled as a state-and-exception monad over a
    record holding the object's fields together with the part of the outside
    world the engine touches (wall clock, log, file system, network).  The
    outside world is driven by an oracle ([Env]), so every definition below
    is a total, executable function.

    Conventions.
    - Python [float] seconds and minutes are exact rationals ([Q]).
    - Python [int] is [Z]; [len] results are [nat], converted where the code
      compares them with an [int].
    - Python [str] is [string]; case conversion and [repr] are given for the
      ASCII range.
    - A [dict] of headers is an association list in insertion order, since
      its order shows in the formatted result line.
    - Log lines are kept as structured records, one constructor per call
      site, instead of formatted text. *)

From Stdlib Require Import List String Ascii ZArith QArith Lia Lqa Bool.
From Stdlib Require Import DecimalString Qround.
Import ListNotations.

Local Open Scope string_scope.
Local Open Scope Z_scope.

(* ================================================================= *)
(** ** Python built-ins *)

Module Py.

Definition upper_char (c : ascii) : ascii :=
  let n := nat_of_ascii c in
  if (Nat.leb 97 n && Nat.leb n 122)%bool then ascii_of_nat (n - 32) else c.

(** [str.upper()] *)
Fixpoint upper (s : string) : string :=
  match s with
  | EmptyString => EmptyString
  | String c s' => String (upper_char c) (upper s')
  end.

(** [str.rstrip(c)] for a one-character argument *)
Fixpoint rstrip (c : ascii) (s : string) : string :=
  match s with
  | EmptyString => EmptyString
  | String a s' =>
      match rstrip c s' with
      | EmptyString => if Ascii.eqb a c then EmptyString else String a EmptyString
      | r => String a r
      end
  end.

Definition is_space (c : ascii) : bool :=
  let n := nat_of_ascii c in
  (Nat.eqb n 32 || (Nat.leb 9 n && Nat.leb n 13) || (Nat.leb 28 n && Nat.leb n 31))%bool.

(** truth value of [s.strip()] *)
Fixpoint strip_nonempty (s : string) : bool :=
  match s with
  | EmptyString => false
  | String c s' => if is_space c then strip_nonempty s' else true
  end.

(** [needle in hay] on strings *)
Fixpoint contains (needle hay : string) : bool :=
  if String.prefix needle hay then true
  else match hay with
       | EmptyString => false
       | String _ hay' => contains needle hay'
       end.

(** [str(n)] for an [int] *)
Definition str_int (n : Z) : string := NilZero.string_of_int (Z.to_int n).

(** [str(n)] for a length *)
Definition str_len (n : nat) : string := str_int (Z.of_nat n).

Definition dquote : ascii := ascii_of_nat 34.

Definition hex_digit (n : nat) : ascii :=
  if Nat.ltb n 10 then ascii_of_nat (48 + n) else ascii_of_nat (87 + n).

Definition repr_char (quote : ascii) (c : ascii) : string :=
  let n := nat_of_ascii c in
  if Ascii.eqb c "\" then "\\"
  else if Ascii.eqb c quote then String "\" (String c EmptyString)
  else if Nat.eqb n 10 then "\n"
  else if Nat.eqb n 13 then "\r"
  else if Nat.eqb n 9 then "\t"
  else if (Nat.ltb n 32 || Nat.eqb n 127)%bool
       then String "\" (String "x" (String (hex_digit (n / 16))
              (String (hex_digit (n mod 16)) EmptyString)))
  else String c EmptyString.

Fixpoint repr_chars (quote : ascii) (s : string) : string :=
  match s with
  | EmptyString => EmptyString
  | String c s' => repr_char quote c ++ repr_chars quote s'
  end.

(** [repr(s)] for a string: single quotes unless the text has a single
    quote and no double quote *)
Definition repr_str (s : string) : string :=
  let quote : ascii :=
    if (contains "'" s && negb (contains (String dquote EmptyString) s))%bool
    then dquote else "'"%char in
  String quote (repr_chars quote s ++ String quote EmptyString).

Definition Dict := list (string * string).

Fixpoint repr_items (d : Dict) : string :=
  match d with
  | [] => ""
  | [(k, v)] => repr_str k ++ ": " ++ repr_str v
  | (k, v) :: d' => repr_str k ++ ": " ++ repr_str v ++ ", " ++ repr_items d'
  end.

(** [str(d)] for a [dict] of strings *)
Definition repr_dict (d : Dict) : string := "{" ++ repr_items d ++ "}".

(** [key in d] *)
Definition dict_mem (key : string) (d : Dict) : bool :=
  existsb (fun kv => String.eqb (fst kv) key) d.

(** [d[key] = value]: an existing key keeps its place, a new one goes last *)
Fixpoint dict_set (d : Dict) (key value : string) : Dict :=
  match d with
  | [] => [(key, value)]
  | (k, v) :: d' =>
      if String.eqb k key then (k, value) :: d' else (k, v) :: dict_set d' key value
  end.

(** [l[:k]] *)
Definition slice_to {A} (l : list A) (k : Z) : list A :=
  firstn (Z.to_nat (if k <? 0 then Z.of_nat (List.length l) + k else k)) l.

(** [l[i : j]] for [0 <= i <= j] *)
Definition slice {A} (l : list A) (i j : Z) : list A :=
  firstn (Z.to_nat (j - i)) (skipn (Z.to_nat i) l).

(** [range(0, stop, step)] for [step > 0]; empty for [step < 0 <= stop] *)
Definition range0 (stop step : Z) : list Z :=
  if step >? 0
  then map (fun k => Z.of_nat k * step) (seq 0 (Z.to_nat ((stop + step - 1) / step)))
  else [].

Definition truthy_list {A} (l : list A) : bool :=
  match l with [] => false | _ => true end.

Definition truthy_str (s : string) : bool :=
  match s with EmptyString => false | _ => true end.

Definition Qlt_bool (a b : Q) : bool := negb (Qle_bool b a).

Definition truthy_float (q : Q) : bool := negb (Qeq_bool q 0).

Definition newline : string := String (ascii_of_nat 10) EmptyString.

(** [s.lstrip()], [s.rstrip()] and [s.strip()] without an argument: white
    space goes *)
Fixpoint lstrip_space (s : string) : string :=
  match s with
  | EmptyString => EmptyString
  | String c s' => if is_space c then lstrip_space s' else s
  end.

Fixpoint rstrip_space (s : string) : string :=
  match s with
  | EmptyString => EmptyString
  | String a s' =>
      match rstrip_space s' with
      | EmptyString => if is_space a then EmptyString else String a EmptyString
      | r => String a r
      end
  end.

Definition strip (s : string) : string := rstrip_space (lstrip_space s).

(** [s.split(sep, 1)] for a one-character [sep]: the text before and the
    text after the first [sep]; [None] when [sep] does not occur and the
    list has the one element [s] *)
Fixpoint split_once (sep : ascii) (s : string) : option (string * string) :=
  match s with
  | EmptyString => None
  | String c s' =>
      if Ascii.eqb c sep then Some (EmptyString, s')
      else match split_once sep s' with
           | Some (before, after) => Some (String c before, after)
           | None => None
           end
  end.

Definition LF : ascii := ascii_of_nat 10.
Definition CR : ascii := ascii_of_nat 13.

(** what a file opened in text mode hands out: a carriage return, alone or
    before a line feed, reads as a line feed (universal newlines) *)
Fixpoint universal_newlines (text : string) : string :=
  match text with
  | EmptyString => EmptyString
  | String c text' =>
      if Ascii.eqb c CR then
        match text' with
        | String c' text'' =>
            if Ascii.eqb c' LF then String LF (universal_newlines text'')
            else String LF (universal_newlines text')
        | EmptyString => String LF EmptyString
        end
      else String c (universal_newlines text')
  end.

(** the lines of a text, each with its line feed, the last one as it is *)
Fixpoint lines (text : string) : list string :=
  match text with
  | EmptyString => []
  | String c text' =>
      if Ascii.eqb c LF then String c EmptyString :: lines text'
      else match lines text' with
           | [] => [String c EmptyString]
           | l :: ls => String c l :: ls
           end
  end.

(** [for line in f] *)
Definition file_lines (text : string) : list string := lines (universal_newlines text).

(** [[line.strip() for line in f if line.strip()]] *)
Definition stripped_lines (text : string) : list string :=
  map strip (filter strip_nonempty (file_lines text)).

(** [a // b] and [a % b] on floats, for [b > 0] *)
Definition floordiv (a b : Q) : Q := inject_Z (Qfloor (a / b)).

Definition fmod (a b : Q) : Q := (a - b * floordiv a b)%Q.

(** [int(q)]: towards zero *)
Definition int_of_float (q : Q) : Z := if Qle_bool 0 q then Qfloor q else Qceiling q.

(** the integer nearest to [q], the even one of two that are equally near *)
Definition round_half_even (q : Q) : Z :=
  let f := Qfloor q in
  let r := (q - inject_Z f)%Q in
  if Qlt_bool r (1 # 2) then f
  else if Qlt_bool (1 # 2) r then f + 1
  else if Z.even f then f else f + 1.

(** [f"{q:.0f}"] for [q >= 0] *)
Definition format_0f (q : Q) : string := str_int (round_half_even q).

End Py.

(* ================================================================= *)
(** ** Data model *)

Definition Headers := Py.Dict.

(** [Union[int, str]] entries of a status filter *)
Inductive StatusFilter :=
| IntCode (code : Z)
| StrCode (tag : string).

(** [config/static_config.py]: the fields the engine reads.  The callables
    [color_status_code], [filter_status] and [format_time_remaining] are the
    static methods of [Configuration] that [build_fuzzer_config] stores in
    them; they are modelled below and called directly. *)
Record FuzzerStaticConfig := mkStatic {
  base_url : option string;
  path_file : list string;
  url_file : list string;
  method_file : list string;
  header_file : list Headers;
  header : option Headers;
  proxy : Py.Dict
}.

(** [config/runtime_config.py] *)
Record FuzzerRuntimeConfig := mkRuntime {
  max_headers : option Z;
  max_methods : option Z;
  time : option Q;
  delay : option Q;
  num_threads : Z;
  output_file : option string;
  filter_status_code : option (list StatusFilter);
  method : option (list string);
  path_batch_size : option Z;
  verify_ssl : bool;
  per_url_time_limit : option Q
}.

(** Exceptions.  A [requests] exception is described by the two base
    classes the handlers test for; everything else is a foreign exception. *)
Record RequestException := mkReqExc {
  is_Timeout : bool;
  is_ConnectionError : bool
}.

Inductive PyException :=
| RequestsError (e : RequestException)
| IndexError
| TypeError
| ValueError
| OSError
| TimeoutError
| OtherError (name : string).

(** What [requests.request] does: a response, or an exception *)
Inductive NetOutcome :=
| Response (status_code : Z) (content : string)
| Failure (e : PyException).

Inductive Color := Green | Magenta | Red | BoldRed | Plain.

Inductive LogRecord :=
| LogBanner
| LogStartingURL (index total : Z) (url : string)
| LogGlobalTimeoutStop (index : Z)
| LogFinishedURL (index : Z) (results : nat)
| LogPerUrlLimit
| LogGlobalLimitExceeded (elapsed_minutes limit : Q)
| LogStartThreading (urls : nat)
| LogUsingThreads (workers : Z)
| LogProgress (current total : Z)
| LogProgressEstimate (current total : Z) (remaining : Q)
| LogGlobalRemaining (seconds : Q)
| LogResultLimit
| LogFutureTimeout (method url : string)
| LogFutureError (method url : string) (e : PyException)
| LogResult (color : Color) (line : string)
| LogRequestTimeout (method url : string)
| LogConnectionFailed (method url : string)
| LogRequestError (method url : string)
| LogTotalBeforeFiltering (results : nat)
| LogAfterFiltering (results : nat)
| LogWritten (results : nat) (file : string)
| LogWriteError (file : string)
| LogNoMatch
| LogLoggedDuringExecution (count : Z).

(** The [Fuzzer] object and the world around it.  The log and the list of
    requests sent are kept newest first. *)
Record State := mkState {
  (* self.config, self.runtime_config *)
  config : FuzzerStaticConfig;
  runtime_config : FuzzerRuntimeConfig;
  (* fields set by __init__ *)
  user_agents : list string;
  time_hit_logged : bool;
  stop_event : bool;
  logged_count : Z;
  global_time_limit_minutes : option Q;
  per_url_time_limit_seconds : option Q;
  scan_start_time : option Q;
  current_url_start_time : option Q;
  _last_request_time : Q;
  (* the world *)
  clock : Q;
  events : nat;
  logger : list LogRecord;
  files : string -> option string;
  sent : list (string * string * Headers)
}.

(** The oracle that drives the world.  [elapse k] is the time that goes by
    during the [k]-th interaction with the world, [network k] what the
    [k]-th interaction would receive if it is an HTTP request,
    [random_index k] the draw of [random.choice], [schedule k] the worker
    activity the thread pool shows at that point, and [open_fails] the files
    that cannot be opened for writing. *)
Inductive WorkerEvent :=
| WorkerStart
| WorkerFinish (future : nat).

Record Env := mkEnv {
  elapse : nat -> Q;
  network : nat -> string -> string -> Headers -> NetOutcome;
  random_index : nat -> nat;
  schedule : nat -> list WorkerEvent;
  open_fails : string -> bool
}.

(** Modelled from the spec: the module [utility.constants] that
    [bypass_403.py] imports [TIMEOUT], [MAX_RESULT] and
    [PROGRESS_LOG_INTERVAL] from is not among the sources; the values are
    the fixed internal constants of the external-interfaces section (10 s,
    10000 results, every 100 requests), the same as in the [Constants]
    class of [config/constants.py]. *)
Definition TIMEOUT : Z := 10.
Definition MAX_RESULT : Z := 10000.
Definition PROGRESS_LOG_INTERVAL : Z := 100.

(** Modelled from the spec: [FILE], the fourth name [bypass_403.py] imports
    from the missing [utility.constants], names the user-agent catalog of
    the external-interfaces section; the path is the one the [Constants]
    class of [config/constants.py] gives. *)
Definition FILE : string := "fuzz-data/useragent.txt".

(* ----------------------------------------------------------------- *)
(** *** Field updates *)

Definition set_config (c : FuzzerStaticConfig) (s : State) : State :=
  mkState c (runtime_config s) (user_agents s) (time_hit_logged s) (stop_event s)
    (logged_count s) (global_time_limit_minutes s) (per_url_time_limit_seconds s)
    (scan_start_time s) (current_url_start_time s) (_last_request_time s)
    (clock s) (events s) (logger s) (files s) (sent s).

Definition with_base_url (b : option string) (c : FuzzerStaticConfig) : FuzzerStaticConfig :=
  mkStatic b (path_file c) (url_file c) (method_file c) (header_file c) (header c) (proxy c).

Definition set_time_hit_logged (b : bool) (s : State) : State :=
  mkState (config s) (runtime_config s) (user_agents s) b (stop_event s)
    (logged_count s) (global_time_limit_minutes s) (per_url_time_limit_seconds s)
    (scan_start_time s) (current_url_start_time s) (_last_request_time s)
    (clock s) (events s) (logger s) (files s) (sent s).

Definition set_stop_event (b : bool) (s : State) : State :=
  mkState (config s) (runtime_config s) (user_agents s) (time_hit_logged s) b
    (logged_count s) (global_time_limit_minutes s) (per_url_time_limit_seconds s)
    (scan_start_time s) (current_url_start_time s) (_last_request_time s)
    (clock s) (events s) (logger s) (files s) (sent s).

Definition set_logged_count (n : Z) (s : State) : State :=
  mkState (config s) (runtime_config s) (user_agents s) (time_hit_logged s) (stop_event s)
    n (global_time_limit_minutes s) (per_url_time_limit_seconds s)
    (scan_start_time s) (current_url_start_time s) (_last_request_time s)
    (clock s) (events s) (logger s) (files s) (sent s).

Definition set_scan_start_time (t : option Q) (s : State) : State :=
  mkState (config s) (runtime_config s) (user_agents s) (time_hit_logged s) (stop_event s)
    (logged_count s) (global_time_limit_minutes s) (per_url_time_limit_seconds s)
    t (current_url_start_time s) (_last_request_time s)
    (clock s) (events s) (logger s) (files s) (sent s).

Definition set_current_url_start_time (t : option Q) (s : State) : State :=
  mkState (config s) (runtime_config s) (user_agents s) (time_hit_logged s) (stop_event s)
    (logged_count s) (global_time_limit_minutes s) (per_url_time_limit_seconds s)
    (scan_start_time s) t (_last_request_time s)
    (clock s) (events s) (logger s) (files s) (sent s).

Definition set_last_request_time (t : Q) (s : State) : State :=
  mkState (config s) (runtime_config s) (user_agents s) (time_hit_logged s) (stop_event s)
    (logged_count s) (global_time_limit_minutes s) (per_url_time_limit_seconds s)
    (scan_start_time s) (current_url_start_time s) t
    (clock s) (events s) (logger s) (files s) (sent s).

(** one interaction with the world that takes [extra] seconds on top of what
    the oracle lets go by *)
Definition advance (E : Env) (extra : Q) (s : State) : State :=
  mkState (config s) (runtime_config s) (user_agents s) (time_hit_logged s) (stop_event s)
    (logged_count s) (global_time_limit_minutes s) (per_url_time_limit_seconds s)
    (scan_start_time s) (current_url_start_time s) (_last_request_time s)
    (clock s + extra + elapse E (events s))%Q (S (events s)) (logger s) (files s) (sent s).

Definition add_log (r : LogRecord) (s : State) : State :=
  mkState (config s) (runtime_config s) (user_agents s) (time_hit_logged s) (stop_event s)
    (logged_count s) (global_time_limit_minutes s) (per_url_time_limit_seconds s)
    (scan_start_time s) (current_url_start_time s) (_last_request_time s)
    (clock s) (events s) (r :: logger s) (files s) (sent s).

Definition set_files (f : string -> option string) (s : State) : State :=
  mkState (config s) (runtime_config s) (user_agents s) (time_hit_logged s) (stop_event s)
    (logged_count s) (global_time_limit_minutes s) (per_url_time_limit_seconds s)
    (scan_start_time s) (current_url_start_time s) (_last_request_time s)
    (clock s) (events s) (logger s) f (sent s).

Definition add_sent (r : string * string * Headers) (s : State) : State :=
  mkState (config s) (runtime_config s) (user_agents s) (time_hit_logged s) (stop_event s)
    (logged_count s) (global_time_limit_minutes s) (per_url_time_limit_seconds s)
    (scan_start_time s) (current_url_start_time s) (_last_request_time s)
    (clock s) (events s) (logger s) (files s) (r :: sent s).

(* ================================================================= *)
(** ** The monad: state plus Python exceptions *)

Inductive Outcome (A : Type) :=
| Return (a : A)
| Raise (e : PyException).
Arguments Return {A} a.
Arguments Raise {A} e.

Definition M (A : Type) : Type := State -> Outcome A * State.

Definition ret {A} (a : A) : M A := fun s => (Return a, s).

Definition raise {A} (e : PyException) : M A := fun s => (Raise e, s).

Definition bind {A B} (m : M A) (k : A -> M B) : M B :=
  fun s => match m s with
           | (Return a, s') => k a s'
           | (Raise e, s') => (Raise e, s')
           end.

Definition get : M State := fun s => (Return s, s).

Definition modify (f : State -> State) : M unit := fun s => (Return tt, f s).

(** [try: body finally: cleanup] *)
Definition try_finally {A} (body : M A) (cleanup : M unit) : M A :=
  fun s => match body s with
           | (r, s') =>
               match cleanup s' with
               | (Return _, s'') => (r, s'')
               | (Raise e, s'') => (Raise e, s'')
               end
           end.

(** [try: body except Exception as e: handler(e)] *)
Definition try_except {A} (body : M A) (handler : PyException -> M A) : M A :=
  fun s => match body s with
           | (Return a, s') => (Return a, s')
           | (Raise e, s') => handler e s'
           end.

Declare Scope py_scope.
Delimit Scope py_scope with py.
Notation "x <- c1 ;; c2" := (bind c1 (fun x => c2))
  (at level 61, c1 at next level, right associativity) : py_scope.
Notation "c1 ;; c2" := (bind c1 (fun _ => c2))
  (at level 61, right associativity) : py_scope.
Local Open Scope py_scope.

(* ----------------------------------------------------------------- *)
(** *** World primitives *)

(** [time.time()] *)
Definition time_time (E : Env) : M Q :=
  fun s => let s' := advance E 0 s in (Return (clock s'), s').

(** [time.sleep(t)]: at least [t] seconds go by *)
Definition time_sleep (E : Env) (t : Q) : M unit :=
  modify (advance E t).

(** [self.logger.info / warning / error] *)
Definition log (r : LogRecord) : M unit := modify (add_log r).

(** [random.choice(l)], an [IndexError] on an empty list *)
Definition random_choice (E : Env) (l : list string) : M string :=
  fun s =>
    match l with
    | [] => (Raise IndexError, s)
    | x :: _ =>
        (Return (nth (Nat.modulo (random_index E (events s)) (List.length l)) l x),
         advance E 0 s)
    end.

(** [requests.request(method, url, headers, ...)]: the response's status
    code and body, or the exception it raises *)
Definition requests_request (E : Env) (method url : string) (headers : Headers)
  : M (Z * string) :=
  fun s =>
    let s' := add_sent (url, method, headers) (advance E 0 s) in
    match network E (events s) url method headers with
    | Response status_code content => (Return (status_code, content), s')
    | Failure e => (Raise e, s')
    end.

(* ================================================================= *)
(** ** Start-up: the world before the engine runs

    The loaders of [utility/configuration.py] and [Fuzzer._load_user_agents]
    read files, write log lines and may end the process.  A file is what
    reading it gives; the log lines of a loader are collected oldest first. *)

(** [open(path, "r", encoding="utf-8")] and the iteration over the file *)
Inductive ReadOutcome :=
| FileText (text : string)
| FileNotFound                        (* FileNotFoundError *)
| FileIOError                         (* any other OSError *)
| FileUndecodable (before : string).  (* UnicodeDecodeError, a ValueError,
                                         after the lines of [before] *)

Definition Disk := string -> ReadOutcome.

Inductive StartupLog :=
| LogFileNotFound (file_path : string)
| LogReadFailed (file_path : string)
| LogInvalidDomain (domain : string)
| LogInvalidScheme
| LogUrlParsingError (domain : string)
| LogSkippingHeaderLine (line : string)
| LogHeaderFileNotFound (header_file : string)
| LogHeaderFileIOError (header_file : string)
| LogInvalidHeaderFormat (header_str : string)
| LogAgentsNotFound (file : string).

(** how a loader ends: with a value, in [sys.exit(code)], or in an exception *)
Inductive Started (A : Type) :=
| Loaded (a : A)
| Exit (code : Z)
| Broken (e : PyException).
Arguments Loaded {A} a.
Arguments Exit {A} code.
Arguments Broken {A} e.

Definition Startup (A : Type) : Type := Started A * list StartupLog.

Definition loaded {A} (a : A) : Startup A := (Loaded a, []).

Definition sys_exit {A} (code : Z) : Startup A := (Exit code, []).

Definition broken {A} (e : PyException) : Startup A := (Broken e, []).

Definition report (r : StartupLog) : Startup unit := (Loaded tt, [r]).

Definition and_then {A B} (m : Startup A) (k : A -> Startup B) : Startup B :=
  match m with
  | (Loaded a, l) => let (r, l') := k a in (r, (l ++ l')%list)
  | (Exit code, l) => (Exit code, l)
  | (Broken e, l) => (Broken e, l)
  end.

Declare Scope startup_scope.
Delimit Scope startup_scope with startup.
Notation "x <- c1 ;; c2" := (and_then c1 (fun x => c2))
  (at level 61, c1 at next level, right associativity) : startup_scope.
Notation "c1 ;; c2" := (and_then c1 (fun _ => c2))
  (at level 61, right associativity) : startup_scope.

(* ================================================================= *)
(** ** Collaborators from [utility/configuration.py] *)

Module Configuration.

(** [color_status_code]: the colour [termcolor.colored] is asked for *)
Definition color_status_code (status_code : Z) : Color :=
  if (200 <=? status_code) && (status_code <? 300) then Green
  else if (400 <=? status_code) && (status_code <? 500) then
    if status_code =? 404 then Magenta
    else if status_code =? 429 then BoldRed
    else Red
  else if (500 <=? status_code) && (status_code <? 600) then BoldRed
  else Plain.

Definition str_code (c : StatusFilter) : string :=
  match c with
  | IntCode n => Py.str_int n
  | StrCode t => t
  end.

(** [filter_status] *)
Definition filter_status (results : list string) (status_code : list StatusFilter)
  : list string :=
  match results with
  | [] => []
  | _ =>
      let codes := map str_code status_code in
      filter (fun r => existsb (fun code => Py.contains ("---> " ++ code ++ ",") r) codes)
             results
  end.

(** [format_time_remaining] *)
Definition format_time_remaining (seconds : Q) : string :=
  if Qle_bool seconds 0 then "0s"
  else if Py.Qlt_bool seconds 60 then Py.format_0f seconds ++ "s"
  else if Py.Qlt_bool seconds 3600 then
    let minutes := Py.int_of_float (Py.floordiv seconds 60) in
    let remaining_seconds := Py.int_of_float (Py.fmod seconds 60) in
    if remaining_seconds >? 0
    then Py.str_int minutes ++ "m " ++ Py.str_int remaining_seconds ++ "s"
    else Py.str_int minutes ++ "m"
  else
    let hours := Py.int_of_float (Py.floordiv seconds 3600) in
    let minutes := Py.int_of_float (Py.floordiv (Py.fmod seconds 3600) 60) in
    if minutes >? 0
    then Py.str_int hours ++ "h " ++ Py.str_int minutes ++ "m"
    else Py.str_int hours ++ "h".

(** [config/constants.py] *)
Definition proxy_host : string := "127.0.0.1".
Definition proxy_port : string := "8080".

(** [proxy] *)
Definition proxy (enable_proxy : bool) : Py.Dict :=
  if enable_proxy then
    let proxy_url := "http://" ++ proxy_host ++ ":" ++ proxy_port in
    [("http", proxy_url); ("https", proxy_url)]
  else [].

(** the fields [__init__] stores; [None] where the command line gave none *)
Record Self := mkSelf {
  domain : option string;
  url_file : option string;
  method_file : option string;
  path_file : option string;
  header_file : option string
}.

Local Open Scope startup_scope.

(** [parse_header]: unpacking a list of one part raises the [ValueError]
    that the handler turns into a warning and an empty dict *)
Definition parse_header (header_str : string) : Startup Headers :=
  match Py.split_once ":" header_str with
  | Some (key, value) => loaded [(Py.strip key, Py.strip value)]
  | None => report (LogInvalidHeaderFormat header_str) ;; loaded []
  end.

Section Loaders.

Variable disk : Disk.

(** [urlparse(url)]: the scheme and the network location, or an exception *)
Variable urlparse : string -> Outcome (string * string).

(** [load_lines_from_file] *)
Definition load_lines_from_file (file_path : option string) : Startup (list string) :=
  match file_path with
  | None => loaded []
  | Some file_path =>
      if negb (Py.truthy_str file_path) then loaded []
      else
        match disk file_path with
        | FileText text => loaded (Py.stripped_lines text)
        | FileNotFound => report (LogFileNotFound file_path) ;; sys_exit 1
        | FileIOError => report (LogReadFailed file_path) ;; sys_exit 1
        | FileUndecodable _ => broken ValueError
        end
  end.

(** [load_paths_from_file], [load_urls_from_file], [load_methods_from_file] *)
Definition load_paths_from_file (self : Self) : Startup (list string) :=
  load_lines_from_file (path_file self).

Definition load_urls_from_file (self : Self) : Startup (list string) :=
  load_lines_from_file (url_file self).

Definition load_methods_from_file (self : Self) : Startup (list string) :=
  load_lines_from_file (method_file self).

(** [validate_url]: everything after the first test runs under
    [except Exception] *)
Definition validate_url (self : Self) : Startup (option string) :=
  match domain self with
  | None => loaded None
  | Some domain =>
      if negb (Py.truthy_str domain) then loaded None
      else
        let url :=
          if (String.prefix "http://" domain || String.prefix "https://" domain)%bool
          then domain else "http://" ++ domain in
        match urlparse url with
        | Return (scheme, netloc) =>
            if negb (Py.truthy_str netloc) then
              report (LogInvalidDomain domain) ;; loaded None
            else if negb (String.eqb scheme "http" || String.eqb scheme "https")%bool then
              report LogInvalidScheme ;; loaded None
            else loaded (Some url)
        | Raise _ => report (LogUrlParsingError domain) ;; loaded None
        end
  end.

(** the loop of [load_headers_from_file] over the lines read *)
Fixpoint header_lines (lines : list string) (headers_list : list Headers)
  : Startup (list Headers) :=
  match lines with
  | [] => loaded headers_list
  | line :: lines' =>
      if Py.contains ":" line then
        match Py.split_once ":" line with
        | Some (key, value) =>
            header_lines lines' (headers_list ++ [[(Py.strip key, Py.strip value)]])%list
        | None => broken ValueError
        end
      else
        report (LogSkippingHeaderLine line) ;;
        header_lines lines' headers_list
  end.

(** [load_headers_from_file] *)
Definition load_headers_from_file (self : Self) : Startup (list Headers) :=
  match header_file self with
  | None => loaded []
  | Some header_file =>
      if negb (Py.truthy_str header_file) then loaded []
      else
        match disk header_file with
        | FileText text => header_lines (Py.file_lines text) []
        | FileNotFound => report (LogHeaderFileNotFound header_file) ;; loaded []
        | FileIOError => report (LogHeaderFileIOError header_file) ;; loaded []
        | FileUndecodable before =>
            header_lines (Py.file_lines before) [] ;; broken ValueError
        end
  end.

End Loaders.

Local Close Scope startup_scope.

End Configuration.

(* ================================================================= *)
(** ** [config/static_config.py] *)

(** [FuzzerStaticConfig.build_fuzzer_config]: the arguments of the
    constructor call are evaluated in the order they are written; a
    [FileNotFoundError] or a [ValueError] among them is raised again as a
    [ValueError]; [x or []] is [x] for a list *)
Definition build_fuzzer_config (disk : Disk) (urlparse : string -> Outcome (string * string))
    (utility : Configuration.Self) (header : option string)
  : Startup FuzzerStaticConfig :=
  match
    (base_url <- Configuration.validate_url urlparse utility ;;
     path_file <- Configuration.load_lines_from_file disk
                    (Configuration.path_file utility) ;;
     url_file <- Configuration.load_lines_from_file disk
                   (Configuration.url_file utility) ;;
     method_file <- Configuration.load_lines_from_file disk
                      (Configuration.method_file utility) ;;
     header_file <- Configuration.load_headers_from_file disk utility ;;
     header <- match header with
               | Some header_str =>
                   if Py.truthy_str header_str then
                     parsed <- Configuration.parse_header header_str ;;
                     loaded (Some parsed)
                   else loaded None
               | None => loaded None
               end ;;
     loaded (mkStatic base_url path_file url_file method_file header_file header
                      (Configuration.proxy false)))%startup
  with
  | (Broken ValueError, l) => (Broken ValueError, l)
  | (Broken (OtherError "FileNotFoundError"), l) => (Broken ValueError, l)
  | r => r
  end.

(* ================================================================= *)
(** ** The engine: [class Fuzzer] *)

(** [status_code in filter]: an [int] equals only an [int] entry *)
Definition status_in (status_code : Z) (codes : list StatusFilter) : bool :=
  existsb (fun c => match c with IntCode n => status_code =? n | StrCode _ => false end) codes.

Definition truthy_filter (f : option (list StatusFilter)) : bool :=
  match f with Some (_ :: _) => true | _ => false end.

Definition str_opt (o : option string) : string :=
  match o with Some b => b | None => "None" end.

(** The fixed catalog of [_generate_url_variations] *)
Definition variations (base : string) (path : string) : list string :=
  [ base ++ "/" ++ path;
    base ++ "/%2e/" ++ path;
    base ++ "/" ++ path ++ "/.";
    base ++ "//" ++ path ++ "//";
    base ++ "/./" ++ path ++ "/./";
    base ++ "///" ++ path ++ "///";
    base ++ "/" ++ path ++ "..;/";
    base ++ "/" ++ path ++ ";/";
    base ++ path ++ "\*";
    base ++ "/" ++ path ++ "/*";
    base ++ "/" ++ path ++ "%20";
    base ++ "/" ++ path ++ "%09";
    base ++ "/" ++ Py.upper path;
    base ++ "/" ++ path ++ "?";
    base ++ "/" ++ path ++ "/?anything";
    base ++ "/" ++ path ++ ".html";
    base ++ "/" ++ path ++ ".php";
    base ++ "/" ++ path ++ ".json" ].

(** [_generate_url_variations(path, all_urls)]: the list passed in is
    extended in place; the extended list is returned *)
Definition _generate_url_variations (path : string) (all_urls : list string)
  : M (list string) :=
  s <- get ;;
  ret (all_urls ++ variations (str_opt (base_url (config s))) path)%list.

(** [_get_methods]: the inner [None] is the early [return] of the default
    list, which leaves the function before the [max_methods] limit *)
Definition _get_methods (s : State) : list string :=
  match
    match method (runtime_config s) with
    | Some (m :: ms) => Some (map Py.upper (m :: ms))
    | _ =>
        match method_file (config s) with
        | m :: ms => Some (map Py.upper (m :: ms))
        | [] => None
        end
    end
  with
  | None => ["GET"; "POST"; "PATCH"; "HEAD"]
  | Some methods =>
      match max_methods (runtime_config s) with
      | Some max_methods =>
          if Z.of_nat (List.length methods) >? max_methods
          then Py.slice_to methods max_methods
          else methods
      | None => methods
      end
  end.

(** [_get_headers] *)
Definition _get_headers (s : State) : list Headers :=
  let headers :=
    match header (config s) with
    | Some (h :: hs) => [h :: hs]
    | _ =>
        match header_file (config s) with
        | h :: hs => h :: hs
        | [] => [[]]
        end
    end in
  match max_headers (runtime_config s) with
  | Some max_headers =>
      if Z.of_nat (List.length headers) >? max_headers
      then Py.slice_to headers max_headers
      else headers
  | None => headers
  end.

(** A future of the thread pool, and the pool as the list of the futures in
    submission order (the iteration order of [future_to_request]) *)
Inductive FutureState :=
| Pending
| Running
| Finished (r : Outcome string)
| Cancelled.

Record Future := mkFuture {
  request : string * string * Headers;
  fstate : FutureState
}.

Definition Pool := list Future.

(** [future.done()] *)
Definition done (f : Future) : bool :=
  match fstate f with
  | Finished _ | Cancelled => true
  | Pending | Running => false
  end.

(** [future.cancel()]: only a future that has not started can be cancelled *)
Definition cancel (f : Future) : bool * Future :=
  match fstate f with
  | Pending => (true, mkFuture (request f) Cancelled)
  | Cancelled => (true, f)
  | Running | Finished _ => (false, f)
  end.

(** [for remaining_future in future_to_request: remaining_future.cancel()] *)
Definition cancel_all (pool : Pool) : Pool :=
  map (fun f => snd (cancel f)) pool.

(** [for remaining_future in future_to_request:
       if not remaining_future.done() and remaining_future.cancel():
           remaining_future.cancel()] *)
Definition cancel_not_done (pool : Pool) : Pool :=
  map (fun f =>
         if negb (done f) then
           let (cancelled, f') := cancel f in
           if cancelled then snd (cancel f') else f'
         else f) pool.

Definition running_count (pool : Pool) : nat :=
  List.length (filter (fun f => match fstate f with Running => true | _ => false end) pool).

(** a free worker takes the oldest work item that was not cancelled *)
Fixpoint start_first (pool : Pool) : Pool :=
  match pool with
  | [] => []
  | f :: pool' =>
      match fstate f with
      | Pending => mkFuture (request f) Running :: pool'
      | _ => f :: start_first pool'
      end
  end.

Definition worker_start (max_workers : Z) (pool : Pool) : Pool :=
  if Z.of_nat (running_count pool) <? max_workers then start_first pool else pool.

Fixpoint first_index (p : Future -> bool) (pool : Pool) (i : nat) : option nat :=
  match pool with
  | [] => None
  | f :: pool' => if p f then Some i else first_index p pool' (S i)
  end.

Definition is_running (f : Future) : bool :=
  match fstate f with Running => true | _ => false end.

Definition is_pending (f : Future) : bool :=
  match fstate f with Pending => true | _ => false end.

Fixpoint set_nth (pool : Pool) (i : nat) (f : Future) : Pool :=
  match pool, i with
  | [], _ => []
  | _ :: pool', O => f :: pool'
  | g :: pool', S i' => g :: set_nth pool' i' f
  end.

Section Engine.

Variable E : Env.

(* --------------------------------------------------------------- *)
(** *** Timeouts *)

(** [_log_timeout_once]: the body runs under [log_lock] *)
Definition _log_timeout_once (message : LogRecord) : M unit :=
  s <- get ;;
  if negb (time_hit_logged s) then
    log message ;;
    modify (set_time_hit_logged true) ;;
    modify (set_stop_event true)
  else ret tt.

(** [_is_per_url_timeout] *)
Definition _is_per_url_timeout : M bool :=
  s <- get ;;
  match per_url_time_limit_seconds s, current_url_start_time s with
  | Some limit, Some start =>
      now <- time_time E ;;
      let url_elapsed_seconds := (now - start)%Q in
      if Py.Qlt_bool limit url_elapsed_seconds then ret true else ret false
  | _, _ => ret false
  end.

(** [_is_timeout_global] *)
Definition _is_timeout_global : M bool :=
  s <- get ;;
  if stop_event s then ret true
  else
    current_time <- time_time E ;;
    match global_time_limit_minutes s, scan_start_time s with
    | Some limit, Some start =>
        let elapsed_minutes := ((current_time - start) / 60)%Q in
        if Py.Qlt_bool limit elapsed_minutes then
          _log_timeout_once (LogGlobalLimitExceeded elapsed_minutes limit) ;;
          ret true
        else ret false
    | _, _ => ret false
    end.

(** [_is_timeout]: [or] evaluates its second operand only when the first
    is false *)
Definition _is_timeout : M bool :=
  g <- _is_timeout_global ;;
  if g then ret true else _is_per_url_timeout.

(** [_log_global_timeout_remaining] *)
Definition _log_global_timeout_remaining : M unit :=
  s <- get ;;
  match global_time_limit_minutes s, scan_start_time s with
  | Some limit, Some start =>
      if Py.truthy_float limit && Py.truthy_float start then
        now <- time_time E ;;
        let elapsed_minutes := ((now - start) / 60)%Q in
        let remaining_minutes := (limit - elapsed_minutes)%Q in
        if Py.Qlt_bool 0 remaining_minutes
        then log (LogGlobalRemaining (remaining_minutes * 60)%Q)
        else ret tt
      else ret tt
  | _, _ => ret tt
  end.

(* --------------------------------------------------------------- *)
(** *** Rate limiter *)

(** [_coordinate_delay]: everything after the first test runs under
    [_request_timing_lock] *)
Definition _coordinate_delay (delay : option Q) : M unit :=
  match delay with
  | None => ret tt
  | Some delay =>
      if Qle_bool delay 0 then ret tt
      else
        current_time <- time_time E ;;
        s <- get ;;
        if Py.Qlt_bool 0 (_last_request_time s) then
          let elapsed := (current_time - _last_request_time s)%Q in
          if Py.Qlt_bool elapsed delay then
            let sleep_time := (delay - elapsed)%Q in
            time_sleep E sleep_time ;;
            t <- time_time E ;;
            modify (set_last_request_time t)
          else modify (set_last_request_time current_time)
        else modify (set_last_request_time current_time)
  end.

(* --------------------------------------------------------------- *)
(** *** Progress lines *)

(** [_log_progress] *)
Definition _log_progress (current total : Z) : M unit :=
  if total >? 10 then
    let interval := Z.max 1 (total / 10) in
    if (current mod interval =? 0) || (current =? total)
    then log (LogProgress current total)
    else ret tt
  else ret tt.

(** [_log_progress_with_time] *)
Definition _log_progress_with_time (current total : Z) (start_time : Q) : M unit :=
  if total >? 10 then
    let interval := Z.max 1 (total / 10) in
    if (current mod interval =? 0) || (current =? total) then
      now <- time_time E ;;
      let elapsed_time := (now - start_time)%Q in
      if current >? 0 then
        let estimated_total_time :=
          (elapsed_time * (inject_Z total / inject_Z current))%Q in
        let time_remaining := (estimated_total_time - elapsed_time)%Q in
        log (LogProgressEstimate current total time_remaining)
      else ret tt
    else ret tt
  else ret tt.

(* --------------------------------------------------------------- *)
(** *** Request executor *)

(** the [try] block of [_make_single_request] *)
Definition request_and_log (url method : string) (headers : Headers) : M string :=
  response <- requests_request E method url headers ;;
  let (status_code, content) := response in
  let result :=
    url ++ " ---> " ++ Py.str_int status_code ++ ", " ++ method ++ ", "
        ++ Py.repr_dict headers ++ ", " ++ Py.str_len (String.length content)
        ++ " bytes" in
  s <- get ;;
  let should_log :=
    match filter_status_code (runtime_config s) with
    | Some (c :: cs) => status_in status_code (c :: cs)
    | _ => true
    end in
  (if should_log then
     modify (fun s => set_logged_count (logged_count s + 1) s) ;;
     log (LogResult (Configuration.color_status_code status_code) result)
   else ret tt) ;;
  ret result.

(** its [except] clauses, tried in the order of the source:
    [requests.Timeout], [requests.ConnectionError],
    [requests.RequestException]; any other exception goes on *)
Definition request_failed (url method : string) (e : PyException) : M string :=
  match e with
  | RequestsError r =>
      if is_Timeout r then
        log (LogRequestTimeout method url) ;;
        ret (url ++ " ---> TIMEOUT, " ++ method ++ ", {}, 0 bytes")
      else if is_ConnectionError r then
        log (LogConnectionFailed method url) ;;
        ret (url ++ " ---> CONNECTION_ERROR, " ++ method ++ ", {}, 0 bytes")
      else
        log (LogRequestError method url) ;;
        ret (url ++ " ---> ERROR, " ++ method ++ ", {}, 0 bytes")
  | _ => raise e
  end.

(** [_make_single_request] *)
Definition _make_single_request (url method : string) (headers : Headers)
    (is_threaded : bool) : M string :=
  s <- get ;;
  headers <- (if negb (Py.dict_mem "User-Agent" headers) then
                agent <- random_choice E (user_agents s) ;;
                ret (Py.dict_set headers "User-Agent" agent)
              else ret headers) ;;
  (if negb is_threaded then _coordinate_delay (delay (runtime_config s)) else ret tt) ;;
  try_except (request_and_log url method headers) (request_failed url method).

(** [_make_threaded_request]: the body of a pool task *)
Definition _make_threaded_request (url method : string) (headers : Headers) : M string :=
  t <- _is_timeout ;;
  if t then ret ""
  else
    s <- get ;;
    _coordinate_delay (delay (runtime_config s)) ;;
    _make_single_request url method headers true.

(* --------------------------------------------------------------- *)
(** *** Sequential dispatch *)

(** The three nested loops of [_run_sequential].  Each returns the
    accumulated [(all_results, current_request)] and whether the function
    left through [return all_results]. *)
Fixpoint seq_headers (url method : string) (total_requests : Z) (start_time : Q)
    (headers : list Headers) (acc : list string * Z)
  : M (bool * (list string * Z)) :=
  match headers with
  | [] => ret (false, acc)
  | header :: headers' =>
      t <- _is_timeout ;;
      if t then ret (false, acc)
      else
        let (all_results, current_request) := acc in
        let current_request := current_request + 1 in
        _log_progress_with_time current_request total_requests start_time ;;
        (if current_request mod PROGRESS_LOG_INTERVAL =? 0
         then _log_global_timeout_remaining else ret tt) ;;
        result <- _make_single_request url method header false ;;
        let all_results :=
          if Py.truthy_str result then (all_results ++ [result])%list
          else all_results in
        if Z.of_nat (List.length all_results) >=? MAX_RESULT then
          log LogResultLimit ;;
          ret (true, (all_results, current_request))
        else
          seq_headers url method total_requests start_time headers'
                      (all_results, current_request)
  end.

Fixpoint seq_methods (url : string) (total_requests : Z) (start_time : Q)
    (methods : list string) (acc : list string * Z)
  : M (bool * (list string * Z)) :=
  match methods with
  | [] => ret (false, acc)
  | method :: methods' =>
      t <- _is_timeout ;;
      if t then ret (false, acc)
      else
        s <- get ;;
        r <- seq_headers url method total_requests start_time (_get_headers s) acc ;;
        let (returned, acc') := r in
        if returned then ret (true, acc')
        else seq_methods url total_requests start_time methods' acc'
  end.

Fixpoint seq_urls (total_requests : Z) (start_time : Q)
    (urls : list string) (acc : list string * Z)
  : M (bool * (list string * Z)) :=
  match urls with
  | [] => ret (false, acc)
  | url :: urls' =>
      t <- _is_timeout ;;
      if t then ret (false, acc)
      else
        s <- get ;;
        r <- seq_methods url total_requests start_time (_get_methods s) acc ;;
        let (returned, acc') := r in
        if returned then ret (true, acc')
        else seq_urls total_requests start_time urls' acc'
  end.

(** [_run_sequential] *)
Definition _run_sequential (urls : list string) : M (list string) :=
  s <- get ;;
  let total_requests :=
    Z.of_nat (List.length urls) * Z.of_nat (List.length (_get_methods s))
    * Z.of_nat (List.length (_get_headers s)) in
  start_time <- time_time E ;;
  r <- seq_urls total_requests start_time urls ([], 0) ;;
  ret (fst (snd r)).

(* --------------------------------------------------------------- *)
(** *** Concurrent dispatch *)

(** Run a computation and keep its exception, as a future does *)
Definition capture {A} (m : M A) : M (Outcome A) :=
  fun s => match m s with (r, s') => (Return r, s') end.

(** The task of future [i] completes: its body runs, the outcome is stored
    in the future, and the future joins the completion queue *)
Definition worker_finish (i : nat) (pq : Pool * list nat) : M (Pool * list nat) :=
  let (pool, queue) := pq in
  match nth_error pool i with
  | Some f =>
      if is_running f then
        let '(url, method, headers) := request f in
        r <- capture (_make_threaded_request url method headers) ;;
        ret (set_nth pool i (mkFuture (request f) (Finished r)), (queue ++ [i])%list)
      else ret pq
  | None => ret pq
  end.

Definition worker_event (max_workers : Z) (ev : WorkerEvent) (pq : Pool * list nat)
  : M (Pool * list nat) :=
  match ev with
  | WorkerStart => ret (worker_start max_workers (fst pq), snd pq)
  | WorkerFinish i => worker_finish i pq
  end.

Fixpoint worker_events (max_workers : Z) (evs : list WorkerEvent) (pq : Pool * list nat)
  : M (Pool * list nat) :=
  match evs with
  | [] => ret pq
  | ev :: evs' =>
      pq' <- worker_event max_workers ev pq ;;
      worker_events max_workers evs' pq'
  end.

(** One step of [concurrent.futures.as_completed]: the workers run as the
    schedule says; if no completed future is waiting then, the iterator
    blocks until a worker completes one.  [None] when every future was
    handed out. *)
Definition await (max_workers : Z) (pq : Pool * list nat)
  : M (Pool * list nat * option nat) :=
  s <- get ;;
  modify (advance E 0) ;;
  pq <- worker_events max_workers (schedule E (events s)) pq ;;
  match snd pq with
  | j :: queue => ret (fst pq, queue, Some j)
  | [] =>
      match first_index is_running (fst pq) 0 with
      | Some j =>
          pq <- worker_finish j pq ;;
          ret (fst pq, tl (snd pq), hd_error (snd pq))
      | None =>
          match first_index is_pending (fst pq) 0 with
          | Some j =>
              pq <- worker_finish j (start_first (fst pq), snd pq) ;;
              ret (fst pq, tl (snd pq), hd_error (snd pq))
          | None => ret (fst pq, [], None)
          end
      end
  end.

(** [future.result(timeout=1)] of a future handed out by [as_completed] *)
Definition future_result (pool : Pool) (j : nat) : Outcome string :=
  match nth_error pool j with
  | Some f =>
      match fstate f with
      | Finished r => r
      | Cancelled => Raise (OtherError "CancelledError")
      | Pending | Running => Raise TimeoutError
      end
  | None => Raise IndexError
  end.

Definition request_of (pool : Pool) (j : nat) : string * string * Headers :=
  match nth_error pool j with
  | Some f => request f
  | None => ("", "", [])
  end.

(** The loop of [_collect_threaded_result]; [as_completed] hands out each
    future once, which bounds the loop by the number of futures.  The
    result is [all_results] and the pool as the loop leaves it. *)
Fixpoint collect (n : nat) (max_workers : Z) (i total : Z) (pq : Pool * list nat)
    (all_results : list string) : M (list string * Pool) :=
  match n with
  | O => ret (all_results, fst pq)
  | S n' =>
      a <- await max_workers pq ;;
      let '(pool, queue, next) := a in
      match next with
      | None => ret (all_results, pool)
      | Some future =>
          _log_progress i total ;;
          t <- _is_timeout ;;
          if t then ret (all_results, cancel_not_done pool)
          else
            match future_result pool future with
            | Return result =>
                if Py.truthy_str result && Py.strip_nonempty result then
                  let all_results := (all_results ++ [result])%list in
                  if Z.of_nat (List.length all_results) >=? MAX_RESULT then
                    log LogResultLimit ;;
                    ret (all_results, cancel_all pool)
                  else collect n' max_workers (i + 1) total (pool, queue) all_results
                else collect n' max_workers (i + 1) total (pool, queue) all_results
            | Raise TimeoutError =>
                let '(url, method, _) := request_of pool future in
                log (LogFutureTimeout method url) ;;
                collect n' max_workers (i + 1) total (pool, queue) all_results
            | Raise e =>
                let '(url, method, _) := request_of pool future in
                log (LogFutureError method url e) ;;
                collect n' max_workers (i + 1) total (pool, queue) all_results
            end
      end
  end.

(** [_collect_threaded_result] *)
Definition _collect_threaded_result (max_workers : Z) (future_to_request : Pool)
  : M (list string * Pool) :=
  collect (List.length future_to_request) max_workers 1
          (Z.of_nat (List.length future_to_request)) (future_to_request, []) [].

(** Leaving the [with ThreadPoolExecutor(...)] block waits for the workers:
    every future that was not cancelled runs to its end *)
Fixpoint shutdown (indices : list nat) (pool : Pool) : M Pool :=
  match indices with
  | [] => ret pool
  | i :: indices' =>
      match nth_error pool i with
      | Some f =>
          match fstate f with
          | Pending | Running =>
              pq <- worker_finish i (set_nth pool i (mkFuture (request f) Running), []) ;;
              shutdown indices' (fst pq)
          | _ => shutdown indices' pool
          end
      | None => shutdown indices' pool
      end
  end.

(** the [(url, method, header)] triples in submission order *)
Definition request_tasks (s : State) (urls : list string)
  : list (string * string * Headers) :=
  flat_map (fun url =>
    flat_map (fun method =>
      map (fun header => (url, method, header)) (_get_headers s))
      (_get_methods s))
    urls.

(** [_run_fuzz_threading] *)
Definition _run_fuzz_threading (urls : list string) : M (list string) :=
  log (LogStartThreading (List.length urls)) ;;
  s <- get ;;
  let max_workers := num_threads (runtime_config s) in
  if max_workers <=? 1 then _run_sequential urls
  else
    log (LogUsingThreads max_workers) ;;
    let future_to_request := map (fun t => mkFuture t Pending) (request_tasks s urls) in
    r <- _collect_threaded_result max_workers future_to_request ;;
    let (all_result, pool) := r in
    shutdown (seq 0 (List.length pool)) pool ;;
    ret all_result.

(* --------------------------------------------------------------- *)
(** *** Batch scheduler *)

Fixpoint generate_all (paths : list string) (all_urls : list string) : M (list string) :=
  match paths with
  | [] => ret all_urls
  | path :: paths' =>
      all_urls <- _generate_url_variations path all_urls ;;
      generate_all paths' all_urls
  end.

(** the [for i in range(0, len(path_file), BATCH_SIZE)] loop *)
Fixpoint batch_loop (BATCH_SIZE : Z) (indices : list Z) (results : list string)
  : M (list string) :=
  match indices with
  | [] => ret results
  | i :: indices' =>
      g <- _is_timeout_global ;;
      if g then ret results
      else
        p <- _is_per_url_timeout ;;
        if p then log LogPerUrlLimit ;; ret results
        else
          s <- get ;;
          let batch_paths := Py.slice (path_file (config s)) i (i + BATCH_SIZE) in
          batch_urls <- generate_all batch_paths [] ;;
          if Py.truthy_list batch_urls then
            batch_results <- _run_fuzz_threading batch_urls ;;
            batch_loop BATCH_SIZE indices' (results ++ batch_results)%list
          else batch_loop BATCH_SIZE indices' results
  end.

(** [_process_paths_for_base_url]; [range] raises on a step that is [None]
    or zero *)
Definition _process_paths_for_base_url : M (list string) :=
  s <- get ;;
  match path_batch_size (runtime_config s) with
  | None => raise TypeError
  | Some BATCH_SIZE =>
      if BATCH_SIZE =? 0 then raise ValueError
      else
        batch_loop BATCH_SIZE
          (Py.range0 (Z.of_nat (List.length (path_file (config s)))) BATCH_SIZE) []
  end.

Definition set_base_url (b : option string) : M unit :=
  modify (fun s => set_config (with_base_url b (config s)) s).

(** the [try] block of [_process_url_list] *)
Definition process_target (url_index : Z) : M (list string) :=
  s <- get ;;
  url_results <-
    (if Py.truthy_list (path_file (config s))
     then _process_paths_for_base_url
     else _run_fuzz_threading [str_opt (base_url (config s))]) ;;
  log (LogFinishedURL url_index (List.length url_results)) ;;
  ret url_results.

(** one round of the loop of [_process_url_list] once the global timeout
    was found not to have expired: the target becomes the current one,
    is processed, and the previous base URL is put back in [finally] *)
Definition url_iteration (base : string) (url_index : Z) : M (list string) :=
  now <- time_time E ;;
  modify (set_current_url_start_time (Some now)) ;;
  s <- get ;;
  let original_base_url := base_url (config s) in
  set_base_url (Some (Py.rstrip "/" base)) ;;
  try_finally (process_target url_index) (set_base_url original_base_url).

(** the [for url_index, base_url in enumerate(self.config.url_file, 1)] loop *)
Fixpoint url_loop (total : Z) (urls : list string) (url_index : Z)
    (results : list string) : M (list string) :=
  match urls with
  | [] => ret results
  | base :: urls' =>
      log (LogStartingURL url_index total base) ;;
      g <- _is_timeout_global ;;
      if g then log (LogGlobalTimeoutStop url_index) ;; ret results
      else
        url_results <- url_iteration base url_index ;;
        url_loop total urls' (url_index + 1) (results ++ url_results)%list
  end.

(** [_process_url_list] *)
Definition _process_url_list : M (list string) :=
  s <- get ;;
  url_loop (Z.of_nat (List.length (url_file (config s)))) (url_file (config s)) 1 [].

(* --------------------------------------------------------------- *)
(** *** Results and the main entry point *)

(** [with open(file, "w") as f: for result in results: f.write(result + "\n")] *)
Definition write_results (file : string) (results : list string) : M unit :=
  if open_fails E file then raise OSError
  else
    modify (fun s =>
      set_files (fun name =>
                   if String.eqb name file
                   then Some (String.concat "" (map (fun r => r ++ Py.newline) results))
                   else files s name) s).

(** [_finalize_results] *)
Definition _finalize_results (results : list string) : M (list string) :=
  log (LogTotalBeforeFiltering (List.length results)) ;;
  s <- get ;;
  filtered_results <-
    match filter_status_code (runtime_config s) with
    | Some (c :: cs) =>
        let filtered := Configuration.filter_status results (c :: cs) in
        log (LogAfterFiltering (List.length filtered)) ;;
        ret filtered
    | _ => ret results
    end ;;
  match output_file (runtime_config s) with
  | Some file =>
      if Py.truthy_str file then
        if Py.truthy_list filtered_results then
          try_except
            (write_results file filtered_results ;;
             log (LogWritten (List.length filtered_results) file))
            (fun _ => log (LogWriteError file))
        else log LogNoMatch
      else ret tt
  | None => ret tt
  end ;;
  s <- get ;;
  (if truthy_filter (filter_status_code (runtime_config s)) && (logged_count s >? 0)
   then log (LogLoggedDuringExecution (logged_count s))
   else ret tt) ;;
  ret results.

(** [_display_configuration]: the banner, kept as one log record *)
Definition _display_configuration : M unit := log LogBanner.

(** [run] *)
Definition run : M (list string) :=
  modify (set_logged_count 0) ;;
  now <- time_time E ;;
  modify (set_scan_start_time (Some now)) ;;
  _display_configuration ;;
  s <- get ;;
  results <-
    (if Py.truthy_list (url_file (config s)) then _process_url_list
     else if match base_url (config s) with
             | Some b => Py.truthy_str b
             | None => false
             end && Py.truthy_list (path_file (config s))
          then _process_paths_for_base_url
          else ret []) ;;
  _finalize_results results.

End Engine.

(** [Fuzzer.__init__]; the clock and the file system are those of the world
    the object is created in *)
Definition init (config : FuzzerStaticConfig) (runtime_config : FuzzerRuntimeConfig)
    (user_agents : list string) (clock : Q) (files : string -> option string) : State :=
  mkState config runtime_config user_agents false false 0
    (time runtime_config) (per_url_time_limit runtime_config)
    None None 0%Q clock 0%nat [] files [].

(** [_load_user_agents]: only a missing file is handled *)
Definition _load_user_agents (disk : Disk) : Startup (list string) :=
  match disk FILE with
  | FileText text => loaded (Py.stripped_lines text)
  | FileNotFound =>
      (report (LogAgentsNotFound FILE) ;;
       loaded
         ["Mozilla/5.0 (Windows NT 10.0; Win64; x64) AppleWebKit/537.36 (KHTML, like Gecko) Chrome/120.0.0.0 Safari/537.36";
          "Mozilla/5.0 (Macintosh; Intel Mac OS X 10_15_7) AppleWebKit/537.36 (KHTML, like Gecko) Chrome/120.0.0.0 Safari/537.36"])%startup
  | FileIOError => broken OSError
  | FileUndecodable _ => broken ValueError
  end.

(** [Fuzzer(config=..., runtime_config=...)]: [__init__] with the catalog
    it loads *)
Definition Fuzzer (disk : Disk) (config : FuzzerStaticConfig)
    (runtime_config : FuzzerRuntimeConfig) (clock : Q) (files : string -> option string)
  : Startup State :=
  (user_agents <- _load_user_agents disk ;;
   loaded (init config runtime_config user_agents clock files))%startup.

(* ================================================================= *)
(** ** The rate limiter under interleaved workers

    [_coordinate_delay] runs under [_request_timing_lock] from its first
    clock reading on, so the calls of concurrent workers take effect one
    after the other.  Between two calls the other workers only let time go
    by: nothing else writes [_last_request_time]. *)

Inductive LimiterStep :=
| Coordinate (worker : nat)
| Elsewhere (seconds : Q).

(** the state after an interleaving of calls with delay [d] *)
Fixpoint limiter_run (E : Env) (d : Q) (steps : list LimiterStep) (s : State) : State :=
  match steps with
  | [] => s
  | Coordinate _ :: steps' => limiter_run E d steps' (snd (_coordinate_delay E (Some d) s))
  | Elsewhere q :: steps' => limiter_run E d steps' (advance E q s)
  end.

(** the request timestamps recorded along it, oldest first *)
Fixpoint limiter_trace (E : Env) (d : Q) (steps : list LimiterStep) (s : State) : list Q :=
  match steps with
  | [] => []
  | Coordinate _ :: steps' =>
      let s' := snd (_coordinate_delay E (Some d) s) in
      _last_request_time s' :: limiter_trace E d steps' s'
  | Elsewhere q :: steps' => limiter_trace E d steps' (advance E q s)
  end.

Fixpoint spaced (d : Q) (stamps : list Q) : Prop :=
  match stamps with
  | t1 :: ((t2 :: _) as rest) => (t1 + d <= t2)%Q /\ spaced d rest
  | _ => True
  end.

Definition calm (steps : list LimiterStep) : Prop :=
  Forall (fun st => match st with Elsewhere q => (0 <= q)%Q | Coordinate _ => True end) steps.

(* ================================================================= *)
(** ** The global-timeout check under interleaved threads

    [_is_timeout_global] and [_log_timeout_once] cut into the steps a thread
    takes between two accesses to shared data.  Only the steps between
    taking and releasing [log_lock] exclude one another. *)

Inductive CheckPc :=
| AtEntry                       (* about to test stop_event.is_set() *)
| AtClock                       (* about to read the clock and compare *)
| AtLock (message : LogRecord)  (* in _log_timeout_once, waiting for log_lock *)
| AtTest (message : LogRecord)  (* holds the lock, about to test time_hit_logged *)
| AtLog (message : LogRecord)   (* about to call logger.info *)
| AtSetLogged                   (* about to set time_hit_logged *)
| AtSetEvent                    (* about to call stop_event.set() *)
| AtRelease                     (* about to release the lock and return True *)
| Returned (result : bool).     (* back in the caller *)

Record Checkers := mkCheckers {
  shared : State;
  log_lock : option nat;
  pc : nat -> CheckPc;
  returns : list (nat * bool)
}.

Definition set_pc (pcs : nat -> CheckPc) (t : nat) (p : CheckPc) : nat -> CheckPc :=
  fun t' => if Nat.eqb t' t then p else pcs t'.

(** thread [t] takes its next step; a thread back in the caller checks again *)
Definition check_step (E : Env) (t : nat) (m : Checkers) : Checkers :=
  let s := shared m in
  match pc m t with
  | AtEntry =>
      if stop_event s
      then mkCheckers s (log_lock m) (set_pc (pc m) t (Returned true))
                      (returns m ++ [(t, true)])
      else mkCheckers s (log_lock m) (set_pc (pc m) t AtClock) (returns m)
  | AtClock =>
      let s' := advance E 0 s in
      let current_time := clock s' in
      match global_time_limit_minutes s, scan_start_time s with
      | Some limit, Some start =>
          let elapsed_minutes := ((current_time - start) / 60)%Q in
          if Py.Qlt_bool limit elapsed_minutes
          then mkCheckers s' (log_lock m)
                 (set_pc (pc m) t (AtLock (LogGlobalLimitExceeded elapsed_minutes limit)))
                 (returns m)
          else mkCheckers s' (log_lock m) (set_pc (pc m) t (Returned false))
                 (returns m ++ [(t, false)])
      | _, _ => mkCheckers s' (log_lock m) (set_pc (pc m) t (Returned false))
                  (returns m ++ [(t, false)])
      end
  | AtLock message =>
      match log_lock m with
      | None => mkCheckers s (Some t) (set_pc (pc m) t (AtTest message)) (returns m)
      | Some _ => m
      end
  | AtTest message =>
      if negb (time_hit_logged s)
      then mkCheckers s (log_lock m) (set_pc (pc m) t (AtLog message)) (returns m)
      else mkCheckers s (log_lock m) (set_pc (pc m) t AtRelease) (returns m)
  | AtLog message =>
      mkCheckers (add_log message s) (log_lock m) (set_pc (pc m) t AtSetLogged) (returns m)
  | AtSetLogged =>
      mkCheckers (set_time_hit_logged true s) (log_lock m) (set_pc (pc m) t AtSetEvent)
                 (returns m)
  | AtSetEvent =>
      mkCheckers (set_stop_event true s) (log_lock m) (set_pc (pc m) t AtRelease) (returns m)
  | AtRelease =>
      mkCheckers s None (set_pc (pc m) t (Returned true)) (returns m ++ [(t, true)])
  | Returned _ =>
      mkCheckers s (log_lock m) (set_pc (pc m) t AtEntry) (returns m)
  end.

(** the threads step as the schedule names them *)
Fixpoint check_run (E : Env) (sched : list nat) (m : Checkers) : Checkers :=
  match sched with
  | [] => m
  | t :: sched' => check_run E sched' (check_step E t m)
  end.

(** every thread about to enter the check, the lock free *)
Definition checkers_of (s : State) : Checkers :=
  mkCheckers s None (fun _ => AtEntry) [].

Definition is_limit_message (r : LogRecord) : bool :=
  match r with LogGlobalLimitExceeded _ _ => true | _ => false end.

(** how often "Global time limit exceeded" was logged *)
Definition limit_messages (l : list LogRecord) : nat :=
  List.length (filter is_limit_message l).

(** *** The invariant of the latch *)

Definition holds_lock (p : CheckPc) : bool :=
  match p with
  | AtTest _ | AtLog _ | AtSetLogged | AtSetEvent | AtRelease => true
  | _ => false
  end.

Definition message_ok (p : CheckPc) : bool :=
  match p with
  | AtLock msg | AtTest msg | AtLog msg => is_limit_message msg
  | _ => true
  end.

(** where a thread can be, by how far the one-shot latch has come:
    nothing logged; logged; logged and flagged; logged, flagged, event set *)
Definition pc_fits (count : nat) (flag stop : bool) (p : CheckPc) : bool :=
  match count, flag, stop, p with
  | O, false, false, (AtSetLogged | AtSetEvent | AtRelease) => false
  | O, false, false, _ => true
  | 1%nat, false, false, (AtTest _ | AtLog _ | AtSetEvent | AtRelease) => false
  | 1%nat, false, false, _ => true
  | 1%nat, true, false, (AtTest _ | AtLog _ | AtSetLogged | AtRelease) => false
  | 1%nat, true, false, _ => true
  | 1%nat, true, true, (AtLog _ | AtSetLogged | AtSetEvent) => false
  | 1%nat, true, true, _ => true
  | _, _, _, _ => false
  end.

Definition lock_needed (count : nat) (flag stop : bool) : bool :=
  match count, flag, stop with
  | 1%nat, false, false | 1%nat, true, false => true
  | _, _, _ => false
  end.

Definition check_inv (m : Checkers) : Prop :=
  let count := limit_messages (logger (shared m)) in
  let flag := time_hit_logged (shared m) in
  let stop := stop_event (shared m) in
  (forall t, holds_lock (pc m t) = true <-> log_lock m = Some t)
  /\ (forall t, message_ok (pc m t) = true)
  /\ (forall t, pc_fits count flag stop (pc m t) = true)
  /\ (lock_needed count flag stop = true -> log_lock m <> None)
  /\ (forall t, In (t, true) (returns m) -> stop = true).

(** once the deadline has passed, every check that comes back says so *)
Definition late (s0 : State) (m : Checkers) : Prop :=
  global_time_limit_minutes (shared m) = global_time_limit_minutes s0
  /\ scan_start_time (shared m) = scan_start_time s0
  /\ (clock s0 <= clock (shared m))%Q
  /\ (forall t b, In (t, b) (returns m) -> b = true).

(** the global deadline has passed *)
Definition deadline_passed (s : State) : Prop :=
  exists limit start,
    global_time_limit_minutes s = Some limit /\ scan_start_time s = Some start /\
    (limit < (clock s - start) / 60)%Q.

Definition steady (E : Env) : Prop := forall k, (0 <= elapse E k)%Q.

Fixpoint nondecreasing (stamps : list Q) : Prop :=
  match stamps with
  | t1 :: ((t2 :: _) as rest) => (t1 <= t2)%Q /\ nondecreasing rest
  | _ => True
  end.

(** the tag the three [except] clauses give a [requests] exception *)
Definition error_tag (e : RequestException) : string :=
  if is_Timeout e then "TIMEOUT"
  else if is_ConnectionError e then "CONNECTION_ERROR"
  else "ERROR".

(* ================================================================= *)
(** ** Sample worlds and configurations *)

(** every interaction takes a second, every request is answered 403 *)
Definition quiet_world : Env :=
  mkEnv (fun _ => 1%Q) (fun _ _ _ _ => Response 403 "Forbidden") (fun _ => 0%nat)
        (fun _ => []) (fun _ => false).

(** base URL [http://example.com], paths [["admin"]], methods [["GET"]],
    no header *)
Definition example_config : FuzzerStaticConfig :=
  mkStatic (Some "http://example.com") ["admin"] [] [] [] None [].

Definition example_runtime (threads : Z) : FuzzerRuntimeConfig :=
  mkRuntime None None (Some 30%Q) None threads None None (Some ["GET"]) (Some 100)
            false None.

Definition example_state (threads : Z) : State :=
  init example_config (example_runtime threads) ["Mozilla/5.0"] 1000%Q (fun _ => None).

(** no method on the command line, no method file, [max_methods = 2] *)
Definition capped_defaults : State :=
  init (mkStatic (Some "http://example.com") ["admin"] [] [] [] None [])
       (mkRuntime (Some 0) (Some 2) (Some 30%Q) None 1 None None None (Some 100) false None)
       ["Mozilla/5.0"] 1000%Q (fun _ => None).


(* ================================================================= *)
(** ** Frames: what a part of the engine leaves alone *)

Definition is_finished (r : LogRecord) : bool :=
  match r with LogFinishedURL _ _ => true | _ => false end.

(** how many targets were reported finished *)
Definition finished_targets (l : list LogRecord) : nat :=
  List.length (filter is_finished l).

(** the flag and the event of the latch go together *)
Definition latched (s : State) : Prop :=
  time_hit_logged s = true -> stop_event s = true.

(** what every part of the engine leaves alone: the run-time settings, the
    limits, the scan start and the files; the latch only closes, and the
    event is not set without the "Global time limit exceeded" line *)
Definition steady_run (s s' : State) : Prop :=
  runtime_config s' = runtime_config s
  /\ global_time_limit_minutes s' = global_time_limit_minutes s
  /\ per_url_time_limit_seconds s' = per_url_time_limit_seconds s
  /\ user_agents s' = user_agents s
  /\ files s' = files s
  /\ (latched s -> latched s')
  /\ (stop_event s = true -> stop_event s' = true)
  /\ (limit_messages (logger s) <= limit_messages (logger s'))%nat
  /\ (stop_event s' = true ->
      stop_event s = true \/ (limit_messages (logger s) < limit_messages (logger s'))%nat).

(** what the dispatch layer leaves alone on top of that: the static
    settings with the current base URL, the start time of the current
    target, and the count of finished targets *)
Definition framed (s s' : State) : Prop :=
  steady_run s s'
  /\ config s' = config s
  /\ current_url_start_time s' = current_url_start_time s
  /\ finished_targets (logger s') = finished_targets (logger s).

(** a computation whose final state is related to its initial state *)
Inductive Keeps (R : State -> State -> Prop) {A} (m : M A) : Prop :=
| keeps_intro : (forall s, R s (snd (m s))) -> Keeps R m.

Record frame_relation (R : State -> State -> Prop) : Prop := {
  frame_refl : forall s, R s s;
  frame_trans : forall s1 s2 s3, R s1 s2 -> R s2 s3 -> R s1 s3
}.

(** the state in which the processing of a target starts *)
Definition entered (E : Env) (base : string) (s : State) : State :=
  set_config (with_base_url (Some (Py.rstrip "/" base)) (config s))
    (set_current_url_start_time (Some (clock (advance E 0 s))) (advance E 0 s)).

Definition returned {A} (o : Outcome (list A)) : list A :=
  match o with Return r => r | Raise _ => [] end.

(** two targets, two paths in batches of one, thirty seconds per target *)
Definition two_targets (threads : Z) : State :=
  init (mkStatic None ["admin"; "login"] ["http://a.example/"; "http://b.example"]
                 [] [] None [])
       (mkRuntime None None (Some 30%Q) None threads None None (Some ["GET"]) (Some 1)
                  false (Some 30%Q))
       ["Mozilla/5.0"] 1000%Q (fun _ => None).

Definition is_per_url_record (r : LogRecord) : bool :=
  match r with LogPerUrlLimit => true | _ => false end.


(** targets whose processing raises: a zero batch size makes [range] fail *)
Definition zero_batch_state : State :=
  init (mkStatic (Some "http://fallback") ["admin"] ["http://a.example/"; "http://b.example"]
                 [] [] None [])
       (mkRuntime None None (Some 30%Q) None 1 None None None (Some 0) false None)
       ["Mozilla/5.0"] 1000%Q (fun _ => None).


(** the example scenario with an output file *)
Definition output_state : State :=
  init example_config
       (mkRuntime None None (Some 30%Q) None 1 (Some "out.txt") None (Some ["GET"])
                  (Some 100) false None)
       ["Mozilla/5.0"] 1000%Q (fun _ => None).

(** the lines [_finalize_results] keeps for the output file *)
Definition filtered (s : State) (results : list string) : list string :=
  match filter_status_code (runtime_config s) with
  | Some (c :: cs) => Configuration.filter_status results (c :: cs)
  | _ => results
  end.

Definition file_text (lines : list string) : string :=
  String.concat "" (map (fun r => r ++ Py.newline) lines).

(* ================================================================= *)
(** ** The result cap *)

(** nothing was sent *)
Definition same_sent (s s' : State) : Prop := sent s' = sent s.

Definition no_pending (pool : Pool) : Prop :=
  Forall (fun f => is_pending f = false) pool.

(** one target, 140 paths in batches of ten, the four built-in methods:
    fourteen dispatch calls of 720 requests each *)
Definition large_scan : State :=
  init (mkStatic (Some "http://example.com") (repeat "admin" 140) [] [] [] None [])
       (mkRuntime None None (Some 30000%Q) None 1 None None None (Some 10) false None)
       ["Mozilla/5.0"] 1000%Q (fun _ => None).

(** a sequential dispatch with no time limit *)
Definition capped_call : State :=
  init (mkStatic (Some "http://example.com") [] [] [] [] None [])
       (mkRuntime None None None None 1 None None None (Some 100) false None)
       ["Mozilla/5.0"] 1000%Q (fun _ => None).

Definition is_return {A} (o : Outcome A) : bool :=
  match o with Return _ => true | Raise _ => false end.


(* ================================================================= *)
(** ** The engine under another per-target time limit *)

Definition with_per_url_time_limit (limit : option Q) (r : FuzzerRuntimeConfig)
  : FuzzerRuntimeConfig :=
  mkRuntime (max_headers r) (max_methods r) (time r) (delay r) (num_threads r)
            (output_file r) (filter_status_code r) (method r) (path_batch_size r)
            (verify_ssl r) limit.

(** the same engine with another per-target time limit *)
Definition relimit (limit : option Q) (s : State) : State :=
  mkState (config s) (with_per_url_time_limit limit (runtime_config s)) (user_agents s)
    (time_hit_logged s) (stop_event s) (logged_count s) (global_time_limit_minutes s)
    limit (scan_start_time s) (current_url_start_time s) (_last_request_time s)
    (clock s) (events s) (logger s) (files s) (sent s).

(** [m1], run with the other limit, does what [m2] does with this one, as
    long as no target was entered *)
Definition alike_at (limit : option Q) {A} (s : State) (m1 m2 : M A) : Prop :=
  m1 (relimit limit s) = (fst (m2 s), relimit limit (snd (m2 s)))
  /\ current_url_start_time (snd (m2 s)) = None.

Inductive Alike (limit : option Q) {A} (m1 m2 : M A) : Prop :=
| alike_intro :
    (forall s, current_url_start_time s = None -> alike_at limit s m1 m2) ->
    Alike limit m1 m2.


(* ================================================================= *)
(** ** Requests sent and results returned *)

(** no request was sent and the cancellation flag is as it was *)
Definition unsent (s s' : State) : Prop :=
  stop_event s' = stop_event s /\ sent s' = sent s.

(** [m] sends at most [n] requests *)
Definition sends_at_most (n : nat) {A} (m : M A) : Prop :=
  forall s, (List.length (sent (snd (m s))) <= List.length (sent s) + n)%nat.

(** the futures whose task may still run *)
Definition open_count (pool : Pool) : nat :=
  List.length (filter (fun f => negb (done f)) pool).

Definition await_pool (a : Pool * list nat * option nat) : Pool := fst (fst a).

(** [m] works on a pool: every request it sends closes a future of [pool] *)
Definition pool_bounded {X} (proj : X -> Pool) (pool : Pool) (m : M X) : Prop :=
  forall s,
    match m s with
    | (Return r, s') =>
        (List.length (sent s') + open_count (proj r)
         <= List.length (sent s) + open_count pool)%nat
    | (Raise _, s') =>
        (List.length (sent s') <= List.length (sent s) + open_count pool)%nat
    end.

(** the URL and the method of a request *)
Definition target (t : string * string * Headers) : string * string :=
  (fst (fst t), snd (fst t)).

(** no per-target clock is running *)
Definition no_target_clock (s : State) : Prop :=
  per_url_time_limit_seconds s = None \/ current_url_start_time s = None.

(** a formatted result line *)
Definition is_result_line (r : string) : Prop := Py.contains " ---> " r = true.

(** the futures that finished hold a result line, or the empty string of a
    task that found the time limit passed *)
Definition pool_lines (pool : Pool) : Prop :=
  Forall (fun f => match fstate f with
                   | Finished (Return r) => r = "" \/ is_result_line r
                   | _ => True
                   end) pool.

(** what [m] returns, when it returns *)
Definition Yields {A} (P : A -> Prop) (m : M A) : Prop :=
  forall s a s', m s = (Return a, s') -> P a.

Definition lines_so_far (r : bool * (list string * Z)) : Prop :=
  Forall is_result_line (fst (snd r)).

Definition pool_of (pq : Pool * list nat) : Prop := pool_lines (fst pq).

Definition awaited (a : Pool * list nat * option nat) : Prop := pool_lines (fst (fst a)).

Definition collected (r : list string * Pool) : Prop := Forall is_result_line (fst r).

(** the paths of the rounds of the batch loop that start at [indices] *)
Definition batch_paths (B : Z) (paths : list string) (indices : list Z) : list (list string) :=
  map (fun i => Py.slice paths i (i + B)) indices.

(** the requests one target can take *)
Definition target_budget (s : State) : nat :=
  (Nat.max 1 (18 * List.length (path_file (config s)))
   * (List.length (_get_methods s) * List.length (_get_headers s)))%nat.

(** the lists the budget is made of are as they were *)
Definition same_plan (s s' : State) : Prop :=
  path_file (config s') = path_file (config s)
  /\ _get_methods s' = _get_methods s
  /\ _get_headers s' = _get_headers s.

(** the values [current] takes in a loop over [n] items *)
Definition counts (n : nat) : list Z := map Z.of_nat (seq 1 n).

(** the example scenario after the global limit was hit *)
Definition stopped_state : State := set_stop_event true (example_state 4).

(** the example scenario with a status filter *)
Definition filtering_state : State :=
  init example_config
       (mkRuntime None None (Some 30%Q) None 1 None (Some [IntCode 200; IntCode 403])
                  (Some ["GET"]) (Some 100) false None)
       ["Mozilla/5.0"] 1000%Q (fun _ => None).

(* ================================================================= *)
(** ** Start-up samples *)

(** a user-agent catalog of blank lines *)
Definition blank_catalog : Disk :=
  fun name =>
    if String.eqb name FILE then FileText (String Py.LF ("  " ++ String Py.LF ""))
    else FileNotFound.

(** a path file with blank lines, white space and three kinds of line break *)
Definition sample_disk : Disk :=
  fun name =>
    if String.eqb name "paths.txt"
    then FileText ("  admin " ++ String Py.CR (String Py.LF (String Py.LF
                     ("login" ++ String Py.CR (" " ++ String Py.LF "api/v1")))))
    else FileNotFound.

Definition header_disk : Disk :=
  fun name =>
    if String.eqb name "paths.txt" then FileText "admin"
    else if String.eqb name "headers.txt" then FileText "X-Forwarded-For: 127.0.0.1"
    else FileNotFound.

(** [-d example.com -pf paths.txt -hf headers.txt] *)
Definition header_args : Configuration.Self :=
  Configuration.mkSelf (Some "example.com") None None (Some "paths.txt") (Some "headers.txt").

Definition sample_urlparse (url : string) : Outcome (string * string) :=
  Return ("http", "example.com").

(** [c in s] for a character *)
Fixpoint has_char (c : ascii) (s : string) : bool :=
  match s with
  | EmptyString => false
  | String a s' => Ascii.eqb a c || has_char c s'
  end.

(** the disk as the engine leaves it *)
Definition disk_of (files : string -> option string) : Disk :=
  fun name => match files name with Some text => FileText text | None => FileNotFound end.

(** a line that comes back as it is: no line break in it, no white space
    around it, and not empty *)
Definition plain_line (r : string) : Prop :=
  has_char Py.LF r = false /\ has_char Py.CR r = false
  /\ Py.strip r = r /\ r <> "".

(** the dict a call of [parse_header] returns *)
Definition parsed (r : Startup Headers) : Headers :=
  match fst r with Loaded d => d | _ => [] end.

(** the command line names the file [p] *)
Definition named (o : option string) (p : string) : Prop :=
  o = Some p /\ Py.truthy_str p = true.


(* ################################################################# *)
(** * Properties *)

Ltac split_ifs :=
  repeat match goal with |- context [if ?b then _ else _] => destruct b end.

Lemma Qlt_bool_true a b : Py.Qlt_bool a b = true -> (a < b)%Q.
Proof.
  unfold Py.Qlt_bool. intros H. apply negb_true_iff in H.
  apply Qnot_le_lt. intros Hle. apply Qle_bool_iff in Hle. congruence.
Qed.

Lemma Qlt_bool_false a b : Py.Qlt_bool a b = false -> (b <= a)%Q.
Proof.
  unfold Py.Qlt_bool. intros H. apply negb_false_iff in H.
  now apply Qle_bool_iff.
Qed.

Lemma Qdiv60_le a b : (a <= b)%Q -> (a / 60 <= b / 60)%Q.
Proof.
  intros H. unfold Qdiv. apply Qmult_le_compat_r; [exact H|]. discriminate.
Qed.

(* ================================================================= *)
(** ** Python built-ins on samples *)

Example upper_admin : Py.upper "admin/v1" = "ADMIN/V1".
Proof. reflexivity. Qed.

Example rstrip_slashes : Py.rstrip "/" "http://a.b//" = "http://a.b".
Proof. reflexivity. Qed.

Example repr_dict_agent :
  Py.repr_dict [("User-Agent", "curl/8"); ("X-Original-URL", "/admin")]
  = "{'User-Agent': 'curl/8', 'X-Original-URL': '/admin'}".
Proof. reflexivity. Qed.

Example range0_batches : Py.range0 7 3 = [0; 3; 6].
Proof. reflexivity. Qed.

Example slice_to_negative : Py.slice_to [1; 2; 3] (-1) = [1; 2].
Proof. reflexivity. Qed.

Example filter_status_403 :
  Configuration.filter_status
    ["http://a/x ---> 200, GET, {}, 5 bytes"; "http://a/y ---> 403, GET, {}, 9 bytes";
     "http://a/z ---> 404, GET, {}, 0 bytes"] [IntCode 403]
  = ["http://a/y ---> 403, GET, {}, 9 bytes"].
Proof. reflexivity. Qed.

(* ================================================================= *)
(** ** Frame rules *)

(** compute the fields of an updated state, and nothing else *)
Ltac fields :=
  cbn [config runtime_config user_agents time_hit_logged stop_event logged_count
       global_time_limit_minutes per_url_time_limit_seconds scan_start_time
       current_url_start_time _last_request_time clock events logger files sent
       set_config set_time_hit_logged set_stop_event set_logged_count
       set_scan_start_time set_current_url_start_time set_last_request_time
       advance add_log set_files add_sent fst snd] in *.

Lemma steady_run_relation : frame_relation steady_run.
Proof.
  split.
  - intros s. unfold steady_run. repeat split; auto.
  - unfold steady_run.
    intros s1 s2 s3 (A1 & A2 & A3 & A4 & A5 & A6 & A7 & A8 & A9)
           (B1 & B2 & B3 & B4 & B5 & B6 & B7 & B8 & B9).
    repeat split; try congruence; auto; try lia.
    intros H3. destruct (B9 H3) as [H2|H2]; [|right; lia].
    destruct (A9 H2) as [H1|H1]; [left; exact H1|right; lia].
Qed.

Lemma framed_relation : frame_relation framed.
Proof.
  destruct steady_run_relation as [Hr Ht]. split.
  - intros s. unfold framed. repeat split; auto.
  - unfold framed. intros s1 s2 s3 (A0 & A1 & A2 & A3) (B0 & B1 & B2 & B3).
    split; [eapply Ht; eassumption|]. repeat split; congruence.
Qed.

Section KeepsRules.

Variable R : State -> State -> Prop.
Hypothesis HR : frame_relation R.

Lemma keeps_at {A} (m : M A) : Keeps R m -> forall s, R s (snd (m s)).
Proof. intros [H]. exact H. Qed.

Lemma keeps_ret {A} (a : A) : Keeps R (ret a).
Proof. constructor. intros s. apply (frame_refl R HR). Qed.

Lemma keeps_raise {A} e : Keeps R (@raise A e).
Proof. constructor. intros s. apply (frame_refl R HR). Qed.

Lemma keeps_get : Keeps R get.
Proof. constructor. intros s. apply (frame_refl R HR). Qed.

Lemma keeps_bind {A B} (m : M A) (k : A -> M B) :
  Keeps R m -> (forall a, Keeps R (k a)) -> Keeps R (bind m k).
Proof.
  intros [Hm] Hk. constructor. intros s. unfold bind. specialize (Hm s).
  destruct (m s) as [[a|e] s1]; cbn in *; [|exact Hm].
  eapply (frame_trans R HR); [exact Hm|apply keeps_at, Hk].
Qed.

Lemma keeps_try_except {A} (m : M A) h :
  Keeps R m -> (forall e, Keeps R (h e)) -> Keeps R (try_except m h).
Proof.
  intros [Hm] Hh. constructor. intros s. unfold try_except. specialize (Hm s).
  destruct (m s) as [[a|e] s1]; cbn in *; [exact Hm|].
  eapply (frame_trans R HR); [exact Hm|apply keeps_at, Hh].
Qed.

Lemma keeps_try_finally {A} (m : M A) c :
  Keeps R m -> Keeps R c -> Keeps R (try_finally m c).
Proof.
  intros [Hm] [Hc]. constructor. intros s. unfold try_finally. specialize (Hm s).
  destruct (m s) as [r s1]. specialize (Hc s1). cbn in *.
  destruct (c s1) as [[u|e] s2]; cbn in *; eapply (frame_trans R HR); eassumption.
Qed.

Lemma keeps_capture {A} (m : M A) : Keeps R m -> Keeps R (capture m).
Proof.
  intros [Hm]. constructor. intros s. unfold capture. specialize (Hm s).
  destruct (m s); exact Hm.
Qed.

Lemma keeps_modify f : (forall s, R s (f s)) -> Keeps R (modify f).
Proof. intros H. constructor. intros s. apply H. Qed.

End KeepsRules.

Lemma keeps_weaken (R R' : State -> State -> Prop) {A} (m : M A) :
  (forall s s', R s s' -> R' s s') -> Keeps R m -> Keeps R' m.
Proof. intros H [Hm]. constructor. intros s. apply H, Hm. Qed.

Lemma finished_targets_app l r :
  finished_targets (r :: l) = (finished_targets l + if is_finished r then 1 else 0)%nat.
Proof.
  unfold finished_targets. cbn [filter]. destruct (is_finished r); cbn [List.length]; lia.
Qed.

Lemma limit_messages_app l r :
  limit_messages (r :: l) = (limit_messages l + if is_limit_message r then 1 else 0)%nat.
Proof.
  unfold limit_messages. cbn [filter].
  destruct (is_limit_message r); cbn [List.length]; lia.
Qed.

Lemma steady_run_log r s : steady_run s (add_log r s).
Proof.
  unfold steady_run, latched. fields. rewrite limit_messages_app.
  repeat split; auto; try lia.
Qed.

Lemma framed_log r s : is_finished r = false -> framed s (add_log r s).
Proof.
  intros Hr. unfold framed. split; [apply steady_run_log|]. fields.
  rewrite finished_targets_app, Hr. repeat split; lia.
Qed.

Lemma framed_advance E q s : framed s (advance E q s).
Proof. unfold framed, steady_run, latched. fields. repeat split; auto. Qed.

Lemma framed_set_logged_count n s : framed s (set_logged_count n s).
Proof. unfold framed, steady_run, latched. fields. repeat split; auto. Qed.

Lemma framed_set_last_request_time t s : framed s (set_last_request_time t s).
Proof. unfold framed, steady_run, latched. fields. repeat split; auto. Qed.

Lemma framed_add_sent r s : framed s (add_sent r s).
Proof. unfold framed, steady_run, latched. fields. repeat split; auto. Qed.

Lemma keeps_log r : is_finished r = false -> Keeps framed (log r).
Proof. intros Hr. apply keeps_modify. intros s. apply framed_log, Hr. Qed.

Lemma keeps_time_time E : Keeps framed (time_time E).
Proof. constructor. intros s. apply framed_advance. Qed.

Lemma keeps_time_sleep E q : Keeps framed (time_sleep E q).
Proof. constructor. intros s. apply framed_advance. Qed.

Lemma keeps_random_choice E l : Keeps framed (random_choice E l).
Proof.
  constructor. intros s. unfold random_choice.
  destruct l; [apply (frame_refl _ framed_relation)|apply framed_advance].
Qed.

Lemma keeps_requests_request E m u h : Keeps framed (requests_request E m u h).
Proof.
  constructor. intros s. unfold requests_request.
  destruct (network _ _ _ _ _); cbn [snd];
    (eapply (frame_trans _ framed_relation); [apply framed_advance|apply framed_add_sent]).
Qed.

Lemma keeps_log_timeout_once msg :
  is_limit_message msg = true -> Keeps framed (_log_timeout_once msg).
Proof.
  intros Hm. constructor. intros s. unfold _log_timeout_once, bind, get, log, modify.
  destruct (time_hit_logged s) eqn:Hf; cbn [negb]; [apply (frame_refl _ framed_relation)|].
  assert (Hfin : is_finished msg = false) by (destruct msg; cbn in *; congruence).
  unfold framed, steady_run, latched. fields.
  rewrite finished_targets_app, limit_messages_app, Hm, Hfin.
  repeat split; auto; try lia.
Qed.

Create HintDb frames.
#[local] Hint Resolve framed_relation steady_run_relation : frames.
#[local] Hint Resolve keeps_ret keeps_raise keeps_get keeps_capture
  keeps_time_time keeps_time_sleep keeps_random_choice keeps_requests_request
  framed_advance framed_set_logged_count framed_set_last_request_time : frames.
#[local] Hint Extern 1 (is_finished _ = false) => reflexivity : frames.
#[local] Hint Extern 1 (is_limit_message _ = true) => reflexivity : frames.
#[local] Hint Resolve keeps_log keeps_log_timeout_once : frames.

(** take a computation apart along its binds and case distinctions *)
Ltac frames :=
  repeat first
    [ match goal with |- forall _, _ => intro end
    | solve [auto with frames]
    | apply keeps_bind; [solve [auto with frames]| |]
    | apply keeps_try_except; [solve [auto with frames]| |]
    | apply keeps_modify; solve [auto with frames]
    | match goal with
      | |- Keeps _ (match ?x with _ => _ end) => destruct x
      | |- Keeps _ (let (_, _) := ?x in _) => destruct x
      end ].

Lemma keeps_is_per_url_timeout E : Keeps framed (_is_per_url_timeout E).
Proof. unfold _is_per_url_timeout. frames. Qed.

Lemma keeps_is_timeout_global E : Keeps framed (_is_timeout_global E).
Proof. unfold _is_timeout_global. frames. Qed.
#[local] Hint Resolve keeps_is_per_url_timeout keeps_is_timeout_global : frames.

Lemma keeps_is_timeout E : Keeps framed (_is_timeout E).
Proof. unfold _is_timeout. frames. Qed.

Lemma keeps_log_global_timeout_remaining E : Keeps framed (_log_global_timeout_remaining E).
Proof. unfold _log_global_timeout_remaining. frames. Qed.

Lemma keeps_coordinate_delay E d : Keeps framed (_coordinate_delay E d).
Proof. unfold _coordinate_delay. frames. Qed.

Lemma keeps_log_progress c t : Keeps framed (_log_progress c t).
Proof. unfold _log_progress. frames. Qed.

Lemma keeps_log_progress_with_time E c t st :
  Keeps framed (_log_progress_with_time E c t st).
Proof. unfold _log_progress_with_time. frames. Qed.

Lemma keeps_request_and_log E u m h : Keeps framed (request_and_log E u m h).
Proof. unfold request_and_log. frames. Qed.

Lemma keeps_request_failed u m e : Keeps framed (request_failed u m e).
Proof. unfold request_failed. frames. Qed.
#[local] Hint Resolve keeps_is_timeout keeps_log_global_timeout_remaining
  keeps_coordinate_delay keeps_log_progress keeps_log_progress_with_time
  keeps_request_and_log keeps_request_failed : frames.

Lemma keeps_make_single_request E u m h b : Keeps framed (_make_single_request E u m h b).
Proof. unfold _make_single_request. frames. Qed.
#[local] Hint Resolve keeps_make_single_request : frames.

Lemma keeps_make_threaded_request E u m h : Keeps framed (_make_threaded_request E u m h).
Proof. unfold _make_threaded_request. frames. Qed.
#[local] Hint Resolve keeps_make_threaded_request : frames.

Lemma keeps_seq_headers E u m total st hs :
  forall acc, Keeps framed (seq_headers E u m total st hs acc).
Proof.
  induction hs as [|h hs IH]; intros acc; cbn [seq_headers]; frames.
Qed.
#[local] Hint Resolve keeps_seq_headers : frames.

Lemma keeps_seq_methods E u total st ms :
  forall acc, Keeps framed (seq_methods E u total st ms acc).
Proof.
  induction ms as [|m ms IH]; intros acc; cbn [seq_methods]; frames.
Qed.
#[local] Hint Resolve keeps_seq_methods : frames.

Lemma keeps_seq_urls E total st us :
  forall acc, Keeps framed (seq_urls E total st us acc).
Proof.
  induction us as [|u us IH]; intros acc; cbn [seq_urls]; frames.
Qed.
#[local] Hint Resolve keeps_seq_urls : frames.

Lemma keeps_run_sequential E urls : Keeps framed (_run_sequential E urls).
Proof. unfold _run_sequential. frames. Qed.

Lemma keeps_worker_finish E i pq : Keeps framed (worker_finish E i pq).
Proof. unfold worker_finish. frames. Qed.
#[local] Hint Resolve keeps_run_sequential keeps_worker_finish : frames.

Lemma keeps_worker_events E w evs : forall pq, Keeps framed (worker_events E w evs pq).
Proof.
  induction evs as [|ev evs IH]; intros pq; cbn [worker_events]; frames.
  unfold worker_event. frames.
Qed.
#[local] Hint Resolve keeps_worker_events : frames.

Lemma keeps_await E w pq : Keeps framed (await E w pq).
Proof. unfold await. frames. Qed.
#[local] Hint Resolve keeps_await : frames.

Lemma keeps_collect E n w :
  forall i total pq acc, Keeps framed (collect E n w i total pq acc).
Proof.
  induction n as [|n IH]; intros i total pq acc; cbn [collect]; frames.
Qed.

Lemma keeps_shutdown E idx : forall pool, Keeps framed (shutdown E idx pool).
Proof.
  induction idx as [|i idx IH]; intros pool; cbn [shutdown]; frames.
Qed.
#[local] Hint Resolve keeps_collect keeps_shutdown : frames.

Lemma keeps_run_fuzz_threading E urls : Keeps framed (_run_fuzz_threading E urls).
Proof. unfold _run_fuzz_threading, _collect_threaded_result. frames. Qed.

Lemma keeps_generate_all ps : forall acc, Keeps framed (generate_all ps acc).
Proof.
  induction ps as [|p ps IH]; intros acc; cbn [generate_all]; frames.
Qed.
#[local] Hint Resolve keeps_run_fuzz_threading keeps_generate_all : frames.

Lemma keeps_batch_loop E B idx : forall acc, Keeps framed (batch_loop E B idx acc).
Proof.
  induction idx as [|i idx IH]; intros acc; cbn [batch_loop]; frames.
Qed.
#[local] Hint Resolve keeps_batch_loop : frames.

Lemma keeps_process_paths_for_base_url E : Keeps framed (_process_paths_for_base_url E).
Proof. unfold _process_paths_for_base_url. frames. Qed.
#[local] Hint Resolve keeps_process_paths_for_base_url : frames.

(* ================================================================= *)
(** ** Variation generator *)

(** C2.  [_generate_url_variations] is a function of the base URL and the
    path alone: it appends the catalog to the list it is given and leaves
    the engine's state as it was; the catalog has 18 entries whatever the
    base URL and the path; two calls in a row give the two catalogs one
    after the other; and the scenario with base URL [http://example.com],
    paths [["admin"]], methods [["GET"]] and no header has 18 tasks, which a
    sequential run sends as 18 requests. *)
Theorem variation_catalog_is_fixed :
  (forall (s : State) (path : string) (all_urls : list string),
      _generate_url_variations path all_urls s
      = (Return (all_urls ++ variations (str_opt (base_url (config s))) path)%list, s))
  /\ (forall base path, List.length (variations base path) = 18%nat)
  /\ (forall s path1 path2,
         generate_all [path1; path2] [] s
         = (Return (variations (str_opt (base_url (config s))) path1
                    ++ variations (str_opt (base_url (config s))) path2)%list, s))
  /\ (forall threads,
         exists batch_urls,
           generate_all ["admin"] [] (example_state threads)
           = (Return batch_urls, example_state threads)
           /\ List.length (request_tasks (example_state threads) batch_urls) = 18%nat)
  /\ (exists results s',
         run quiet_world (example_state 1) = (Return results, s')
         /\ List.length results = 18%nat /\ List.length (sent s') = 18%nat).
Proof.
  repeat split.
  - intros. eexists. split; reflexivity.
  - eexists _, _. split; [vm_compute; reflexivity|]. split; reflexivity.
Qed.

(* ================================================================= *)
(** ** Method and header lists *)

(** C3, at the failing input.  With no method on the command line, no method
    file and [max_methods = 2], [_get_methods] returns the four built-in
    methods: the early return leaves before the limit.  [_get_headers], its
    sibling, does limit its built-in default (here to [max_headers = 0]
    entries). *)
Theorem default_methods_escape_max_methods :
  max_methods (runtime_config capped_defaults) = Some 2
  /\ _get_methods capped_defaults = ["GET"; "POST"; "PATCH"; "HEAD"]
  /\ max_headers (runtime_config capped_defaults) = Some 0
  /\ _get_headers capped_defaults = [].
Proof. repeat split. Qed.

(* ================================================================= *)
(** ** Request executor *)

Lemma coordinate_delay_returns E d s : fst (_coordinate_delay E d s) = Return tt.
Proof.
  unfold _coordinate_delay. destruct d as [d|]; [|reflexivity].
  destruct (Qle_bool d 0); [reflexivity|].
  unfold bind, time_time, get, time_sleep, modify. simpl.
  split_ifs; reflexivity.
Qed.

Lemma coordinate_delay_sent E d s : sent (snd (_coordinate_delay E d s)) = sent s.
Proof.
  unfold _coordinate_delay. destruct d as [d|]; [|reflexivity].
  destruct (Qle_bool d 0); [reflexivity|].
  unfold bind, time_time, get, time_sleep, modify. simpl.
  split_ifs; reflexivity.
Qed.

Lemma make_single_request_shape E s url method headers is_threaded :
  (Py.dict_mem "User-Agent" headers = true \/ user_agents s <> []) ->
  exists sent_headers s2,
    sent s2 = sent s /\
    _make_single_request E url method headers is_threaded s
    = try_except (request_and_log E url method sent_headers) (request_failed url method) s2.
Proof.
  intros HUA. unfold _make_single_request.
  unfold bind at 1. unfold get at 1. cbv beta iota.
  set (dly := if negb is_threaded then _ else ret tt).
  assert (Hd : forall s1, exists s2, dly s1 = (Return tt, s2) /\ sent s2 = sent s1).
  { intros s1. subst dly. destruct is_threaded; simpl.
    - exists s1. split; reflexivity.
    - rewrite (surjective_pairing (_coordinate_delay _ _ _)).
      rewrite coordinate_delay_returns. eexists. split; [reflexivity|].
      apply coordinate_delay_sent. }
  destruct (Py.dict_mem "User-Agent" headers) eqn:Hm; simpl.
  - destruct (Hd s) as (s2 & Hs2 & Hsent).
    exists headers, s2. split; [exact Hsent|].
    unfold bind at 1. unfold ret at 1. unfold bind at 1. rewrite Hs2. reflexivity.
  - destruct HUA as [HUA|HUA]; [discriminate|].
    destruct (user_agents s) as [|a l] eqn:Hua; [congruence|].
    destruct (Hd (advance E 0 s)) as (s2 & Hs2 & Hsent).
    eexists _, s2. split; [exact Hsent|].
    unfold bind at 1. unfold bind at 1. unfold random_choice. unfold ret at 1.
    unfold bind at 1. rewrite Hs2. reflexivity.
Qed.

(** C7.  A request that is sent (a [User-Agent] is given or can be drawn)
    ends in a result record whenever [requests.request] answers or raises a
    [requests] exception: a response gives the line with its status code,
    the headers sent and the length of its body; a [requests.Timeout] gives
    the [TIMEOUT] line, a [requests.ConnectionError] that is not a timeout
    the [CONNECTION_ERROR] line, any other [requests] exception the [ERROR]
    line, each with [{}] for the headers and [0 bytes].  Exactly one request
    is sent.  Only an exception foreign to [requests] leaves the executor. *)
Theorem request_failures_become_records :
  forall E s url method headers is_threaded,
    (Py.dict_mem "User-Agent" headers = true \/ user_agents s <> []) ->
    exists k sent_headers s',
      sent s' = (url, method, sent_headers) :: sent s /\
      match network E k url method sent_headers with
      | Response status_code content =>
          _make_single_request E url method headers is_threaded s
          = (Return (url ++ " ---> " ++ Py.str_int status_code ++ ", " ++ method ++ ", "
                         ++ Py.repr_dict sent_headers ++ ", "
                         ++ Py.str_len (String.length content) ++ " bytes"), s')
      | Failure (RequestsError e) =>
          _make_single_request E url method headers is_threaded s
          = (Return (url ++ " ---> " ++ error_tag e ++ ", " ++ method ++ ", {}, 0 bytes"), s')
      | Failure e =>
          _make_single_request E url method headers is_threaded s = (Raise e, s')
      end.
Proof.
  intros E s url method headers thr HUA.
  destruct (make_single_request_shape E s url method headers thr HUA)
    as (h1 & s2 & Hsent & ->).
  exists (events s2), h1.
  unfold try_except, request_and_log, bind, requests_request, get.
  destruct (network E (events s2) url method h1) as [st content|e].
  - match goal with |- context [if ?b then _ else _] => destruct b end;
      simpl; eexists; (split; [|reflexivity]); simpl; congruence.
  - destruct e as [r| | | | | |]; try (eexists; split; [|reflexivity]; simpl; congruence).
    unfold error_tag, request_failed.
    destruct (is_Timeout r); [|destruct (is_ConnectionError r)];
      simpl; eexists; (split; [|reflexivity]); simpl; congruence.
Qed.

Lemma request_failures_become_records_witness :
  exists k sent_headers s',
    sent s' = ("http://example.com/admin", "GET", sent_headers) :: sent (example_state 1) /\
    match network quiet_world k "http://example.com/admin" "GET" sent_headers with
    | Response status_code content =>
        _make_single_request quiet_world "http://example.com/admin" "GET" [] false
                             (example_state 1)
        = (Return ("http://example.com/admin" ++ " ---> " ++ Py.str_int status_code
                     ++ ", " ++ "GET" ++ ", " ++ Py.repr_dict sent_headers ++ ", "
                     ++ Py.str_len (String.length content) ++ " bytes"), s')
    | Failure (RequestsError e) =>
        _make_single_request quiet_world "http://example.com/admin" "GET" [] false
                             (example_state 1)
        = (Return ("http://example.com/admin" ++ " ---> " ++ error_tag e ++ ", "
                     ++ "GET" ++ ", {}, 0 bytes"), s')
    | Failure e =>
        _make_single_request quiet_world "http://example.com/admin" "GET" [] false
                             (example_state 1) = (Raise e, s')
    end.
Proof.
  apply (request_failures_become_records quiet_world (example_state 1)
           "http://example.com/admin" "GET" [] false).
  right. discriminate.
Defined.

(* ================================================================= *)
(** ** Rate limiter *)

(** what one call of the limiter does to the clock and the timestamp *)
Lemma coordinate_delay_step E d s :
  steady E -> (0 < d)%Q -> (0 < clock s)%Q -> (_last_request_time s <= clock s)%Q ->
  let s' := snd (_coordinate_delay E (Some d) s) in
  (clock s <= clock s')%Q /\
  (_last_request_time s' <= clock s')%Q /\
  (0 < _last_request_time s')%Q /\
  (_last_request_time s <= _last_request_time s')%Q /\
  ((0 < _last_request_time s)%Q -> (_last_request_time s + d <= _last_request_time s')%Q).
Proof.
  intros HE Hd Hc Hl. unfold _coordinate_delay.
  destruct (Qle_bool d 0) eqn:Hd0.
  { apply Qle_bool_iff in Hd0. lra. }
  unfold bind, time_time, get, time_sleep, modify. cbn -[Qplus Qminus Qle Qlt].
  pose proof (HE (events s)) as H0.
  pose proof (HE (S (events s))) as H1.
  pose proof (HE (S (S (events s)))) as H2.
  destruct (Py.Qlt_bool 0 (_last_request_time s)) eqn:Hpos.
  - apply Qlt_bool_true in Hpos.
    destruct (Py.Qlt_bool _ d) eqn:Hel; cbn -[Qplus Qminus Qle Qlt].
    + apply Qlt_bool_true in Hel. repeat split; try lra.
    + apply Qlt_bool_false in Hel. repeat split; try lra.
  - apply Qlt_bool_false in Hpos. cbn -[Qplus Qminus Qle Qlt]. repeat split; try lra.
Qed.

Lemma advance_clock E q s :
  steady E -> (0 <= q)%Q -> (clock s <= clock (advance E q s))%Q.
Proof. intros HE Hq. pose proof (HE (events s)). cbn -[Qplus Qle]. lra. Qed.

Lemma limiter_trace_head E d :
  steady E -> (0 < d)%Q ->
  forall steps s,
    calm steps -> (0 < clock s)%Q -> (_last_request_time s <= clock s)%Q ->
    spaced d (limiter_trace E d steps s) /\
    nondecreasing (_last_request_time s :: limiter_trace E d steps s) /\
    (forall t, hd_error (limiter_trace E d steps s) = Some t ->
               (0 < t)%Q /\
               ((0 < _last_request_time s)%Q -> (_last_request_time s + d <= t)%Q)).
Proof.
  intros HE Hd. induction steps as [|st steps IH]; intros s Hcalm Hc Hl.
  - cbn. repeat split; discriminate.
  - inversion Hcalm as [|? ? Hst Hrest]; subst. destruct st as [w|q].
    + cbn [limiter_trace].
      destruct (coordinate_delay_step E d s HE Hd Hc Hl) as (Hc' & Hl' & Hp' & Hm' & Hs').
      set (s' := snd (_coordinate_delay E (Some d) s)) in *.
      assert (Hc1 : (0 < clock s')%Q) by lra.
      destruct (IH s' Hrest Hc1 Hl') as (IHs & IHn & IHh).
      split; [|split].
      * destruct (limiter_trace E d steps s') as [|t2 rest] eqn:Htr; [exact I|].
        split; [|exact IHs]. destruct (IHh t2 eq_refl) as [_ H]. apply H. exact Hp'.
      * split; [exact Hm'|exact IHn].
      * intros t Ht. cbn in Ht. injection Ht as <-. split; [exact Hp'|exact Hs'].
    + cbn [limiter_trace].
      pose proof (advance_clock E q s HE Hst) as Hadv.
      assert (Hc1 : (0 < clock (advance E q s))%Q) by lra.
      assert (Hl1 : (_last_request_time (advance E q s) <= clock (advance E q s))%Q).
      { change (_last_request_time (advance E q s)) with (_last_request_time s). lra. }
      destruct (IH (advance E q s) Hrest Hc1 Hl1) as (IHs & IHn & IHh).
      split; [exact IHs|]. split; [exact IHn|exact IHh].
Qed.

(** C4.  Take any interleaving of calls [_coordinate_delay(d)], [d > 0],
    by any workers, with time going by in between, on a clock that does not
    run backwards and shows a positive time.  Then any two consecutive
    recorded request timestamps are at least [d] apart, the shared
    timestamp never decreases, and a call with the delay unset or [<= 0]
    changes nothing. *)
Theorem rate_limiter_spacing :
  forall E d steps s,
    steady E -> calm steps -> (0 < d)%Q ->
    (0 < clock s)%Q -> (_last_request_time s <= clock s)%Q ->
    spaced d (limiter_trace E d steps s)
    /\ nondecreasing (_last_request_time s :: limiter_trace E d steps s)
    /\ (forall delay,
           delay = None \/ (exists q, delay = Some q /\ (q <= 0)%Q) ->
           _coordinate_delay E delay s = (Return tt, s)).
Proof.
  intros E d steps s HE Hcalm Hd Hc Hl.
  destruct (limiter_trace_head E d HE Hd steps s Hcalm Hc Hl) as (H1 & H2 & _).
  split; [exact H1|]. split; [exact H2|].
  intros delay [->|(q & -> & Hq)]; [reflexivity|].
  unfold _coordinate_delay. apply Qle_bool_iff in Hq. rewrite Hq. reflexivity.
Qed.

Lemma rate_limiter_spacing_witness :
  spaced 5 (limiter_trace quiet_world 5
              [Coordinate 0; Coordinate 1; Elsewhere 2; Coordinate 0] (example_state 4))
  /\ nondecreasing
       (_last_request_time (example_state 4)
        :: limiter_trace quiet_world 5
             [Coordinate 0; Coordinate 1; Elsewhere 2; Coordinate 0] (example_state 4))
  /\ (forall delay,
         delay = None \/ (exists q, delay = Some q /\ (q <= 0)%Q) ->
         _coordinate_delay quiet_world delay (example_state 4)
         = (Return tt, example_state 4)).
Proof.
  apply (rate_limiter_spacing quiet_world 5
           [Coordinate 0; Coordinate 1; Elsewhere 2; Coordinate 0] (example_state 4)).
  - intros k. discriminate.
  - repeat constructor. discriminate.
  - reflexivity.
  - reflexivity.
  - discriminate.
Defined.

(* ================================================================= *)
(** ** The one-shot timeout latch *)

Section CheckInvariant.

Variable E : Env.

Lemma limit_messages_add r s :
  limit_messages (logger (add_log r s))
  = (limit_messages (logger s) + if is_limit_message r then 1 else 0)%nat.
Proof.
  cbn [logger add_log]. apply limit_messages_app.
Qed.

Lemma set_pc_same pcs t p : set_pc pcs t p t = p.
Proof. unfold set_pc. now rewrite Nat.eqb_refl. Qed.

Lemma set_pc_other pcs t p t' : t' <> t -> set_pc pcs t p t' = pcs t'.
Proof. unfold set_pc. intros H. apply Nat.eqb_neq in H. now rewrite H. Qed.

Lemma set_pc_all (P : CheckPc -> Prop) pcs t p :
  (forall t', P (pcs t')) -> P p -> forall t', P (set_pc pcs t p t').
Proof.
  intros H Hp t'. unfold set_pc. destruct (Nat.eqb t' t); auto.
Qed.

Lemma msg_after pcs t p :
  (forall t', message_ok (pcs t') = true) -> message_ok p = true ->
  forall t', message_ok (set_pc pcs t p t') = true.
Proof. intros H Hp. apply (set_pc_all (fun q => message_ok q = true)); assumption. Qed.

Lemma fits_kept pcs t p count flag stop :
  (forall t', pc_fits count flag stop (pcs t') = true) ->
  pc_fits count flag stop p = true ->
  forall t', pc_fits count flag stop (set_pc pcs t p t') = true.
Proof.
  intros H Hp. apply (set_pc_all (fun q => pc_fits count flag stop q = true)); assumption.
Qed.

Lemma check_inv_init s :
  time_hit_logged s = false -> stop_event s = false ->
  limit_messages (logger s) = 0%nat -> check_inv (checkers_of s).
Proof.
  intros Hf Hs Hc. unfold check_inv, checkers_of. cbn.
  rewrite Hf, Hs, Hc. cbn. repeat split; try discriminate; try contradiction.
Qed.

Lemma pc_fits_idle count flag stop p q :
  holds_lock p = false -> pc_fits count flag stop q = true ->
  pc_fits count flag stop p = true.
Proof.
  destruct count as [|[|c]], flag, stop, q; cbn; try discriminate;
    destruct p; cbn; congruence.
Qed.

(** a step that neither takes nor gives back the lock *)
Lemma lock_kept pcs (lk : option nat) t p :
  (forall t', holds_lock (pcs t') = true <-> lk = Some t') ->
  holds_lock p = holds_lock (pcs t) ->
  forall t', holds_lock (set_pc pcs t p t') = true <-> lk = Some t'.
Proof.
  intros H Hp t'. unfold set_pc. destruct (Nat.eqb_spec t' t) as [->|Hne].
  - rewrite Hp. apply H.
  - apply H.
Qed.

Lemma lock_taken pcs t p :
  (forall t', holds_lock (pcs t') = true <-> @None nat = Some t') ->
  holds_lock p = true ->
  forall t', holds_lock (set_pc pcs t p t') = true <-> Some t = Some t'.
Proof.
  intros H Hp t'. unfold set_pc. destruct (Nat.eqb_spec t' t) as [->|Hne].
  - rewrite Hp. tauto.
  - rewrite H. split; [discriminate|]. intros [= ->]. contradiction.
Qed.

Lemma lock_released pcs (lk : option nat) t p :
  (forall t', holds_lock (pcs t') = true <-> lk = Some t') ->
  holds_lock (pcs t) = true -> holds_lock p = false ->
  forall t', holds_lock (set_pc pcs t p t') = true <-> @None nat = Some t'.
Proof.
  intros H Ht Hp t'. unfold set_pc. destruct (Nat.eqb_spec t' t) as [->|Hne].
  - rewrite Hp. split; discriminate.
  - split; [|discriminate]. intros Ht'.
    apply H in Ht. apply H in Ht'. congruence.
Qed.

(** the other threads do not hold the lock when [t] does *)
Lemma others_idle pcs (lk : option nat) t :
  (forall t', holds_lock (pcs t') = true <-> lk = Some t') ->
  holds_lock (pcs t) = true ->
  forall t', t' <> t -> holds_lock (pcs t') = false.
Proof.
  intros H Ht t' Hne. destruct (holds_lock (pcs t')) eqn:Ht'; [|reflexivity].
  apply H in Ht. apply H in Ht'. congruence.
Qed.

Lemma fits_after pcs t p count flag stop q :
  (forall t', t' <> t -> holds_lock (pcs t') = false) ->
  pc_fits count flag stop p = true ->
  pc_fits count flag stop q = true ->
  forall t', pc_fits count flag stop (set_pc pcs t p t') = true.
Proof.
  intros Hidle Hp Hq t'. unfold set_pc. destruct (Nat.eqb_spec t' t) as [->|Hne].
  - exact Hp.
  - eapply pc_fits_idle; [apply Hidle; exact Hne|exact Hq].
Qed.

Lemma check_inv_step t m : check_inv m -> check_inv (check_step E t m).
Proof.
  intros (Hlock & Hmsg & Hfit & Hneed & Hret).
  pose proof (Hlock t) as Hlt. pose proof (Hmsg t) as Hmt. pose proof (Hfit t) as Hft.
  unfold check_inv, check_step.
  destruct (pc m t) eqn:Hpc; cbn [holds_lock message_ok] in *.
  - (* AtEntry *)
    destruct (stop_event (shared m)) eqn:Hstop;
      cbn [shared log_lock pc returns]; rewrite ?Hstop.
    + split; [apply lock_kept; [exact Hlock|now rewrite Hpc]|].
      split; [apply msg_after; [exact Hmsg|reflexivity]|].
      split; [apply fits_kept; [exact Hfit|]|].
      { revert Hft.
        destruct (limit_messages _) as [|[|c]], (time_hit_logged _); cbn; congruence. }
      split; [exact Hneed|]. intros; reflexivity.
    + split; [apply lock_kept; [exact Hlock|now rewrite Hpc]|].
      split; [apply msg_after; [exact Hmsg|reflexivity]|].
      split; [apply fits_kept; [exact Hfit|]|].
      { revert Hft.
        destruct (limit_messages _) as [|[|c]], (time_hit_logged _); cbn; congruence. }
      split; [exact Hneed|exact Hret].
  - (* AtClock *)
    assert (Hgo : forall p rs,
               holds_lock p = false -> message_ok p = true ->
               (forall t', In (t', true) rs -> In (t', true) (returns m)) ->
               check_inv (mkCheckers (advance E 0 (shared m)) (log_lock m)
                                     (set_pc (pc m) t p) rs)).
    { intros p rs Hp Hmp Hrs. unfold check_inv. cbn [shared log_lock pc returns].
      change (logger (advance E 0 (shared m))) with (logger (shared m)).
      change (time_hit_logged (advance E 0 (shared m))) with (time_hit_logged (shared m)).
      change (stop_event (advance E 0 (shared m))) with (stop_event (shared m)).
      split; [apply lock_kept; [exact Hlock|now rewrite Hpc]|].
      split; [apply msg_after; [exact Hmsg|exact Hmp]|].
      split; [apply fits_kept; [exact Hfit|eapply pc_fits_idle; eauto]|].
      split; [exact Hneed|]. intros t' Hin. eapply Hret, Hrs, Hin. }
    destruct (global_time_limit_minutes (shared m)) as [limit|];
      [destruct (scan_start_time (shared m)) as [start|]|].
    + destruct (Py.Qlt_bool _ _).
      * apply Hgo; auto.
      * apply Hgo; auto. intros t' Hin. apply in_app_or in Hin.
        destruct Hin as [Hin|[Hin|[]]]; [exact Hin|discriminate].
    + apply Hgo; auto. intros t' Hin. apply in_app_or in Hin.
      destruct Hin as [Hin|[Hin|[]]]; [exact Hin|discriminate].
    + apply Hgo; auto. intros t' Hin. apply in_app_or in Hin.
      destruct Hin as [Hin|[Hin|[]]]; [exact Hin|discriminate].
  - (* AtLock *)
    destruct (log_lock m) as [holder|] eqn:Hl.
    + unfold check_inv. rewrite Hl. repeat split; auto; apply Hlock.
    + cbn [shared log_lock pc returns].
      split; [apply lock_taken; auto|].
      split; [apply msg_after; [exact Hmsg|exact Hmt]|].
      split.
      { apply fits_kept; [exact Hfit|]. revert Hft Hneed.
        destruct (limit_messages _) as [|[|c]], (time_hit_logged _), (stop_event _);
          cbn; try congruence; intros _ Hn; exfalso; now apply Hn. }
      split; [discriminate|exact Hret].
  - (* AtTest *)
    pose proof (others_idle _ _ t Hlock) as Hidle. rewrite Hpc in Hidle.
    specialize (Hidle eq_refl).
    destruct (time_hit_logged (shared m)) eqn:Hflag; cbn [negb shared log_lock pc returns];
      rewrite ?Hflag.
    + split; [apply lock_kept; [exact Hlock|now rewrite Hpc]|].
      split; [apply msg_after; [exact Hmsg|reflexivity]|].
      split; [|split; [exact Hneed|exact Hret]].
      eapply fits_after; [exact Hidle| |exact Hft].
      revert Hft. destruct (limit_messages _) as [|[|c]], (stop_event _); cbn; congruence.
    + split; [apply lock_kept; [exact Hlock|now rewrite Hpc]|].
      split; [apply msg_after; [exact Hmsg|exact Hmt]|].
      split; [|split; [exact Hneed|exact Hret]].
      eapply fits_after; [exact Hidle| |exact Hft].
      revert Hft. destruct (limit_messages _) as [|[|c]], (stop_event _); cbn; congruence.
  - (* AtLog *)
    pose proof (others_idle _ _ t Hlock) as Hidle. rewrite Hpc in Hidle.
    specialize (Hidle eq_refl).
    cbn [shared log_lock pc returns]. rewrite limit_messages_add, Hmt.
    change (time_hit_logged (add_log message (shared m))) with (time_hit_logged (shared m)).
    change (stop_event (add_log message (shared m))) with (stop_event (shared m)).
    revert Hft Hfit Hneed Hret.
    destruct (limit_messages _) as [|[|c]], (time_hit_logged _), (stop_event _);
      cbn; try congruence; intros _ Hfit Hneed Hret.
    split; [apply lock_kept; [exact Hlock|now rewrite Hpc]|].
    split; [apply msg_after; [exact Hmsg|reflexivity]|].
    split; [|split; [|exact Hret]].
    + intros t'. unfold set_pc. destruct (Nat.eqb_spec t' t) as [->|Hne]; [reflexivity|].
      specialize (Hidle t' Hne). destruct (pc m t'); cbn in *; congruence.
    + intros _. destruct Hlt as [Hlt _]. rewrite (Hlt eq_refl). discriminate.
  - (* AtSetLogged *)
    pose proof (others_idle _ _ t Hlock) as Hidle. rewrite Hpc in Hidle.
    specialize (Hidle eq_refl).
    cbn [shared log_lock pc returns].
    change (logger (set_time_hit_logged true (shared m))) with (logger (shared m)).
    change (time_hit_logged (set_time_hit_logged true (shared m))) with true.
    change (stop_event (set_time_hit_logged true (shared m))) with (stop_event (shared m)).
    revert Hft Hfit Hneed Hret.
    destruct (limit_messages _) as [|[|c]], (time_hit_logged _), (stop_event _);
      cbn; try congruence; intros _ Hfit Hneed Hret.
    split; [apply lock_kept; [exact Hlock|now rewrite Hpc]|].
    split; [apply msg_after; [exact Hmsg|reflexivity]|].
    split; [|split; [exact Hneed|exact Hret]].
    intros t'. unfold set_pc. destruct (Nat.eqb_spec t' t) as [->|Hne]; [reflexivity|].
    specialize (Hidle t' Hne). destruct (pc m t'); cbn in *; congruence.
  - (* AtSetEvent *)
    pose proof (others_idle _ _ t Hlock) as Hidle. rewrite Hpc in Hidle.
    specialize (Hidle eq_refl).
    cbn [shared log_lock pc returns].
    change (logger (set_stop_event true (shared m))) with (logger (shared m)).
    change (time_hit_logged (set_stop_event true (shared m)))
      with (time_hit_logged (shared m)).
    change (stop_event (set_stop_event true (shared m))) with true.
    revert Hft Hfit Hneed Hret.
    destruct (limit_messages _) as [|[|c]], (time_hit_logged _), (stop_event _);
      cbn; try congruence; intros _ Hfit Hneed Hret.
    split; [apply lock_kept; [exact Hlock|now rewrite Hpc]|].
    split; [apply msg_after; [exact Hmsg|reflexivity]|].
    split; [|split; [discriminate|reflexivity]].
    intros t'. unfold set_pc. destruct (Nat.eqb_spec t' t) as [->|Hne]; [reflexivity|].
    specialize (Hidle t' Hne). destruct (pc m t'); cbn in *; congruence.
  - (* AtRelease *)
    pose proof (others_idle _ _ t Hlock) as Hidle. rewrite Hpc in Hidle.
    specialize (Hidle eq_refl).
    cbn [shared log_lock pc returns].
    split; [apply (lock_released _ (log_lock m)); [exact Hlock|now rewrite Hpc|reflexivity]|].
    split; [apply msg_after; [exact Hmsg|reflexivity]|].
    revert Hft Hfit Hneed Hret.
    destruct (limit_messages _) as [|[|c]], (time_hit_logged _), (stop_event _);
      cbn; try congruence; intros _ Hfit Hneed Hret.
    split; [|split; [discriminate|reflexivity]].
    apply (fits_kept _ _ _ 1%nat true true); [exact Hfit|reflexivity].
  - (* Returned *)
    cbn [shared log_lock pc returns].
    split; [apply lock_kept; [exact Hlock|now rewrite Hpc]|].
    split; [apply msg_after; [exact Hmsg|reflexivity]|].
    split; [|split; [exact Hneed|exact Hret]].
    apply fits_kept; [exact Hfit|]. eapply pc_fits_idle; [|exact Hft]. reflexivity.
Qed.

Lemma check_inv_run sched : forall m, check_inv m -> check_inv (check_run E sched m).
Proof.
  induction sched as [|t sched IH]; intros m Hm; [exact Hm|].
  cbn. apply IH, check_inv_step, Hm.
Qed.

(** the latch is monotone: no step clears the event *)
Lemma stop_event_step t m :
  stop_event (shared m) = true -> stop_event (shared (check_step E t m)) = true.
Proof.
  intros H. unfold check_step.
  destruct (pc m t); cbn; rewrite ?H; cbn; auto;
    repeat match goal with
           | |- context [match ?x with _ => _ end] => destruct x; cbn; auto
           end.
Qed.

Lemma stop_event_run sched :
  forall m, stop_event (shared m) = true ->
            stop_event (shared (check_run E sched m)) = true.
Proof.
  induction sched as [|t sched IH]; intros m Hm; [exact Hm|].
  cbn. apply IH, stop_event_step, Hm.
Qed.

Lemma late_step s0 t m :
  steady E -> deadline_passed s0 -> late s0 m -> late s0 (check_step E t m).
Proof.
  intros HE (limit & start & Hlim & Hst & Hlate) (Hl & Hs & Hc & Hr).
  assert (Hin : forall rs, (forall t b, In (t, b) rs -> b = true) ->
                           forall t' b, In (t', b) (rs ++ [(t, true)]) -> b = true).
  { intros rs Hrs t' b Hin. apply in_app_or in Hin.
    destruct Hin as [Hin|[Hin|[]]]; [eapply Hrs, Hin|congruence]. }
  unfold check_step.
  destruct (pc m t); try (repeat split; cbn; auto; fail).
  - destruct (stop_event _); repeat split; cbn; auto. apply Hin, Hr.
  - rewrite Hl, Hs, Hlim, Hst.
    pose proof (HE (events (shared m))) as H0.
    assert (Hc' : (clock s0 <= clock (advance E 0 (shared m)))%Q).
    { cbn -[Qplus Qle]. lra. }
    destruct (Py.Qlt_bool _ _) eqn:Hq.
    + repeat split; cbn -[Qplus Qle]; auto.
    + apply Qlt_bool_false in Hq. exfalso.
      assert (H4 : ((clock s0 - start) / 60
                    <= (clock (advance E 0 (shared m)) - start) / 60)%Q)
        by (apply Qdiv60_le; lra).
      lra.
  - destruct (log_lock m); repeat split; cbn; auto.
  - destruct (negb _); repeat split; cbn; auto.
  - repeat split; cbn; auto. apply Hin, Hr.
Qed.

Lemma late_run s0 sched :
  steady E -> deadline_passed s0 ->
  forall m, late s0 m -> late s0 (check_run E sched m).
Proof.
  intros HE Hd. induction sched as [|t sched IH]; intros m Hm; [exact Hm|].
  cbn. apply IH, late_step; assumption.
Qed.

Lemma check_inv_count m :
  check_inv m ->
  (limit_messages (logger (shared m)) <= 1)%nat
  /\ (stop_event (shared m) = true -> limit_messages (logger (shared m)) = 1%nat).
Proof.
  intros (_ & _ & Hfit & _). specialize (Hfit 0%nat). revert Hfit.
  destruct (limit_messages _) as [|[|c]], (time_hit_logged _), (stop_event _);
    cbn; try discriminate; intros _; split; auto; discriminate.
Qed.

End CheckInvariant.

(** run the innermost step of a machine given by its four parts *)
Ltac machine_step :=
  match goal with
  | |- context [check_step ?E ?t (mkCheckers ?a ?b ?c ?d)] =>
      let r := eval cbv beta iota zeta delta [check_step shared log_lock pc returns]
               in (check_step E t (mkCheckers a b c d)) in
      change (check_step E t (mkCheckers a b c d)) with r
  end;
  rewrite ?set_pc_same; cbv beta iota.

(** a thread that runs the check alone does what [_is_timeout_global] does *)
Lemma check_alone_agrees E s t :
  exists n b,
    let m := check_run E (repeat t n) (checkers_of s) in
    _is_timeout_global E s = (Return b, shared m)
    /\ log_lock m = None /\ returns m = [(t, b)] /\ pc m t = Returned b.
Proof.
  unfold _is_timeout_global, _log_timeout_once, bind, get, time_time, log, modify, ret.
  unfold checkers_of.
  destruct (stop_event s) eqn:Hstop.
  { exists 1%nat, true. cbn [repeat check_run]. machine_step. rewrite Hstop.
    cbn [shared log_lock pc returns app]. rewrite set_pc_same. repeat split. }
  destruct (global_time_limit_minutes s) as [limit|] eqn:Hlim.
  2: { exists 2%nat, false. cbn [repeat check_run].
       machine_step. rewrite Hstop. machine_step. rewrite Hlim.
       cbn [shared log_lock pc returns app]. rewrite set_pc_same. repeat split. }
  destruct (scan_start_time s) as [start|] eqn:Hstart.
  2: { exists 2%nat, false. cbn [repeat check_run].
       machine_step. rewrite Hstop. machine_step. rewrite Hlim, Hstart.
       cbn [shared log_lock pc returns app]. rewrite set_pc_same. repeat split. }
  cbv beta iota. fields.
  destruct (Py.Qlt_bool limit ((clock s + 0 + elapse E (events s) - start) / 60)) eqn:Hq.
  2: { exists 2%nat, false. cbn [repeat check_run].
       machine_step. rewrite Hstop. machine_step. rewrite Hlim, Hstart. fields.
       rewrite Hq. cbn [shared log_lock pc returns app]. rewrite set_pc_same.
       repeat split. }
  destruct (time_hit_logged s) eqn:Hflag; cbn [negb]; cbv beta iota.
  - exists 5%nat, true. cbn [repeat check_run].
    machine_step. rewrite Hstop. machine_step. rewrite Hlim, Hstart. fields. rewrite Hq.
    machine_step. machine_step. fields. rewrite Hflag. cbn [negb]. cbv iota.
    machine_step.
    cbn [shared log_lock pc returns app]. rewrite set_pc_same. repeat split.
  - exists 8%nat, true. cbn [repeat check_run].
    machine_step. rewrite Hstop. machine_step. rewrite Hlim, Hstart. fields. rewrite Hq.
    machine_step. machine_step. fields. rewrite Hflag. cbn [negb]. cbv iota.
    machine_step. machine_step. machine_step. machine_step.
    cbn [shared log_lock pc returns app]. rewrite set_pc_same. fields. repeat split.
Qed.

(** C5.  Let any number of threads run the global-timeout check any number
    of times, their steps interleaved in any order, from a state in which
    nothing was logged and the cancellation flag is clear.  Then "Global
    time limit exceeded" is logged at most once, and exactly once as soon as
    the flag is set; if the deadline had passed at the start, then as soon
    as one check has come back the message is there exactly once, the flag
    is set, and every check has answered [True]; and once set the flag stays
    set whatever steps follow. *)
Theorem global_limit_logged_once :
  forall E sched s,
    time_hit_logged s = false -> stop_event s = false ->
    limit_messages (logger s) = 0%nat ->
    let m := check_run E sched (checkers_of s) in
    (limit_messages (logger (shared m)) <= 1)%nat
    /\ (stop_event (shared m) = true -> limit_messages (logger (shared m)) = 1%nat)
    /\ (steady E -> deadline_passed s -> returns m <> [] ->
        limit_messages (logger (shared m)) = 1%nat
        /\ stop_event (shared m) = true
        /\ forall t b, In (t, b) (returns m) -> b = true)
    /\ (forall more,
           stop_event (shared m) = true ->
           stop_event (shared (check_run E more m)) = true).
Proof.
  intros E sched s Hf Hs Hc m.
  assert (Hinv : check_inv m).
  { apply check_inv_run, check_inv_init; assumption. }
  destruct (check_inv_count m Hinv) as [Hle Hone].
  split; [exact Hle|]. split; [exact Hone|]. split.
  - intros HE Hd Hne.
    assert (Hlate : late s m).
    { apply late_run; auto. repeat split; cbn; auto; try lra; contradiction. }
    destruct Hlate as (_ & _ & _ & Hr).
    destruct (returns m) as [|[t b] rs] eqn:Hrs; [congruence|].
    assert (b = true) by (eapply Hr; left; reflexivity). subst b.
    destruct Hinv as (_ & _ & _ & _ & Hret).
    assert (Hstop : stop_event (shared m) = true).
    { apply (Hret t). rewrite Hrs. left. reflexivity. }
    split; [apply Hone, Hstop|]. split; [exact Hstop|]. intros t' b' Hin.
    eapply (Hr t'). exact Hin.
  - intros more Hstop. apply stop_event_run, Hstop.
Qed.

(** the deadline of 30 minutes passed 200 seconds ago *)
Lemma global_limit_logged_once_witness :
  let s := set_scan_start_time (Some (-1000)%Q) (example_state 4) in
  let m := check_run quiet_world [0; 1; 1; 0; 2; 0; 1; 0; 0; 0; 1; 1; 2; 0; 1; 1]%nat
                     (checkers_of s) in
  (limit_messages (logger (shared m)) <= 1)%nat
  /\ (stop_event (shared m) = true -> limit_messages (logger (shared m)) = 1%nat)
  /\ (steady quiet_world -> deadline_passed s -> returns m <> [] ->
      limit_messages (logger (shared m)) = 1%nat
      /\ stop_event (shared m) = true
      /\ forall t b, In (t, b) (returns m) -> b = true)
  /\ (forall more,
         stop_event (shared m) = true ->
         stop_event (shared (check_run quiet_world more m)) = true).
Proof.
  apply (global_limit_logged_once quiet_world
           [0; 1; 1; 0; 2; 0; 1; 0; 0; 0; 1; 1; 2; 0; 1; 1]%nat
           (set_scan_start_time (Some (-1000)%Q) (example_state 4)));
    reflexivity.
Defined.

(* ================================================================= *)
(** ** The current target *)

Lemma url_iteration_unfold E base i s :
  url_iteration E base i s
  = try_finally (process_target E i) (set_base_url (base_url (config s)))
                (entered E base s).
Proof. reflexivity. Qed.

Lemma try_finally_restores {A} (body : M A) b s :
  base_url (config (snd (try_finally body (set_base_url b) s))) = b.
Proof.
  unfold try_finally. destruct (body s) as [r s']. reflexivity.
Qed.

Lemma url_iteration_restores E base i s :
  base_url (config (snd (url_iteration E base i s))) = base_url (config s).
Proof. rewrite url_iteration_unfold. apply try_finally_restores. Qed.

Lemma keeps_config {A} (m : M A) s : Keeps framed m -> config (snd (m s)) = config s.
Proof. intros [H]. apply H. Qed.

Lemma url_loop_restores E total urls :
  forall i acc s,
    base_url (config (snd (url_loop E total urls i acc s))) = base_url (config s).
Proof.
  induction urls as [|base urls IH]; intros i acc s; [reflexivity|].
  cbn [url_loop]. unfold bind at 1. unfold log at 1, modify at 1.
  unfold bind at 1.
  pose proof (keeps_config (_is_timeout_global E) (add_log (LogStartingURL i total base) s)
                           (keeps_is_timeout_global E)) as Hg.
  destruct (_is_timeout_global E _) as [[g|e] s1]; cbn [snd] in *.
  - destruct g.
    + cbn. rewrite Hg. reflexivity.
    + unfold bind at 1.
      pose proof (url_iteration_restores E base i s1) as Hit.
      destruct (url_iteration E base i s1) as [[r|e] s2]; cbn [snd] in *.
      * rewrite IH, Hit, Hg. reflexivity.
      * rewrite Hit, Hg. reflexivity.
  - rewrite Hg. reflexivity.
Qed.

(** C8.  One round of the multi-target loop makes the target the current
    base URL (its trailing slashes removed) before the target is processed,
    and puts the previous base URL back afterwards, whether the processing
    returns or raises; so the base URL after the whole loop is the one
    before it.  The last part is a round whose processing raises. *)
Theorem current_target_is_scoped :
  (forall E base i s,
      base_url (config (entered E base s)) = Some (Py.rstrip "/" base)
      /\ url_iteration E base i s
         = try_finally (process_target E i) (set_base_url (base_url (config s)))
                       (entered E base s)
      /\ base_url (config (snd (url_iteration E base i s))) = base_url (config s))
  /\ (forall E s,
         base_url (config (snd (_process_url_list E s))) = base_url (config s))
  /\ (fst (url_iteration quiet_world "http://a.example/" 1 zero_batch_state)
      = Raise ValueError
      /\ base_url (config (snd (url_iteration quiet_world "http://a.example/" 1
                                             zero_batch_state)))
         = Some "http://fallback").
Proof.
  split; [|split].
  - intros E base i s. split; [reflexivity|]. split; [apply url_iteration_unfold|].
    apply url_iteration_restores.
  - intros E s. unfold _process_url_list, bind, get. apply url_loop_restores.
  - split; reflexivity.
Qed.

(* ================================================================= *)
(** ** Per-target timeout *)

Lemma keeps_framed_at {A} (m : M A) s : Keeps framed m -> framed s (snd (m s)).
Proof. intros [H]. apply H. Qed.

Lemma is_per_url_timeout_clock_only E s :
  exists b, fst (_is_per_url_timeout E s) = Return b
            /\ (snd (_is_per_url_timeout E s) = s
                \/ snd (_is_per_url_timeout E s) = advance E 0 s).
Proof.
  unfold _is_per_url_timeout, bind, get, time_time, ret.
  destruct (per_url_time_limit_seconds s);
    [|eexists; split; [reflexivity|left; reflexivity]].
  destruct (current_url_start_time s);
    [|eexists; split; [reflexivity|left; reflexivity]].
  destruct (Py.Qlt_bool _ _); eexists; (split; [reflexivity|right; reflexivity]).
Qed.

Lemma is_timeout_global_true E s s' :
  latched s -> _is_timeout_global E s = (Return true, s') -> stop_event s' = true.
Proof.
  unfold latched, _is_timeout_global, _log_timeout_once, bind, get, time_time, ret,
    log, modify.
  intros Hl. destruct (stop_event s) eqn:Hs; cbv beta iota;
    [intros H; inversion H; subst; exact Hs|].
  fields.
  destruct (global_time_limit_minutes s); [|intros H; inversion H].
  destruct (scan_start_time s); [|intros H; inversion H].
  destruct (Py.Qlt_bool _ _); [|intros H; inversion H].
  cbv beta iota. fields.
  destruct (time_hit_logged s) eqn:Hf; cbn [negb]; cbv beta iota.
  - specialize (Hl eq_refl). discriminate.
  - intros H; inversion H. reflexivity.
Qed.

Lemma framed_steady s s' : framed s s' -> steady_run s s'.
Proof. intros H. apply H. Qed.

Lemma steady_run_trans s1 s2 s3 : steady_run s1 s2 -> steady_run s2 s3 -> steady_run s1 s3.
Proof. apply (frame_trans _ steady_run_relation). Qed.

Lemma process_target_finishes E i s r s' :
  process_target E i s = (Return r, s') ->
  steady_run s s'
  /\ finished_targets (logger s') = (finished_targets (logger s) + 1)%nat.
Proof.
  unfold process_target. unfold bind at 1. unfold get at 1.
  set (m := if Py.truthy_list _ then _ else _).
  assert (Hm : Keeps framed m).
  { subst m. destruct (Py.truthy_list _);
      [apply keeps_process_paths_for_base_url|apply keeps_run_fuzz_threading]. }
  pose proof (keeps_framed_at m s Hm) as Hf.
  unfold bind at 1. destruct (m s) as [[res|e] s1]; [|discriminate].
  cbn [snd] in Hf. unfold bind, log, modify, ret. intros [= <- <-].
  destruct Hf as (Hst & _ & _ & Hfin). split.
  - eapply steady_run_trans; [exact Hst|apply steady_run_log].
  - fields. rewrite finished_targets_app, Hfin. reflexivity.
Qed.

Lemma url_iteration_finishes E base i s r s' :
  url_iteration E base i s = (Return r, s') ->
  steady_run s s'
  /\ finished_targets (logger s') = (finished_targets (logger s) + 1)%nat.
Proof.
  rewrite url_iteration_unfold. unfold try_finally, set_base_url, modify.
  destruct (process_target E i (entered E base s)) as [[res|e] s2] eqn:Hp;
    [|intros H; inversion H].
  intros H; inversion H; subst. clear H.
  apply process_target_finishes in Hp. destruct Hp as [Hst Hfin].
  split.
  - unfold steady_run, latched, entered in *. fields. exact Hst.
  - unfold entered in *. fields. exact Hfin.
Qed.

Lemma url_loop_counts E total urls :
  forall i acc s results s',
    latched s ->
    url_loop E total urls i acc s = (Return results, s') ->
    steady_run s s'
    /\ (stop_event s' = false ->
        finished_targets (logger s')
        = (finished_targets (logger s) + List.length urls)%nat).
Proof.
  induction urls as [|base urls IH]; intros i acc s results s' Hl.
  - cbn. intros [= <- <-]. split; [apply (frame_refl _ steady_run_relation)|].
    intros _. lia.
  - cbn [url_loop]. unfold bind at 1. unfold log at 1, modify at 1.
    set (s0 := add_log (LogStartingURL i total base) s).
    assert (H0 : steady_run s s0) by apply steady_run_log.
    assert (F0 : finished_targets (logger s0) = finished_targets (logger s)).
    { subst s0. fields. rewrite finished_targets_app. cbn. lia. }
    unfold bind at 1.
    pose proof (keeps_framed_at _ s0 (keeps_is_timeout_global E)) as Hg.
    pose proof (is_timeout_global_true E s0) as Htrue.
    destruct (_is_timeout_global E s0) as [[g|e] s1]; [|discriminate].
    cbn [snd] in Hg. destruct Hg as (Hg & _ & _ & Fg).
    assert (H1 : steady_run s s1) by exact (steady_run_trans _ _ _ H0 Hg).
    assert (L1 : latched s1) by (apply H1, Hl).
    destruct g.
    + unfold bind, log, modify, ret. intros [= <- <-]. split.
      * eapply steady_run_trans; [exact H1|apply steady_run_log].
      * fields. intros Hstop. rewrite (Htrue s1) in Hstop; [discriminate| |reflexivity].
        apply H0, Hl.
    + unfold bind at 1.
      destruct (url_iteration E base i s1) as [[r|e] s2] eqn:Hit; [|discriminate].
      apply url_iteration_finishes in Hit. destruct Hit as [H2 F2].
      intros Hrest. apply IH in Hrest; [|apply H2, L1].
      destruct Hrest as [H3 F3]. split.
      * exact (steady_run_trans _ _ _ H1 (steady_run_trans _ _ _ H2 H3)).
      * intros Hstop. rewrite (F3 Hstop), F2, Fg, F0. cbn [List.length]. lia.
Qed.

(** C6.  The per-target check only reads the clock: it leaves the state,
    the cancellation flag included, as it was.  When it fires at the head of
    the batch loop, the loop ends with what it has collected and one
    "Per-URL time limit exceeded" line.  And the loop over the targets goes
    on: if the run over the target list comes back with the cancellation
    flag clear, every target of the list was processed to its "Finished"
    line, however many per-target limits expired on the way; if the flag is
    set at the end, it was set before or "Global time limit exceeded" was
    logged meanwhile. *)
Theorem per_target_timeout_is_local :
  forall E s results s',
    latched s ->
    _process_url_list E s = (Return results, s') ->
    (forall s0, exists b,
        fst (_is_per_url_timeout E s0) = Return b
        /\ (snd (_is_per_url_timeout E s0) = s0
            \/ snd (_is_per_url_timeout E s0) = advance E 0 s0))
    /\ (forall B i idx acc s0 s1 s2,
           _is_timeout_global E s0 = (Return false, s1) ->
           _is_per_url_timeout E s1 = (Return true, s2) ->
           batch_loop E B (i :: idx) acc s0 = (Return acc, add_log LogPerUrlLimit s2)
           /\ stop_event s2 = stop_event s1)
    /\ (stop_event s' = false ->
        finished_targets (logger s')
        = (finished_targets (logger s) + List.length (url_file (config s)))%nat)
    /\ (stop_event s' = true ->
        stop_event s = true
        \/ (limit_messages (logger s) < limit_messages (logger s'))%nat).
Proof.
  intros E s results s' Hl Hrun.
  split; [intros s0; apply is_per_url_timeout_clock_only|].
  split.
  - intros B i idx acc s0 s1 s2 Hg Hp. split.
    + cbn [batch_loop]. unfold bind at 1. rewrite Hg. unfold bind at 1. rewrite Hp.
      reflexivity.
    + destruct (is_per_url_timeout_clock_only E s1) as (b & _ & Hs).
      rewrite Hp in Hs. cbn [snd] in Hs. destruct Hs as [->| ->]; reflexivity.
  - unfold _process_url_list, bind, get in Hrun.
    apply url_loop_counts in Hrun; [|exact Hl]. destruct Hrun as [Hst Hfin].
    split; [exact Hfin|]. apply Hst.
Qed.

(** target A runs out of its thirty seconds in its first batch, and so does
    target B after it *)
Lemma per_target_timeout_is_local_witness :
  let s := two_targets 1 in
  let s' := snd (_process_url_list quiet_world s) in
  List.length (filter is_per_url_record (logger s')) = 2%nat
  /\ finished_targets (logger s')
     = (finished_targets (logger s) + List.length (url_file (config s)))%nat.
Proof.
  intros s s'. split; [vm_compute; reflexivity|].
  refine (proj1 (proj2 (proj2
            (per_target_timeout_is_local quiet_world s
               (returned (fst (_process_url_list quiet_world s))) s' _ _))) _).
  - intros H. discriminate H.
  - vm_compute. reflexivity.
  - vm_compute. reflexivity.
Defined.

(* ================================================================= *)
(** ** Results and the output file *)

Lemma steady_of_framed s s' : framed s s' -> steady_run s s'.
Proof. intros H. apply H. Qed.

Lemma keeps_steady_of_framed {A} (m : M A) : Keeps framed m -> Keeps steady_run m.
Proof. apply keeps_weaken. exact steady_of_framed. Qed.

Lemma keeps_steady_log r : Keeps steady_run (log r).
Proof. apply keeps_modify. intros s. apply steady_run_log. Qed.

Lemma steady_set_current_url_start_time t s :
  steady_run s (set_current_url_start_time t s).
Proof. unfold steady_run, latched. fields. repeat split; auto. Qed.

Lemma steady_set_config c s : steady_run s (set_config c s).
Proof. unfold steady_run, latched. fields. repeat split; auto. Qed.

Lemma steady_set_scan_start_time t s : steady_run s (set_scan_start_time t s).
Proof. unfold steady_run, latched. fields. repeat split; auto. Qed.

Lemma steady_set_logged_count n s : steady_run s (set_logged_count n s).
Proof. unfold steady_run, latched. fields. repeat split; auto. Qed.

Lemma keeps_steady_process_target E i : Keeps steady_run (process_target E i).
Proof.
  unfold process_target.
  apply keeps_bind; [exact steady_run_relation|apply keeps_get; exact steady_run_relation|].
  intros s. apply keeps_bind; [exact steady_run_relation| |].
  - apply keeps_steady_of_framed. destruct (Py.truthy_list _);
      [apply keeps_process_paths_for_base_url|apply keeps_run_fuzz_threading].
  - intros r. apply keeps_bind; [exact steady_run_relation|apply keeps_steady_log|].
    intros _. apply keeps_ret. exact steady_run_relation.
Qed.

Lemma keeps_steady_url_iteration E base i : Keeps steady_run (url_iteration E base i).
Proof.
  constructor. intros s. rewrite url_iteration_unfold.
  eapply steady_run_trans.
  2: { apply (keeps_at steady_run). apply keeps_try_finally;
         [exact steady_run_relation|apply keeps_steady_process_target|].
       apply keeps_modify. intros s0. apply steady_set_config. }
  unfold entered.
  eapply steady_run_trans; [|apply steady_set_config].
  eapply steady_run_trans; [|apply steady_set_current_url_start_time].
  apply steady_of_framed, framed_advance.
Qed.

Lemma keeps_steady_url_loop E total urls :
  forall i acc, Keeps steady_run (url_loop E total urls i acc).
Proof.
  induction urls as [|base urls IH]; intros i acc; cbn [url_loop].
  - apply keeps_ret. exact steady_run_relation.
  - apply keeps_bind; [exact steady_run_relation|apply keeps_steady_log|]. intros _.
    apply keeps_bind; [exact steady_run_relation| |].
    + apply keeps_steady_of_framed, keeps_is_timeout_global.
    + intros [|].
      * apply keeps_bind; [exact steady_run_relation|apply keeps_steady_log|].
        intros _. apply keeps_ret. exact steady_run_relation.
      * apply keeps_bind; [exact steady_run_relation|apply keeps_steady_url_iteration|].
        intros r. apply IH.
Qed.

Lemma keeps_steady_process_url_list E : Keeps steady_run (_process_url_list E).
Proof.
  unfold _process_url_list.
  apply keeps_bind; [exact steady_run_relation|apply keeps_get; exact steady_run_relation|].
  intros s. apply keeps_steady_url_loop.
Qed.

Lemma bind_returns {A B} (m : M A) (k : A -> M B) s a s1 :
  m s = (Return a, s1) -> bind m k s = k a s1.
Proof. intros H. unfold bind. rewrite H. reflexivity. Qed.

(** what [_finalize_results] returns and writes *)
Lemma finalize_results_spec E results s :
  exists s',
    _finalize_results E results s = (Return results, s')
    /\ (forall name, output_file (runtime_config s) <> Some name ->
                     files s' name = files s name)
    /\ (forall file,
           output_file (runtime_config s) = Some file ->
           Py.truthy_str file = true -> open_fails E file = false ->
           filtered s results <> [] ->
           files s' file = Some (file_text (filtered s results))).
Proof.
  unfold _finalize_results.
  set (s0 := add_log (LogTotalBeforeFiltering (List.length results)) s).
  rewrite (bind_returns (log (LogTotalBeforeFiltering (List.length results))) _ s tt s0
             eq_refl).
  rewrite (bind_returns get _ s0 s0 s0 eq_refl).
  change (runtime_config s0) with (runtime_config s).
  (* the filter *)
  match goal with |- context [bind ?m _ s0] => set (pick := m) end.
  assert (Hpick : exists s1, pick s0 = (Return (filtered s results), s1)
                             /\ files s1 = files s
                             /\ runtime_config s1 = runtime_config s).
  { subst pick. unfold filtered.
    destruct (filter_status_code (runtime_config s)) as [[|c cs]|];
      eexists; (split; [reflexivity|]); split; reflexivity. }
  destruct Hpick as (s1 & Hp & Hf1 & Hr1).
  rewrite (bind_returns pick _ s0 _ s1 Hp). clear Hp pick.
  (* the output file *)
  match goal with |- context [bind ?m _ s1] => set (out := m) end.
  assert (Hout : exists s2,
             out s1 = (Return tt, s2)
             /\ runtime_config s2 = runtime_config s
             /\ (forall name, output_file (runtime_config s) <> Some name ->
                              files s2 name = files s name)
             /\ (forall file,
                    output_file (runtime_config s) = Some file ->
                    Py.truthy_str file = true -> open_fails E file = false ->
                    filtered s results <> [] ->
                    files s2 file = Some (file_text (filtered s results)))).
  { subst out. destruct (output_file (runtime_config s)) as [file|];
      [|exists s1; repeat split; try assumption; try congruence; intros f [=]].
    destruct (Py.truthy_str file) eqn:Htf;
      [|exists s1; repeat split; try assumption; try congruence;
        intros f [= <-]; congruence].
    destruct (Py.truthy_list (filtered s results)) eqn:Hk.
    - unfold try_except, write_results, bind, raise, log, modify, ret.
      destruct (open_fails E file) eqn:Hopen; eexists; (split; [reflexivity|]); fields.
      + split; [exact Hr1|]. split; [intros; congruence|]. intros f [= <-]. congruence.
      + split; [exact Hr1|]. split.
        * intros name Hne. destruct (String.eqb_spec name file) as [->|Hn];
            [congruence|]. rewrite Hf1. reflexivity.
        * intros f [= <-] _ _ _. rewrite String.eqb_refl. reflexivity.
    - eexists. split; [reflexivity|]. fields. split; [exact Hr1|].
      split; [intros; congruence|]. intros f _ _ _ Hne.
      destruct (filtered s results); [congruence|discriminate]. }
  destruct Hout as (s2 & Ho & Hr2 & Hother & Hfile).
  rewrite (bind_returns out _ s1 tt s2 Ho). clear Ho out.
  rewrite (bind_returns get _ s2 s2 s2 eq_refl).
  unfold bind, log, modify, ret.
  destruct (_ && _); eexists; (split; [reflexivity|]); fields; split; assumption.
Qed.

Lemma keeps_steady_at {A} (m : M A) s : Keeps steady_run m -> steady_run s (snd (m s)).
Proof. intros [H]. apply H. Qed.

(** [run] is its preparation, the scan, and [_finalize_results] *)
Lemma run_cases E s :
  exists s1,
    runtime_config s1 = runtime_config s /\ files s1 = files s
    /\ ((exists e, run E s = (Raise e, s1))
        \/ (exists results, run E s = _finalize_results E results s1)).
Proof.
  unfold run.
  rewrite (bind_returns (modify (set_logged_count 0)) _ s tt _ eq_refl).
  rewrite (bind_returns (time_time E) _ _ _ _ eq_refl).
  rewrite (bind_returns (modify (set_scan_start_time _)) _ _ tt _ eq_refl).
  rewrite (bind_returns _display_configuration _ _ tt _ eq_refl).
  rewrite (bind_returns get _ _ _ _ eq_refl).
  match goal with |- context [bind ?m _ ?s0] => set (scan := m); set (pre := s0) end.
  assert (Hpre : runtime_config pre = runtime_config s /\ files pre = files s)
    by (split; reflexivity).
  assert (Hscan : Keeps steady_run scan).
  { subst scan. destruct (Py.truthy_list _); [apply keeps_steady_process_url_list|].
    destruct (_ && _).
    - apply keeps_steady_of_framed, keeps_process_paths_for_base_url.
    - apply keeps_ret, steady_run_relation. }
  pose proof (keeps_steady_at scan pre Hscan) as (Hrc & _ & _ & _ & Hfiles & _).
  destruct Hpre as [Hpre1 Hpre2]. rewrite Hpre1 in Hrc. rewrite Hpre2 in Hfiles.
  unfold bind. destruct (scan pre) as [[results|e] s1]; cbn [snd] in Hrc, Hfiles;
    exists s1; (split; [exact Hrc|split; [exact Hfiles|]]).
  - right. exists results. reflexivity.
  - left. exists e. reflexivity.
Qed.

(** C9, amended.  The run path writes a file itself: [run] calls
    [_finalize_results], which opens the configured output file and writes
    the status-filtered results, one per line, when that list is not empty
    and the file can be opened.  It writes no other file, and
    [_finalize_results] returns the list it was given, unfiltered. *)
Theorem run_writes_the_output_file :
  forall E s,
    (forall name,
        output_file (runtime_config s) <> Some name ->
        files (snd (run E s)) name = files s name)
    /\ (forall results file,
           fst (run E s) = Return results ->
           output_file (runtime_config s) = Some file ->
           Py.truthy_str file = true -> open_fails E file = false ->
           filtered s results <> [] ->
           files (snd (run E s)) file = Some (file_text (filtered s results)))
    /\ (forall results s0, fst (_finalize_results E results s0) = Return results).
Proof.
  intros E s. rewrite <- and_assoc. split.
  2: { intros results s0. destruct (finalize_results_spec E results s0) as (s' & -> & _).
       reflexivity. }
  destruct (run_cases E s) as (s1 & Hrc & Hfiles & [[e Hrun]|[res Hrun]]).
  - rewrite Hrun. cbn [fst snd]. split; [intros; congruence|]. intros ? ? [=].
  - destruct (finalize_results_spec E res s1) as (s' & Hfin & Hother & Hfile).
    rewrite Hrun, Hfin. cbn [fst snd]. rewrite Hrc in *. split.
    + intros name Hne. rewrite Hother, Hfiles; [reflexivity|exact Hne].
    + intros results file [= <-] Ho Ht Hop Hk.
      assert (Heq : filtered s1 res = filtered s res) by (unfold filtered; now rewrite Hrc).
      rewrite <- Heq. apply Hfile; try assumption. rewrite Heq. exact Hk.
Qed.

Lemma run_writes_the_output_file_witness :
  files (snd (run quiet_world output_state)) "out.txt"
  = Some (file_text (filtered output_state
                       (returned (fst (run quiet_world output_state))))).
Proof.
  apply (proj1 (proj2 (run_writes_the_output_file quiet_world output_state))).
  - vm_compute. reflexivity.
  - reflexivity.
  - reflexivity.
  - reflexivity.
  - vm_compute. discriminate.
Defined.

(** C9 as stated fails: the example scenario with [-o out.txt] has no file
    [out.txt] before the run and has one after it *)
Lemma run_creates_the_output_file :
  files output_state "out.txt" = None
  /\ files (snd (run quiet_world output_state)) "out.txt" <> None.
Proof.
  split; [reflexivity|]. vm_compute. discriminate.
Qed.

(* ================================================================= *)
(** ** The result cap *)

Lemma same_sent_relation : frame_relation same_sent.
Proof. split; unfold same_sent; congruence. Qed.

Lemma keeps_sent_log r : Keeps same_sent (log r).
Proof. apply keeps_modify. reflexivity. Qed.

Lemma keeps_sent_time_time E : Keeps same_sent (time_time E).
Proof. constructor. reflexivity. Qed.

Lemma keeps_sent_time_sleep E q : Keeps same_sent (time_sleep E q).
Proof. constructor. reflexivity. Qed.

Lemma keeps_sent_log_timeout_once msg : Keeps same_sent (_log_timeout_once msg).
Proof.
  constructor. intros s. unfold _log_timeout_once, bind, get, log, modify.
  destruct (time_hit_logged s); reflexivity.
Qed.

#[local] Hint Resolve same_sent_relation keeps_sent_log keeps_sent_time_time
  keeps_sent_time_sleep keeps_sent_log_timeout_once : frames.
#[local] Hint Extern 1 (same_sent _ _) => reflexivity : frames.

Lemma keeps_sent_is_per_url_timeout E : Keeps same_sent (_is_per_url_timeout E).
Proof. unfold _is_per_url_timeout. frames. Qed.

Lemma keeps_sent_is_timeout_global E : Keeps same_sent (_is_timeout_global E).
Proof. unfold _is_timeout_global. frames. Qed.
#[local] Hint Resolve keeps_sent_is_per_url_timeout keeps_sent_is_timeout_global : frames.

Lemma keeps_sent_is_timeout E : Keeps same_sent (_is_timeout E).
Proof. unfold _is_timeout. frames. Qed.

Lemma keeps_sent_log_global_timeout_remaining E :
  Keeps same_sent (_log_global_timeout_remaining E).
Proof. unfold _log_global_timeout_remaining. frames. Qed.

Lemma keeps_sent_log_progress_with_time E c t st :
  Keeps same_sent (_log_progress_with_time E c t st).
Proof. unfold _log_progress_with_time. frames. Qed.

Lemma keeps_sent_coordinate_delay E d : Keeps same_sent (_coordinate_delay E d).
Proof. unfold _coordinate_delay. frames. Qed.

Lemma truthy_append a b : Py.truthy_str b = true -> Py.truthy_str (a ++ b) = true.
Proof. intros H. destruct a; [exact H|reflexivity]. Qed.

(** a request that comes back with a record was sent once, and the record is
    not empty *)
Lemma make_single_request_sends_one E u m h b s result s' :
  _make_single_request E u m h b s = (Return result, s') ->
  List.length (sent s') = S (List.length (sent s))
  /\ Py.truthy_str result = true.
Proof.
  unfold _make_single_request.
  rewrite (bind_returns get _ s s s eq_refl).
  match goal with |- context [bind ?p _ s] => set (pick := p) end.
  assert (Hpick : forall r s1, pick s = (r, s1) -> sent s1 = sent s).
  { subst pick. destruct (negb _); [|intros r s1 [= _ <-]; reflexivity].
    unfold bind, random_choice, ret. destruct (user_agents s);
      intros r s1 [= _ <-]; reflexivity. }
  unfold bind at 1. specialize (Hpick (fst (pick s)) (snd (pick s)) (surjective_pairing _)).
  destruct (pick s) as [[h1|e] s1]; [|discriminate]. cbn [snd] in Hpick.
  match goal with |- context [bind ?d _ s1] => set (dly := d) end.
  assert (Hdly : Keeps same_sent dly).
  { subst dly. destruct (negb b); [apply keeps_sent_coordinate_delay|].
    apply keeps_ret, same_sent_relation. }
  pose proof (keeps_at same_sent dly Hdly s1) as Hd.
  unfold bind at 1. destruct (dly s1) as [[[]|e] s2]; [|discriminate].
  cbn [snd] in Hd. unfold same_sent in Hd. pose proof Hpick as Hp.
  unfold try_except, request_and_log, request_failed, requests_request, bind, get,
    modify, log, ret, raise.
  destruct (network E (events s2) u m h1) as [code content|[r| | | | | |]];
    try discriminate.
  - match goal with |- context [if ?c then _ else _] => destruct c end;
      intros [= <- <-]; fields; (split; [cbn [List.length]; rewrite Hd, Hp; reflexivity|apply truthy_append; reflexivity]).
  - destruct (is_Timeout r); [|destruct (is_ConnectionError r)];
      intros [= <- <-]; fields; (split; [cbn [List.length]; rewrite Hd, Hp; reflexivity|apply truthy_append; reflexivity]).
Qed.

Lemma bind_inv {A B} (m : M A) (k : A -> M B) s b s' :
  bind m k s = (Return b, s') ->
  exists a s1, m s = (Return a, s1) /\ k a s1 = (Return b, s').
Proof.
  unfold bind. destruct (m s) as [[a|e] s1]; [|discriminate].
  intros H. exists a, s1. split; [reflexivity|exact H].
Qed.

Lemma kept_sent {A} (m : M A) s r s1 :
  Keeps same_sent m -> m s = (r, s1) -> sent s1 = sent s.
Proof. intros [H] Hm. specialize (H s). rewrite Hm in H. exact H. Qed.

Lemma seq_headers_capped E u m total st hs :
  forall acc s returned res n s',
    Z.of_nat (List.length (fst acc)) < MAX_RESULT ->
    seq_headers E u m total st hs acc s = (Return (returned, (res, n)), s') ->
    Z.of_nat (List.length res) <= MAX_RESULT
    /\ (returned = false -> Z.of_nat (List.length res) < MAX_RESULT)
    /\ (List.length (sent s') + List.length (fst acc)
        = List.length (sent s) + List.length res)%nat.
Proof.
  induction hs as [|h hs IH]; intros [all cur] s returned res n s' Hcap;
    cbn [seq_headers fst] in *.
  - intros [= <- <- <- <-]. repeat split; lia.
  - intros H. apply bind_inv in H. destruct H as (t & s1 & Ht & H).
    apply (kept_sent _ _ _ _ (keeps_sent_is_timeout E)) in Ht.
    destruct t.
    { injection H as <- <- <- <-. rewrite Ht. repeat split; lia. }
    apply bind_inv in H. destruct H as ([] & s2 & Hp & H).
    apply (kept_sent _ _ _ _ (keeps_sent_log_progress_with_time E _ _ _)) in Hp.
    apply bind_inv in H. destruct H as ([] & s3 & Hr & H).
    assert (Hs3 : sent s3 = sent s2).
    { destruct (_ =? 0); [|injection Hr as <-; reflexivity].
      apply (kept_sent _ _ _ _ (keeps_sent_log_global_timeout_remaining E)) in Hr.
      exact Hr. }
    apply bind_inv in H. destruct H as (result & s4 & Hreq & H).
    apply make_single_request_sends_one in Hreq. destruct Hreq as [Hsent Htruthy].
    rewrite Htruthy in H.
    assert (Hlen : List.length (all ++ [result]) = S (List.length all))
      by (rewrite length_app; cbn; lia).
    destruct (Z.of_nat (List.length (all ++ [result])) >=? MAX_RESULT) eqn:Hfull.
    + unfold bind, log, modify, ret in H. injection H as <- <- <- <-. fields.
      rewrite Hlen in *. cbn [List.length]. rewrite Hsent, Hs3, Hp, Ht.
      split; [lia|]. split; [discriminate|lia].
    + apply IH in H; [|cbn [fst]; lia]. cbn [fst] in H.
      destruct H as (H1 & H2 & H3). split; [exact H1|]. split; [exact H2|].
      rewrite Hlen, Hsent, Hs3, Hp, Ht in H3. lia.
Qed.

Lemma seq_methods_capped E u total st ms :
  forall acc s returned res n s',
    Z.of_nat (List.length (fst acc)) < MAX_RESULT ->
    seq_methods E u total st ms acc s = (Return (returned, (res, n)), s') ->
    Z.of_nat (List.length res) <= MAX_RESULT
    /\ (returned = false -> Z.of_nat (List.length res) < MAX_RESULT)
    /\ (List.length (sent s') + List.length (fst acc)
        = List.length (sent s) + List.length res)%nat.
Proof.
  induction ms as [|m ms IH]; intros acc s returned res n s' Hcap;
    cbn [seq_methods] in *.
  - destruct acc as [all cur]. intros [= <- <- <- <-]. cbn [fst] in *. repeat split; lia.
  - intros H. apply bind_inv in H. destruct H as (t & s1 & Ht & H).
    apply (kept_sent _ _ _ _ (keeps_sent_is_timeout E)) in Ht.
    destruct t.
    { destruct acc as [all cur]. injection H as <- <- <- <-. cbn [fst] in *.
      rewrite Ht. repeat split; lia. }
    rewrite (bind_returns get _ s1 s1 s1 eq_refl) in H.
    apply bind_inv in H. destruct H as ([ret1 [res1 n1]] & s2 & Hh & H).
    apply seq_headers_capped in Hh; [|exact Hcap]. destruct Hh as (A1 & A2 & A3).
    destruct ret1.
    + injection H as <- <- <- <-. rewrite Ht in A3. split; [exact A1|].
      split; [discriminate|exact A3].
    + apply IH in H; [|cbn [fst]; apply A2; reflexivity]. cbn [fst] in H.
      destruct H as (H1 & H2 & H3). split; [exact H1|]. split; [exact H2|].
      rewrite Ht in A3. lia.
Qed.

Lemma seq_urls_capped E total st us :
  forall acc s returned res n s',
    Z.of_nat (List.length (fst acc)) < MAX_RESULT ->
    seq_urls E total st us acc s = (Return (returned, (res, n)), s') ->
    Z.of_nat (List.length res) <= MAX_RESULT
    /\ (returned = false -> Z.of_nat (List.length res) < MAX_RESULT)
    /\ (List.length (sent s') + List.length (fst acc)
        = List.length (sent s) + List.length res)%nat.
Proof.
  induction us as [|u us IH]; intros acc s returned res n s' Hcap;
    cbn [seq_urls] in *.
  - destruct acc as [all cur]. intros [= <- <- <- <-]. cbn [fst] in *. repeat split; lia.
  - intros H. apply bind_inv in H. destruct H as (t & s1 & Ht & H).
    apply (kept_sent _ _ _ _ (keeps_sent_is_timeout E)) in Ht.
    destruct t.
    { destruct acc as [all cur]. injection H as <- <- <- <-. cbn [fst] in *.
      rewrite Ht. repeat split; lia. }
    rewrite (bind_returns get _ s1 s1 s1 eq_refl) in H.
    apply bind_inv in H. destruct H as ([ret1 [res1 n1]] & s2 & Hh & H).
    apply seq_methods_capped in Hh; [|exact Hcap]. destruct Hh as (A1 & A2 & A3).
    destruct ret1.
    + injection H as <- <- <- <-. rewrite Ht in A3. split; [exact A1|].
      split; [discriminate|exact A3].
    + apply IH in H; [|cbn [fst]; apply A2; reflexivity]. cbn [fst] in H.
      destruct H as (H1 & H2 & H3). split; [exact H1|]. split; [exact H2|].
      rewrite Ht in A3. lia.
Qed.

Lemma run_sequential_capped E urls s results s' :
  _run_sequential E urls s = (Return results, s') ->
  Z.of_nat (List.length results) <= MAX_RESULT
  /\ (List.length (sent s') = List.length (sent s) + List.length results)%nat.
Proof.
  unfold _run_sequential. rewrite (bind_returns get _ s s s eq_refl).
  rewrite (bind_returns (time_time E) _ s _ _ eq_refl).
  intros H. apply bind_inv in H. destruct H as ([ret1 [res1 n1]] & s2 & Hh & H).
  injection H as <- <-. cbn [fst snd].
  apply seq_urls_capped in Hh; [|cbn; reflexivity]. cbn [fst List.length] in Hh.
  destruct Hh as (A1 & _ & A3). split; [exact A1|].
  change (sent (advance E 0 s)) with (sent s) in A3. lia.
Qed.

Lemma cancel_all_no_pending pool : no_pending (cancel_all pool).
Proof.
  unfold no_pending, cancel_all. apply Forall_map, Forall_forall. intros f _.
  unfold cancel, is_pending. destruct (fstate f) eqn:Hf; cbn; try rewrite Hf; reflexivity.
Qed.

Lemma no_pending_start_first pool : no_pending pool -> start_first pool = pool.
Proof.
  unfold no_pending. induction 1 as [|f pool Hf _ IH]; [reflexivity|].
  cbn. unfold is_pending in Hf. destruct (fstate f); try discriminate; now rewrite IH.
Qed.

Lemma no_pending_worker_start w pool : no_pending pool -> worker_start w pool = pool.
Proof.
  intros H. unfold worker_start. destruct (_ <? _); [|reflexivity].
  apply no_pending_start_first, H.
Qed.

Lemma collect_capped E n w :
  forall i total pq acc s res pool' s',
    Z.of_nat (List.length acc) < MAX_RESULT ->
    collect E n w i total pq acc s = (Return (res, pool'), s') ->
    Z.of_nat (List.length res) <= MAX_RESULT
    /\ (Z.of_nat (List.length res) >= MAX_RESULT -> no_pending pool').
Proof.
  induction n as [|n IH]; intros i total pq acc s res pool' s' Hcap; cbn [collect].
  - intros [= <- <- <-]. split; lia.
  - intros H. apply bind_inv in H. destruct H as ([[pool queue] next] & s1 & _ & H).
    destruct next as [future|]; [|injection H as <- <- <-; split; lia].
    apply bind_inv in H. destruct H as ([] & s2 & _ & H).
    apply bind_inv in H. destruct H as (t & s3 & _ & H).
    destruct t; [injection H as <- <- <-; split; lia|].
    destruct (future_result pool future) as [result|e].
    + destruct (Py.truthy_str result && Py.strip_nonempty result).
      * assert (Hlen : List.length (acc ++ [result]) = S (List.length acc))
          by (rewrite length_app; cbn; lia).
        destruct (Z.of_nat (List.length (acc ++ [result])) >=? MAX_RESULT) eqn:Hfull.
        -- apply bind_inv in H. destruct H as ([] & s4 & _ & H).
           injection H as <- <- <-. rewrite Hlen. split; [lia|].
           intros _. apply cancel_all_no_pending.
        -- apply IH in H; [exact H|lia].
      * apply IH in H; [exact H|exact Hcap].
    + destruct (request_of pool future) as [[url method] hdrs].
      destruct e; apply bind_inv in H; destruct H as ([] & s4 & _ & H);
        (apply IH in H; [exact H|exact Hcap]).
Qed.

(** C1, amended.  One dispatch call, sequential or concurrent, returns at
    most [MAX_RESULT] results.  A sequential call has sent exactly one
    request per result when it returns, so none after the cap.  In a
    concurrent call, collecting the result that reaches the cap cancels
    every future that has not started: no future is left pending, and a free
    worker finds nothing to start.  The cap is that of one call: the batch
    scheduler appends the lists of the calls. *)
Theorem dispatch_call_is_capped :
  forall E urls s results s',
    _run_fuzz_threading E urls s = (Return results, s') ->
    Z.of_nat (List.length results) <= MAX_RESULT
    /\ (num_threads (runtime_config s) <= 1 ->
        (List.length (sent s') = List.length (sent s) + List.length results)%nat)
    /\ (forall workers future_to_request s0 all_results pool s1,
           _collect_threaded_result E workers future_to_request s0
           = (Return (all_results, pool), s1) ->
           Z.of_nat (List.length all_results) >= MAX_RESULT ->
           no_pending pool /\ worker_start workers pool = pool).
Proof.
  intros E urls s results s' H. split; [|split].
  - unfold _run_fuzz_threading in H.
    rewrite (bind_returns (log _) _ s tt _ eq_refl) in H.
    rewrite (bind_returns get _ _ _ _ eq_refl) in H.
    fields. destruct (num_threads (runtime_config s) <=? 1).
    + apply run_sequential_capped in H. apply H.
    + rewrite (bind_returns (log _) _ _ tt _ eq_refl) in H.
      apply bind_inv in H. destruct H as ([res pool] & s1 & Hc & H).
      apply bind_inv in H. destruct H as (pool' & s2 & _ & H).
      injection H as <- <-. unfold _collect_threaded_result in Hc.
      apply collect_capped in Hc; [apply Hc|cbn; reflexivity].
  - intros Hseq. unfold _run_fuzz_threading in H.
    rewrite (bind_returns (log _) _ s tt _ eq_refl) in H.
    rewrite (bind_returns get _ _ _ _ eq_refl) in H.
    fields. apply Z.leb_le in Hseq. rewrite Hseq in H.
    apply run_sequential_capped in H. destruct H as [_ H].
    fields. exact H.
  - intros workers pool0 s0 res pool s1 Hc Hfull.
    unfold _collect_threaded_result in Hc.
    apply collect_capped in Hc; [|cbn; reflexivity]. destruct Hc as [_ Hc].
    split; [apply Hc, Hfull|apply no_pending_worker_start, Hc, Hfull].
Qed.

Lemma returned_eq {A} (o : Outcome (list A)) :
  is_return o = true -> o = Return (returned o).
Proof. destruct o; [reflexivity|discriminate]. Qed.

Lemma dispatch_call_is_capped_witness :
  let r := _run_fuzz_threading quiet_world (variations "http://example.com" "admin")
                               (example_state 1) in
  Z.of_nat (List.length (returned (fst r))) <= MAX_RESULT
  /\ (List.length (sent (snd r))
      = List.length (sent (example_state 1)) + List.length (returned (fst r)))%nat.
Proof.
  intros r.
  destruct (dispatch_call_is_capped quiet_world (variations "http://example.com" "admin")
              (example_state 1) (returned (fst r)) (snd r)) as (H1 & H2 & _).
  - rewrite <- returned_eq; [apply surjective_pairing|]. vm_compute. reflexivity.
  - split; [exact H1|]. apply H2. discriminate.
Defined.

(** the cap bites: of the 10004 requests of 2501 URLs and four methods, a
    sequential call sends 10000 and returns their 10000 records *)
Lemma sequential_call_stops_at_the_cap :
  let r := _run_fuzz_threading quiet_world (repeat "http://example.com/admin" 2501)
                               capped_call in
  (is_return (fst r)
   && (Z.of_nat (List.length (returned (fst r))) =? MAX_RESULT)
   && (Z.of_nat (List.length (sent (snd r))) =? MAX_RESULT)
   && (Z.of_nat (List.length (request_tasks capped_call
                                (repeat "http://example.com/admin" 2501))) =? 10004))%bool
  = true.
Proof. vm_compute. reflexivity. Qed.

(** C1 as stated fails: the fourteen dispatch calls of this scan return 720
    records each, none reaches the cap, and the run returns 10080 records *)
Lemma run_exceeds_max_result :
  let r := run quiet_world large_scan in
  (is_return (fst r)
   && (Z.of_nat (List.length (returned (fst r))) =? 10080)
   && (MAX_RESULT <? Z.of_nat (List.length (returned (fst r)))))%bool = true.
Proof. vm_compute. reflexivity. Qed.

(* ================================================================= *)
(** ** The per-target limit without targets *)

(** compute the fields of a state with another limit *)
Ltac refields :=
  cbn [config runtime_config user_agents time_hit_logged stop_event logged_count
       global_time_limit_minutes per_url_time_limit_seconds scan_start_time
       current_url_start_time _last_request_time clock events logger files sent
       set_config set_time_hit_logged set_stop_event set_logged_count
       set_scan_start_time set_current_url_start_time set_last_request_time
       advance add_log set_files add_sent fst snd
       relimit with_per_url_time_limit
       max_headers max_methods time delay num_threads output_file filter_status_code
       method path_batch_size verify_ssl per_url_time_limit] in *.

Section AlikeRules.

Variable limit : option Q.

Lemma alike_at_of {A} (m1 m2 : M A) s :
  Alike limit m1 m2 -> current_url_start_time s = None -> alike_at limit s m1 m2.
Proof. intros [H]. apply H. Qed.

Lemma alike_ret {A} (a : A) : Alike limit (ret a) (ret a).
Proof. constructor. intros s Hs. split; [reflexivity|exact Hs]. Qed.

Lemma alike_raise {A} e : Alike limit (@raise A e) (raise e).
Proof. constructor. intros s Hs. split; [reflexivity|exact Hs]. Qed.

Lemma alike_bind {A B} (m1 m2 : M A) (k1 k2 : A -> M B) :
  Alike limit m1 m2 -> (forall a, Alike limit (k1 a) (k2 a)) ->
  Alike limit (bind m1 k1) (bind m2 k2).
Proof.
  intros [Hm] Hk. constructor. intros s Hs. unfold alike_at, bind.
  destruct (Hm s Hs) as [H1 H2]. rewrite H1.
  destruct (m2 s) as [[a|e] s1]; cbn [fst snd] in *; [|split; [reflexivity|exact H2]].
  apply (alike_at_of _ _ s1 (Hk a) H2).
Qed.

(** after [get], the two sides go on from the two states *)
Lemma alike_get {B} (k1 k2 : State -> M B) :
  (forall s, current_url_start_time s = None ->
             alike_at limit s (k1 (relimit limit s)) (k2 s)) ->
  Alike limit (bind get k1) (bind get k2).
Proof.
  intros H. constructor. intros s Hs. unfold alike_at, bind, get. apply (H s Hs).
Qed.

Lemma alike_try_except {A} (m1 m2 : M A) h1 h2 :
  Alike limit m1 m2 -> (forall e, Alike limit (h1 e) (h2 e)) ->
  Alike limit (try_except m1 h1) (try_except m2 h2).
Proof.
  intros [Hm] Hh. constructor. intros s Hs. unfold alike_at, try_except.
  destruct (Hm s Hs) as [H1 H2]. rewrite H1.
  destruct (m2 s) as [[a|e] s1]; cbn [fst snd] in *; [split; [reflexivity|exact H2]|].
  apply (alike_at_of _ _ s1 (Hh e) H2).
Qed.

Lemma alike_capture {A} (m1 m2 : M A) :
  Alike limit m1 m2 -> Alike limit (capture m1) (capture m2).
Proof.
  intros [Hm]. constructor. intros s Hs. unfold alike_at, capture.
  destruct (Hm s Hs) as [H1 H2]. rewrite H1.
  destruct (m2 s) as [r s1]; cbn [fst snd] in *. split; [reflexivity|exact H2].
Qed.

Lemma alike_modify f :
  (forall s, f (relimit limit s) = relimit limit (f s)) ->
  (forall s, current_url_start_time (f s) = current_url_start_time s) ->
  Alike limit (modify f) (modify f).
Proof.
  intros H1 H2. constructor. intros s Hs. unfold alike_at, modify. cbn [fst snd].
  rewrite H1, H2. split; [reflexivity|exact Hs].
Qed.

Lemma alike_log r : Alike limit (log r) (log r).
Proof. apply alike_modify; reflexivity. Qed.

Lemma alike_time_time E : Alike limit (time_time E) (time_time E).
Proof. constructor. intros s Hs. split; [reflexivity|exact Hs]. Qed.

Lemma alike_time_sleep E q : Alike limit (time_sleep E q) (time_sleep E q).
Proof. apply alike_modify; reflexivity. Qed.

Lemma alike_random_choice E l : Alike limit (random_choice E l) (random_choice E l).
Proof.
  constructor. intros s Hs. unfold alike_at, random_choice.
  destruct l; (split; [reflexivity|exact Hs]).
Qed.

Lemma alike_requests_request E m u h :
  Alike limit (requests_request E m u h) (requests_request E m u h).
Proof.
  constructor. intros s Hs. unfold alike_at, requests_request. refields.
  destruct (network _ _ _ _ _); (split; [reflexivity|exact Hs]).
Qed.

End AlikeRules.

Create HintDb alike.
#[local] Hint Resolve alike_ret alike_raise alike_log alike_time_time alike_time_sleep
  alike_random_choice alike_requests_request alike_capture : alike.

Lemma get_methods_relimit limit s : _get_methods (relimit limit s) = _get_methods s.
Proof. reflexivity. Qed.

Lemma get_headers_relimit limit s : _get_headers (relimit limit s) = _get_headers s.
Proof. reflexivity. Qed.

Lemma request_tasks_relimit limit s urls :
  request_tasks (relimit limit s) urls = request_tasks s urls.
Proof. reflexivity. Qed.

(** take both sides apart together *)
Ltac alike :=
  repeat first
    [ match goal with |- forall _, _ => intro end
    | solve [auto with alike]
    | match goal with
      | |- Alike _ (bind get _) (bind get _) =>
          apply alike_get; intros ? ?; refields;
          rewrite ?get_methods_relimit, ?get_headers_relimit, ?request_tasks_relimit;
          apply alike_at_of; [|assumption]
      | |- Alike _ (bind _ _) (bind _ _) => apply alike_bind
      | |- Alike _ (try_except _ _) (try_except _ _) => apply alike_try_except
      | |- Alike _ (modify _) (modify _) => apply alike_modify; reflexivity
      | |- Alike _ (match ?x with _ => _ end) _ => destruct x
      | |- Alike _ (let (_, _) := ?x in _) _ => destruct x
      end ].

Lemma alike_is_per_url_timeout limit E :
  Alike limit (_is_per_url_timeout E) (_is_per_url_timeout E).
Proof.
  constructor. intros s Hs. unfold alike_at, _is_per_url_timeout, bind, get. refields.
  rewrite Hs. destruct limit, (per_url_time_limit_seconds s);
    (split; [reflexivity|exact Hs]).
Qed.

Lemma alike_log_timeout_once limit msg :
  Alike limit (_log_timeout_once msg) (_log_timeout_once msg).
Proof. unfold _log_timeout_once. alike. Qed.
#[local] Hint Resolve alike_is_per_url_timeout alike_log_timeout_once : alike.

Lemma alike_is_timeout_global limit E :
  Alike limit (_is_timeout_global E) (_is_timeout_global E).
Proof. unfold _is_timeout_global. alike. Qed.
#[local] Hint Resolve alike_is_timeout_global : alike.

Lemma alike_is_timeout limit E : Alike limit (_is_timeout E) (_is_timeout E).
Proof. unfold _is_timeout. alike. Qed.

Lemma alike_log_global_timeout_remaining limit E :
  Alike limit (_log_global_timeout_remaining E) (_log_global_timeout_remaining E).
Proof. unfold _log_global_timeout_remaining. alike. Qed.

Lemma alike_coordinate_delay limit E d :
  Alike limit (_coordinate_delay E d) (_coordinate_delay E d).
Proof. unfold _coordinate_delay. alike. Qed.

Lemma alike_log_progress limit c t : Alike limit (_log_progress c t) (_log_progress c t).
Proof. unfold _log_progress. alike. Qed.

Lemma alike_log_progress_with_time limit E c t st :
  Alike limit (_log_progress_with_time E c t st) (_log_progress_with_time E c t st).
Proof. unfold _log_progress_with_time. alike. Qed.

Lemma alike_request_and_log limit E u m h :
  Alike limit (request_and_log E u m h) (request_and_log E u m h).
Proof. unfold request_and_log. alike. Qed.

Lemma alike_request_failed limit u m e :
  Alike limit (request_failed u m e) (request_failed u m e).
Proof. unfold request_failed. alike. Qed.
#[local] Hint Resolve alike_is_timeout alike_log_global_timeout_remaining
  alike_coordinate_delay alike_log_progress alike_log_progress_with_time
  alike_request_and_log alike_request_failed : alike.

Lemma alike_make_single_request limit E u m h b :
  Alike limit (_make_single_request E u m h b) (_make_single_request E u m h b).
Proof. unfold _make_single_request. alike. Qed.
#[local] Hint Resolve alike_make_single_request : alike.

Lemma alike_make_threaded_request limit E u m h :
  Alike limit (_make_threaded_request E u m h) (_make_threaded_request E u m h).
Proof. unfold _make_threaded_request. alike. Qed.
#[local] Hint Resolve alike_make_threaded_request : alike.

Lemma alike_seq_headers limit E u m total st hs :
  forall acc, Alike limit (seq_headers E u m total st hs acc)
                          (seq_headers E u m total st hs acc).
Proof.
  induction hs as [|h hs IH]; intros acc; cbn [seq_headers]; alike.
Qed.
#[local] Hint Resolve alike_seq_headers : alike.

Lemma alike_seq_methods limit E u total st ms :
  forall acc, Alike limit (seq_methods E u total st ms acc)
                          (seq_methods E u total st ms acc).
Proof.
  induction ms as [|m ms IH]; intros acc; cbn [seq_methods]; alike.
Qed.
#[local] Hint Resolve alike_seq_methods : alike.

Lemma alike_seq_urls limit E total st us :
  forall acc, Alike limit (seq_urls E total st us acc) (seq_urls E total st us acc).
Proof.
  induction us as [|u us IH]; intros acc; cbn [seq_urls]; alike.
Qed.
#[local] Hint Resolve alike_seq_urls : alike.

Lemma alike_run_sequential limit E urls :
  Alike limit (_run_sequential E urls) (_run_sequential E urls).
Proof. unfold _run_sequential. alike. Qed.

Lemma alike_worker_finish limit E i pq :
  Alike limit (worker_finish E i pq) (worker_finish E i pq).
Proof. unfold worker_finish. alike. Qed.
#[local] Hint Resolve alike_run_sequential alike_worker_finish : alike.

Lemma alike_worker_events limit E w evs :
  forall pq, Alike limit (worker_events E w evs pq) (worker_events E w evs pq).
Proof.
  induction evs as [|ev evs IH]; intros pq; cbn [worker_events]; alike.
  unfold worker_event. alike.
Qed.
#[local] Hint Resolve alike_worker_events : alike.

Lemma alike_await limit E w pq : Alike limit (await E w pq) (await E w pq).
Proof. unfold await. alike. Qed.
#[local] Hint Resolve alike_await : alike.

Lemma alike_collect limit E n w :
  forall i total pq acc,
    Alike limit (collect E n w i total pq acc) (collect E n w i total pq acc).
Proof.
  induction n as [|n IH]; intros i total pq acc; cbn [collect]; alike.
Qed.

Lemma alike_shutdown limit E idx :
  forall pool, Alike limit (shutdown E idx pool) (shutdown E idx pool).
Proof.
  induction idx as [|i idx IH]; intros pool; cbn [shutdown]; alike.
Qed.
#[local] Hint Resolve alike_collect alike_shutdown : alike.

Lemma alike_run_fuzz_threading limit E urls :
  Alike limit (_run_fuzz_threading E urls) (_run_fuzz_threading E urls).
Proof. unfold _run_fuzz_threading, _collect_threaded_result. alike. Qed.

Lemma alike_generate_all limit ps :
  forall acc, Alike limit (generate_all ps acc) (generate_all ps acc).
Proof.
  induction ps as [|p ps IH]; intros acc; cbn [generate_all]; alike.
  unfold _generate_url_variations. alike.
Qed.
#[local] Hint Resolve alike_run_fuzz_threading alike_generate_all : alike.

Lemma alike_batch_loop limit E B idx :
  forall acc, Alike limit (batch_loop E B idx acc) (batch_loop E B idx acc).
Proof.
  induction idx as [|i idx IH]; intros acc; cbn [batch_loop]; alike.
Qed.
#[local] Hint Resolve alike_batch_loop : alike.

Lemma alike_process_paths_for_base_url limit E :
  Alike limit (_process_paths_for_base_url E) (_process_paths_for_base_url E).
Proof. unfold _process_paths_for_base_url. alike. Qed.
#[local] Hint Resolve alike_process_paths_for_base_url : alike.

Lemma alike_write_results limit E file results :
  Alike limit (write_results E file results) (write_results E file results).
Proof. unfold write_results. alike. Qed.
#[local] Hint Resolve alike_write_results : alike.

Lemma alike_finalize_results limit E results :
  Alike limit (_finalize_results E results) (_finalize_results E results).
Proof. unfold _finalize_results. alike. Qed.
#[local] Hint Resolve alike_finalize_results : alike.

Lemma is_per_url_timeout_without_target E s :
  current_url_start_time s = None -> _is_per_url_timeout E s = (Return false, s).
Proof.
  intros Hs. unfold _is_per_url_timeout, bind, get. rewrite Hs.
  destruct (per_url_time_limit_seconds s); reflexivity.
Qed.

Lemma relimit_init limit config runtime_config user_agents clock files :
  relimit limit (init config runtime_config user_agents clock files)
  = init config (with_per_url_time_limit limit runtime_config) user_agents clock files.
Proof. reflexivity. Qed.

(** C10.  With no URL list and no target entered yet, the per-target time
    limit does not matter: a run configured with any other limit returns
    the same outcome and ends in the same state, the limit itself apart;
    the start time of the current target is still unset when the run ends,
    and the per-target check answers [False] there without reading the
    clock. *)
Theorem per_target_limit_is_idle_without_targets :
  forall E s limit,
    url_file (config s) = [] ->
    current_url_start_time s = None ->
    run E (relimit limit s) = (fst (run E s), relimit limit (snd (run E s)))
    /\ current_url_start_time (snd (run E s)) = None
    /\ _is_per_url_timeout E (snd (run E s)) = (Return false, snd (run E s)).
Proof.
  intros E s limit Hurls Hs.
  assert (H : alike_at limit s (run E) (run E)).
  { unfold alike_at, run.
    rewrite (bind_returns (modify (set_logged_count 0)) _ s tt _ eq_refl).
    rewrite (bind_returns (time_time E) _ _ _ _ eq_refl).
    rewrite (bind_returns (modify (set_scan_start_time _)) _ _ tt _ eq_refl).
    rewrite (bind_returns _display_configuration _ _ tt _ eq_refl).
    rewrite (bind_returns get _ _ _ _ eq_refl).
    rewrite (bind_returns (modify (set_logged_count 0)) _ (relimit limit s) tt _ eq_refl).
    rewrite (bind_returns (time_time E) _ _ _ _ eq_refl).
    rewrite (bind_returns (modify (set_scan_start_time _)) _ _ tt _ eq_refl).
    rewrite (bind_returns _display_configuration _ _ tt _ eq_refl).
    rewrite (bind_returns get _ _ _ _ eq_refl).
    refields. rewrite Hurls. cbn [Py.truthy_list].
    match goal with
    | |- context [bind ?m _ (add_log LogBanner ?st)] =>
        apply (alike_at_of limit (bind m (_finalize_results E))
                 (bind m (_finalize_results E)) (add_log LogBanner st))
    end.
    - alike.
    - exact Hs. }
  destruct H as [H1 H2]. split; [exact H1|]. split; [exact H2|].
  apply is_per_url_timeout_without_target, H2.
Qed.

(** the example scenario with a per-target limit of one second *)
Lemma per_target_limit_is_idle_without_targets_witness :
  run quiet_world (relimit (Some 1%Q) (example_state 1))
  = (fst (run quiet_world (example_state 1)),
     relimit (Some 1%Q) (snd (run quiet_world (example_state 1))))
  /\ current_url_start_time (snd (run quiet_world (example_state 1))) = None
  /\ _is_per_url_timeout quiet_world (snd (run quiet_world (example_state 1)))
     = (Return false, snd (run quiet_world (example_state 1))).
Proof.
  apply (per_target_limit_is_idle_without_targets quiet_world (example_state 1)
           (Some 1%Q)); reflexivity.
Defined.

(* ================================================================= *)
(** ** The batches of a target *)

Lemma chunks_concat {A} (b : nat) : (0 < b)%nat ->
  forall m (l : list A), (List.length l <= m * b)%nat ->
    List.concat (map (fun k => firstn b (skipn (k * b) l)) (seq 0 m)) = l.
Proof.
  intros Hb. induction m as [|m IH]; intros l Hl.
  - destruct l; [reflexivity|cbn in Hl; lia].
  - rewrite <- cons_seq. cbn [map List.concat]. rewrite <- seq_shift, map_map.
    cbn [Nat.mul skipn].
    rewrite (map_ext _ (fun k => firstn b (skipn (k * b) (skipn b l)))).
    + rewrite IH; [apply firstn_skipn|]. rewrite length_skipn. lia.
    + intros k. rewrite skipn_skipn. f_equal. f_equal. lia.
Qed.

Lemma range0_spec n B : 0 < B ->
  Py.range0 (Z.of_nat n) B
  = map (fun k => Z.of_nat k * B) (seq 0 (Z.to_nat ((Z.of_nat n + B - 1) / B))).
Proof.
  intros HB. unfold Py.range0. destruct (B >? 0) eqn:H; [reflexivity|]. lia.
Qed.

Lemma slice_chunk {A} (l : list A) k B : 0 < B ->
  Py.slice l (Z.of_nat k * B) (Z.of_nat k * B + B)
  = firstn (Z.to_nat B) (skipn (k * Z.to_nat B) l).
Proof.
  intros HB. unfold Py.slice. f_equal; [f_equal; lia|]. f_equal. nia.
Qed.

Lemma chunk_count (n : nat) (B : Z) :
  0 < B ->
  let m := Z.to_nat ((Z.of_nat n + B - 1) / B) in
  (n <= m * Z.to_nat B)%nat /\ forall k, In k (seq 0 m) -> (k * Z.to_nat B < n)%nat.
Proof.
  intros HB m. subst m.
  pose proof (Z.div_mod (Z.of_nat n + B - 1) B ltac:(lia)) as Hd.
  pose proof (Z.mod_pos_bound (Z.of_nat n + B - 1) B HB) as Hr.
  assert (0 <= (Z.of_nat n + B - 1) / B) by (apply Z.div_pos; lia).
  split; [nia|]. intros k Hk. apply in_seq in Hk. nia.
Qed.

Lemma batches_as_chunks (paths : list string) (B : Z) :
  0 < B ->
  batch_paths B paths (Py.range0 (Z.of_nat (List.length paths)) B)
  = map (fun k => firstn (Z.to_nat B) (skipn (k * Z.to_nat B) paths))
        (seq 0 (Z.to_nat ((Z.of_nat (List.length paths) + B - 1) / B))).
Proof.
  intros HB. unfold batch_paths. rewrite range0_spec by exact HB. rewrite map_map.
  apply map_ext. intros k. apply slice_chunk, HB.
Qed.

Lemma batches_concat (paths : list string) (B : Z) :
  0 < B ->
  List.concat (batch_paths B paths (Py.range0 (Z.of_nat (List.length paths)) B)) = paths.
Proof.
  intros HB. rewrite batches_as_chunks by exact HB.
  apply chunks_concat; [lia|]. apply (chunk_count (List.length paths) B HB).
Qed.

(** X1.  With a positive batch size, the slices [path_file[i : i + BATCH_SIZE]]
    that [_process_paths_for_base_url] takes at [i] in
    [range(0, len(path_file), BATCH_SIZE)] are the path list cut into
    pieces: put end to end they are the list, so no path is left out and
    none is taken twice; no slice is empty, and none has more than
    [BATCH_SIZE] paths. *)
Theorem batches_cover_the_paths :
  forall (paths : list string) (B : Z),
    0 < B ->
    let batches := batch_paths B paths (Py.range0 (Z.of_nat (List.length paths)) B) in
    List.concat batches = paths
    /\ Forall (fun batch => batch <> [] /\ Z.of_nat (List.length batch) <= B) batches.
Proof.
  intros paths B HB batches. subst batches. split; [apply batches_concat, HB|].
  rewrite batches_as_chunks by exact HB.
  apply Forall_map, Forall_forall. intros k Hk.
  apply (chunk_count (List.length paths) B HB) in Hk. split.
  - intros H. apply (f_equal (@List.length _)) in H.
    rewrite length_firstn, length_skipn in H. cbn [List.length] in H. lia.
  - rewrite length_firstn. lia.
Qed.

Lemma batches_cover_the_paths_witness :
  let batches := batch_paths 2 ["admin"; "login"; "api"]
                   (Py.range0 (Z.of_nat (List.length ["admin"; "login"; "api"])) 2) in
  List.concat batches = ["admin"; "login"; "api"]
  /\ Forall (fun batch => batch <> [] /\ Z.of_nat (List.length batch) <= 2) batches.
Proof.
  apply (batches_cover_the_paths ["admin"; "login"; "api"] 2). lia.
Defined.


(* ================================================================= *)
(** ** The cancellation flag *)

Lemma is_timeout_global_stopped E s :
  stop_event s = true -> _is_timeout_global E s = (Return true, s).
Proof. intros H. unfold _is_timeout_global, bind, get, ret. rewrite H. reflexivity. Qed.

Lemma is_timeout_stopped E s :
  stop_event s = true -> _is_timeout E s = (Return true, s).
Proof.
  intros H. unfold _is_timeout.
  rewrite (bind_returns _ _ _ _ _ (is_timeout_global_stopped E s H)). reflexivity.
Qed.

Lemma make_threaded_request_stopped E u m h s :
  stop_event s = true -> _make_threaded_request E u m h s = (Return "", s).
Proof.
  intros H. unfold _make_threaded_request.
  rewrite (bind_returns _ _ _ _ _ (is_timeout_stopped E s H)). reflexivity.
Qed.

Lemma worker_finish_stopped E i pq s :
  stop_event s = true -> exists pq', worker_finish E i pq s = (Return pq', s).
Proof.
  intros H. unfold worker_finish. destruct pq as [pool queue].
  destruct (nth_error pool i) as [f|]; [|eexists; reflexivity].
  destruct (is_running f); [|eexists; reflexivity].
  destruct (request f) as [[u m] h]. unfold bind at 1, capture.
  rewrite (make_threaded_request_stopped E u m h s H). eexists. reflexivity.
Qed.

Lemma worker_events_stopped E w evs :
  forall pq s, stop_event s = true ->
    exists pq', worker_events E w evs pq s = (Return pq', s).
Proof.
  induction evs as [|ev evs IH]; intros pq s H; cbn [worker_events].
  - eexists. reflexivity.
  - assert (Hev : exists pq1, worker_event E w ev pq s = (Return pq1, s)).
    { destruct ev; cbn [worker_event]; [eexists; reflexivity|].
      apply worker_finish_stopped, H. }
    destruct Hev as [pq1 Hev]. rewrite (bind_returns _ _ _ _ _ Hev). apply IH, H.
Qed.

Lemma await_stopped E w pq s :
  stop_event s = true ->
  exists a, await E w pq s = (Return a, advance E 0 s).
Proof.
  intros H. unfold await.
  rewrite (bind_returns get _ s s s eq_refl).
  rewrite (bind_returns (modify (advance E 0)) _ s tt _ eq_refl).
  assert (H1 : stop_event (advance E 0 s) = true) by exact H.
  destruct (worker_events_stopped E w (schedule E (events s)) pq _ H1) as [pq1 Hev].
  rewrite (bind_returns _ _ _ _ _ Hev).
  destruct (snd pq1) as [|j queue]; [|eexists; reflexivity].
  destruct (first_index is_running (fst pq1) 0) as [j|].
  - match goal with |- context [worker_finish E j ?a] =>
      destruct (worker_finish_stopped E j a _ H1) as [pq2 Hf] end.
    rewrite (bind_returns _ _ _ _ _ Hf). eexists. reflexivity.
  - destruct (first_index is_pending (fst pq1) 0) as [j|]; [|eexists; reflexivity].
    match goal with |- context [worker_finish E j ?a] =>
      destruct (worker_finish_stopped E j a _ H1) as [pq2 Hf] end.
    rewrite (bind_returns _ _ _ _ _ Hf). eexists. reflexivity.
Qed.

Lemma log_progress_cases c t s :
  _log_progress c t s = (Return tt, s)
  \/ _log_progress c t s = (Return tt, add_log (LogProgress c t) s).
Proof.
  unfold _log_progress. destruct (t >? 10); [|left; reflexivity].
  destruct (_ || _); [right|left]; reflexivity.
Qed.

Lemma collect_stopped E n w i total pq acc s :
  stop_event s = true ->
  exists pool' s',
    collect E n w i total pq acc s = (Return (acc, pool'), s')
    /\ stop_event s' = true /\ sent s' = sent s.
Proof.
  intros H. destruct n as [|n]; cbn [collect].
  - eexists _, _. split; [reflexivity|]. split; [exact H|reflexivity].
  - destruct (await_stopped E w pq s H) as [[[pool queue] next] Ha].
    rewrite (bind_returns _ _ _ _ _ Ha).
    destruct next as [future|].
    2: { eexists _, _. split; [reflexivity|]. split; [exact H|reflexivity]. }
    destruct (log_progress_cases i total (advance E 0 s)) as [Hp|Hp];
      rewrite (bind_returns _ _ _ _ _ Hp);
      [rewrite (bind_returns _ _ _ _ _ (is_timeout_stopped E (advance E 0 s) H))
      |rewrite (bind_returns _ _ _ _ _
                  (is_timeout_stopped E (add_log (LogProgress i total) (advance E 0 s)) H))];
      eexists _, _; (split; [reflexivity|]); (split; [exact H|reflexivity]).
Qed.

Lemma shutdown_stopped E idx :
  forall pool s, stop_event s = true ->
    exists pool', shutdown E idx pool s = (Return pool', s).
Proof.
  induction idx as [|i idx IH]; intros pool s H; cbn [shutdown].
  - eexists. reflexivity.
  - destruct (nth_error pool i) as [f|]; [|apply IH, H].
    destruct (fstate f); try (apply IH, H).
    + destruct (worker_finish_stopped E i (set_nth pool i (mkFuture (request f) Running), [])
                  s H) as [pq Hf].
      rewrite (bind_returns _ _ _ _ _ Hf). apply IH, H.
    + destruct (worker_finish_stopped E i (set_nth pool i (mkFuture (request f) Running), [])
                  s H) as [pq Hf].
      rewrite (bind_returns _ _ _ _ _ Hf). apply IH, H.
Qed.

Lemma run_sequential_stopped E urls s :
  stop_event s = true -> _run_sequential E urls s = (Return [], advance E 0 s).
Proof.
  intros H. unfold _run_sequential.
  rewrite (bind_returns get _ s s s eq_refl).
  rewrite (bind_returns (time_time E) _ s _ _ eq_refl).
  assert (H1 : stop_event (advance E 0 s) = true) by exact H.
  destruct urls as [|u urls]; cbn [seq_urls]; [reflexivity|].
  unfold bind at 1. unfold bind at 1.
  rewrite (is_timeout_stopped E _ H1). reflexivity.
Qed.

Lemma run_fuzz_threading_stopped E urls s :
  stop_event s = true ->
  exists s', _run_fuzz_threading E urls s = (Return [], s')
             /\ stop_event s' = true /\ sent s' = sent s.
Proof.
  intros H. unfold _run_fuzz_threading.
  rewrite (bind_returns (log _) _ s tt _ eq_refl).
  rewrite (bind_returns get _ _ _ _ eq_refl).
  change (runtime_config (add_log _ s)) with (runtime_config s).
  destruct (num_threads (runtime_config s) <=? 1).
  - rewrite run_sequential_stopped by exact H. eexists. split; [reflexivity|].
    split; [exact H|reflexivity].
  - rewrite (bind_returns (log _) _ _ tt _ eq_refl).
    unfold _collect_threaded_result.
    match goal with |- context [collect E ?n ?w ?i ?t ?pq ?acc] =>
      destruct (collect_stopped E n w i t pq acc
                  (add_log (LogUsingThreads (num_threads (runtime_config s)))
                     (add_log (LogStartThreading (List.length urls)) s)) H)
        as (pool' & s1 & Hc & Hs1 & Hsent)
    end.
    rewrite (bind_returns _ _ _ _ _ Hc).
    destruct (shutdown_stopped E (seq 0 (List.length pool')) pool' s1 Hs1) as [pool2 Hsh].
    rewrite (bind_returns _ _ _ _ _ Hsh). eexists. split; [reflexivity|].
    split; [exact Hs1|exact Hsent].
Qed.

Lemma batch_loop_stopped E B idx results s :
  stop_event s = true -> batch_loop E B idx results s = (Return results, s).
Proof.
  intros H. destruct idx as [|i idx]; cbn [batch_loop]; [reflexivity|].
  rewrite (bind_returns _ _ _ _ _ (is_timeout_global_stopped E s H)). reflexivity.
Qed.

Lemma process_paths_stopped E s :
  stop_event s = true ->
  _process_paths_for_base_url E s = (Return [], s)
  \/ exists e, _process_paths_for_base_url E s = (Raise e, s).
Proof.
  intros H. unfold _process_paths_for_base_url.
  rewrite (bind_returns get _ s s s eq_refl).
  destruct (path_batch_size (runtime_config s)) as [B|]; [|right; eexists; reflexivity].
  destruct (B =? 0); [right; eexists; reflexivity|].
  left. apply batch_loop_stopped, H.
Qed.

Lemma url_loop_stopped E total urls i s :
  stop_event s = true ->
  exists s', url_loop E total urls i [] s = (Return [], s')
             /\ stop_event s' = true /\ sent s' = sent s.
Proof.
  intros H. destruct urls as [|base urls]; cbn [url_loop].
  - eexists. split; [reflexivity|]. split; [exact H|reflexivity].
  - rewrite (bind_returns (log _) _ s tt _ eq_refl).
    rewrite (bind_returns _ _ _ _ _
               (is_timeout_global_stopped E (add_log (LogStartingURL i total base) s) H)).
    eexists. split; [reflexivity|]. split; [exact H|reflexivity].
Qed.

Lemma unsent_relation : frame_relation unsent.
Proof. split; unfold unsent; intuition congruence. Qed.

#[local] Hint Resolve unsent_relation : frames.
#[local] Hint Extern 1 (unsent _ _) => split; reflexivity : frames.

Lemma keeps_unsent_log r : Keeps unsent (log r).
Proof. apply keeps_modify. split; reflexivity. Qed.
#[local] Hint Resolve keeps_unsent_log : frames.

Lemma keeps_unsent_write_results E file results : Keeps unsent (write_results E file results).
Proof. unfold write_results. frames. Qed.
#[local] Hint Resolve keeps_unsent_write_results : frames.

Lemma keeps_unsent_finalize_results E results : Keeps unsent (_finalize_results E results).
Proof. unfold _finalize_results. frames. Qed.

(** X3.  The cancellation flag stays set.  Once [stop_event] is set, a
    dispatch call, sequential or concurrent, returns the empty list and
    sends no request; and [run], which resets the result count and the scan
    start time but not the flag, sends no request either, leaves the flag
    set and returns no result. *)
Theorem stop_event_is_final :
  forall E s,
    stop_event s = true ->
    (forall urls,
        exists s', _run_fuzz_threading E urls s = (Return [], s')
                   /\ stop_event s' = true /\ sent s' = sent s)
    /\ stop_event (snd (run E s)) = true
    /\ sent (snd (run E s)) = sent s
    /\ (forall results, fst (run E s) = Return results -> results = []).
Proof.
  intros E s H. split; [intros urls; apply run_fuzz_threading_stopped, H|].
  unfold run.
  rewrite (bind_returns (modify (set_logged_count 0)) _ s tt _ eq_refl).
  rewrite (bind_returns (time_time E) _ _ _ _ eq_refl).
  rewrite (bind_returns (modify (set_scan_start_time _)) _ _ tt _ eq_refl).
  rewrite (bind_returns _display_configuration _ _ tt _ eq_refl).
  rewrite (bind_returns get _ _ _ _ eq_refl).
  match goal with |- context [bind ?m _ ?s0] => set (scan := m); set (pre := s0) end.
  assert (Hpre : stop_event pre = true /\ sent pre = sent s) by (split; [exact H|reflexivity]).
  destruct Hpre as [Hp1 Hp2].
  assert (Hscan : exists s1, stop_event s1 = true /\ sent s1 = sent s
                             /\ (scan pre = (Return [], s1) \/ exists e, scan pre = (Raise e, s1))).
  { subst scan. destruct (Py.truthy_list _).
    - unfold _process_url_list. rewrite (bind_returns get _ _ _ _ eq_refl).
      destruct (url_loop_stopped E (Z.of_nat (List.length (url_file (config pre))))
                  (url_file (config pre)) 1 pre Hp1) as (s1 & Hu & Hs & Hsent).
      exists s1. split; [exact Hs|]. split; [congruence|]. left. exact Hu.
    - destruct (_ && _).
      + exists pre. split; [exact Hp1|]. split; [exact Hp2|].
        destruct (process_paths_stopped E pre Hp1) as [Hr|Hr]; [left|right]; exact Hr.
      + exists pre. split; [exact Hp1|]. split; [exact Hp2|]. left. reflexivity. }
  destruct Hscan as (s1 & Hs1 & Hsent1 & [Hr|[e Hr]]).
  - rewrite (bind_returns _ _ _ _ _ Hr).
    pose proof (keeps_at unsent _ (keeps_unsent_finalize_results E []) s1) as [Hk1 Hk2].
    destruct (finalize_results_spec E [] s1) as (s2 & Hfin & _).
    rewrite Hfin in *. cbn [fst snd] in *. split; [congruence|]. split; [congruence|].
    intros results [= <-]. reflexivity.
  - unfold bind. rewrite Hr. cbn [fst snd]. split; [exact Hs1|]. split; [exact Hsent1|].
    intros results [=].
Qed.

Lemma stop_event_is_final_witness :
  sent (snd (run quiet_world stopped_state)) = sent stopped_state.
Proof.
  apply (stop_event_is_final quiet_world stopped_state). reflexivity.
Defined.

(* ================================================================= *)
(** ** Result lines and the status filter *)

Lemma prefix_append a b : String.prefix a (a ++ b) = true.
Proof.
  induction a as [|c a IH]; cbn; [destruct b; reflexivity|].
  destruct (ascii_dec c c); [exact IH|congruence].
Qed.

Lemma contains_prefix needle hay : String.prefix needle hay = true -> Py.contains needle hay = true.
Proof. intros H. destruct hay; cbn [Py.contains]; rewrite H; reflexivity. Qed.

Lemma contains_inside needle a b : Py.contains needle (a ++ needle ++ b) = true.
Proof.
  induction a as [|c a IH].
  - cbn [append]. apply contains_prefix, prefix_append.
  - cbn [append Py.contains]. rewrite IH. destruct (String.prefix _ _); reflexivity.
Qed.

Lemma append_assoc (a b c : string) : (a ++ b) ++ c = a ++ b ++ c.
Proof. induction a as [|x a IH]; cbn; [reflexivity|]. rewrite IH. reflexivity. Qed.

Lemma status_in_code status codes :
  status_in status codes = true ->
  existsb (fun code => String.eqb code (Py.str_int status))
          (map Configuration.str_code codes) = true.
Proof.
  unfold status_in. induction codes as [|c codes IH]; cbn; [discriminate|].
  intros H. apply orb_true_iff in H. destruct H as [H|H].
  - destruct c as [n|t]; [|discriminate]. apply Z.eqb_eq in H. subst n.
    cbn. rewrite String.eqb_refl. reflexivity.
  - rewrite (IH H). apply orb_true_r.
Qed.

Lemma record_passes status codes url rest :
  status_in status codes = true ->
  existsb (fun code => Py.contains ("---> " ++ code ++ ",")
                         (url ++ " ---> " ++ Py.str_int status ++ ", " ++ rest))
          (map Configuration.str_code codes) = true.
Proof.
  intros H. apply status_in_code in H. apply existsb_exists in H.
  destruct H as (code & Hin & Hc). apply String.eqb_eq in Hc. subst code.
  apply existsb_exists. exists (Py.str_int status). split; [exact Hin|].
  replace (url ++ " ---> " ++ Py.str_int status ++ ", " ++ rest)
    with ((url ++ " ") ++ ("---> " ++ Py.str_int status ++ ",") ++ (" " ++ rest)).
  - apply contains_inside.
  - rewrite !append_assoc. reflexivity.
Qed.

(** X8.  With a status filter, a response that is logged and counted while
    the scan runs gives a result line that [filter_status] keeps at the end:
    [_make_single_request] counts a result only if its status code is in the
    filter, and the line of such a result holds ["---> code,"]. *)
Theorem logged_results_pass_the_filter :
  forall E url method headers s result s' codes,
    filter_status_code (runtime_config s) = Some codes -> codes <> [] ->
    request_and_log E url method headers s = (Return result, s') ->
    logged_count s' <> logged_count s ->
    Configuration.filter_status [result] codes = [result]
    /\ logged_count s' = logged_count s + 1
    /\ exists color, logger s' = LogResult color result :: logger s.
Proof.
  intros E url method headers s result s' codes Hf Hne.
  unfold request_and_log, requests_request.
  unfold bind at 1.
  destruct (network E (events s) url method headers) as [status content|e]; [|discriminate].
  rewrite (bind_returns get _ _ _ _ eq_refl).
  change (runtime_config (add_sent _ (advance E 0 s))) with (runtime_config s).
  rewrite Hf. destruct codes as [|c cs]; [congruence|].
  destruct (status_in status (c :: cs)) eqn:Hin.
  - unfold bind, modify, log, ret. intros [= <- <-]. fields. intros _.
    split; [|split; [reflexivity|eexists; reflexivity]].
    unfold Configuration.filter_status. cbn [filter].
    match goal with |- (if ?b then _ else _) = _ => replace b with true; [reflexivity|] end.
    symmetry.
    exact (record_passes status (c :: cs) url
             (method ++ ", " ++ Py.repr_dict headers ++ ", "
                ++ Py.str_len (String.length content) ++ " bytes") Hin).
  - unfold bind, ret. intros [= <- <-]. fields. congruence.
Qed.

Lemma logged_results_pass_the_filter_witness :
  Configuration.filter_status
    ["http://example.com/admin ---> 403, GET, {}, 9 bytes"] [IntCode 200; IntCode 403]
  = ["http://example.com/admin ---> 403, GET, {}, 9 bytes"].
Proof.
  apply (logged_results_pass_the_filter quiet_world "http://example.com/admin" "GET" []
           filtering_state _
           (snd (request_and_log quiet_world "http://example.com/admin" "GET" []
                   filtering_state))).
  - reflexivity.
  - discriminate.
  - reflexivity.
  - vm_compute. discriminate.
Defined.

(* ================================================================= *)
(** ** The user-agent catalog *)

(** X10.  A user-agent catalog that exists but holds only blank lines gives
    an engine with an empty catalog (the two built-in agents stand in for a
    missing file only), and then every request whose headers have no
    [User-Agent] ends in the [IndexError] of [random.choice] before anything
    is sent. *)
Theorem empty_catalog_fails_the_request :
  forall disk text,
    disk FILE = FileText text ->
    Py.stripped_lines text = [] ->
    forall config runtime_config clock files,
    exists fuzzer,
      Fuzzer disk config runtime_config clock files = (Loaded fuzzer, [])
      /\ forall E url method headers is_threaded s,
           user_agents s = user_agents fuzzer ->
           Py.dict_mem "User-Agent" headers = false ->
           _make_single_request E url method headers is_threaded s = (Raise IndexError, s).
Proof.
  intros disk text Hd Hl config rc clock files. unfold Fuzzer, _load_user_agents.
  rewrite Hd, Hl. cbn [and_then loaded]. eexists. split; [reflexivity|].
  intros E url method headers thr s Hs Hm.
  unfold _make_single_request. rewrite (bind_returns get _ s s s eq_refl).
  rewrite Hm, Hs. reflexivity.
Qed.

Lemma empty_catalog_fails_the_request_witness :
  exists fuzzer,
    Fuzzer blank_catalog example_config (example_runtime 1) 1000%Q (fun _ => None)
    = (Loaded fuzzer, [])
    /\ forall E url method headers is_threaded s,
         user_agents s = user_agents fuzzer ->
         Py.dict_mem "User-Agent" headers = false ->
         _make_single_request E url method headers is_threaded s = (Raise IndexError, s).
Proof.
  apply (empty_catalog_fails_the_request blank_catalog (String Py.LF ("  " ++ String Py.LF ""))).
  - reflexivity.
  - reflexivity.
Defined.

(* ================================================================= *)
(** ** Progress lines *)

Lemma counts_S n : counts (S n) = (counts n ++ [Z.of_nat (S n)])%list.
Proof. unfold counts. rewrite seq_S, map_app. reflexivity. Qed.

Lemma multiples_count k : 0 < k ->
  forall n, Z.of_nat (List.length (filter (fun c => c mod k =? 0) (counts n)))
            = Z.of_nat n / k.
Proof.
  intros Hk. induction n as [|n IH].
  - cbn [counts seq map filter List.length Z.of_nat]. symmetry. apply Z.div_0_l. lia.
  - rewrite counts_S, filter_app, length_app, Nat2Z.inj_add, IH. cbn [filter].
    pose proof (Z.div_mod (Z.of_nat n) k ltac:(lia)) as D.
    pose proof (Z.mod_pos_bound (Z.of_nat n) k Hk) as R.
    replace (Z.of_nat (S n)) with (Z.of_nat n + 1) by lia.
    destruct ((Z.of_nat n + 1) mod k =? 0) eqn:Hm.
    + apply Z.eqb_eq in Hm. cbn [List.length].
      pose proof (Z.div_mod (Z.of_nat n + 1) k ltac:(lia)) as D'.
      rewrite Hm in D'. nia.
    + apply Z.eqb_neq in Hm. cbn [List.length].
      pose proof (Z.div_mod (Z.of_nat n + 1) k ltac:(lia)) as D'.
      pose proof (Z.mod_pos_bound (Z.of_nat n + 1) k Hk) as R'.
      nia.
Qed.

Lemma filter_or_length {A} (p q : A -> bool) l :
  (List.length (filter (fun x => p x || q x) l)
   <= List.length (filter p l) + List.length (filter q l))%nat.
Proof.
  induction l as [|x l IH]; cbn [filter]; [cbn; lia|].
  destruct (p x), (q x); cbn [orb List.length]; lia.
Qed.

Lemma equal_count (total : Z) n :
  (List.length (filter (fun c => Z.eqb c total) (counts n)) <= 1)%nat
  /\ (Z.of_nat n < total -> filter (fun c => Z.eqb c total) (counts n) = []).
Proof.
  induction n as [|n [IH1 IH2]]; [split; [cbn; lia|reflexivity]|].
  rewrite counts_S, filter_app, length_app. cbn [filter].
  destruct (Z.of_nat (S n) =? total) eqn:He.
  - apply Z.eqb_eq in He. rewrite IH2 by lia. split; [cbn; lia|lia].
  - split; [cbn [List.length]; lia|]. intros H. rewrite IH2 by lia. reflexivity.
Qed.

Lemma log_progress_logs current total s :
  _log_progress current total s
  = (Return tt,
     if (total >? 10)
        && ((current mod Z.max 1 (total / 10) =? 0) || (current =? total))
     then add_log (LogProgress current total) s else s).
Proof.
  unfold _log_progress. destruct (total >? 10); [|reflexivity].
  cbn [andb]. destruct (_ || _); reflexivity.
Qed.

(** X9.  [_log_progress] over a loop of [total] items writes at most 20
    lines, whatever [total] is: none when [total <= 10], and otherwise one at
    every multiple of [total // 10] and one at the last item. *)
Theorem progress_lines_are_few :
  forall (total : nat) (s : State),
    let logged :=
      filter (fun current =>
                negb (Nat.eqb
                        (List.length (logger (snd (_log_progress current (Z.of_nat total) s))))
                        (List.length (logger s))))
             (map Z.of_nat (seq 1 total)) in
    (List.length logged <= 20)%nat
    /\ ((total <= 10)%nat -> logged = [])
    /\ ((10 < total)%nat -> In (Z.of_nat total) logged).
Proof.
  intros total s logged. fold (counts total) in logged.
  set (t := Z.of_nat total) in *. set (k := Z.max 1 (t / 10)).
  assert (Hlogged : logged
                    = filter (fun c => (t >? 10) && ((c mod k =? 0) || (c =? t)))
                             (counts total)).
  { subst logged. apply filter_ext. intros c. rewrite log_progress_logs. fold k.
    destruct ((t >? 10) && _); cbn [snd]; fields.
    - cbn [List.length]. destruct (Nat.eqb_spec (S (List.length (logger s)))
                                     (List.length (logger s))); [lia|reflexivity].
    - rewrite Nat.eqb_refl. reflexivity. }
  rewrite Hlogged. clear Hlogged logged.
  destruct (t >? 10) eqn:Ht; cbn [andb].
  - assert (Ht' : 10 < t) by lia. split; [|split; [lia|]].
    + eapply Nat.le_trans; [apply filter_or_length|].
      pose proof (proj1 (equal_count t total)) as He.
      assert (Hk : 0 < k) by lia.
      pose proof (multiples_count k Hk total) as Hm. fold t in Hm.
      assert (Hq : t / k <= 19).
      { apply Z.lt_succ_r. apply Z.div_lt_upper_bound; [lia|].
        pose proof (Z.div_mod t 10 ltac:(lia)) as D.
        pose proof (Z.mod_pos_bound t 10 ltac:(lia)) as R.
        assert (1 <= t / 10) by (apply Z.div_le_lower_bound; lia).
        subst k. rewrite Z.max_r by lia. lia. }
      lia.
    + intros _. apply filter_In. split.
      * unfold counts. apply in_map, in_seq. lia.
      * rewrite Z.eqb_refl. apply orb_true_r.
  - split; [|split].
    + clear. induction (counts total); cbn; [lia|assumption].
    + intros _. clear. induction (counts total); cbn; [reflexivity|assumption].
    + intros H. subst t. lia.
Qed.

(* ================================================================= *)
(** ** The requests a dispatch call sends *)

Lemma sends_none {A} (m : M A) : Keeps same_sent m -> sends_at_most 0 m.
Proof. intros [H] s. specialize (H s). unfold same_sent in H. rewrite H. lia. Qed.

Lemma sends_more n n' {A} (m : M A) : (n <= n')%nat -> sends_at_most n m -> sends_at_most n' m.
Proof. intros Hn H s. specialize (H s). lia. Qed.

Lemma sends_bind a b {A B} (m : M A) (k : A -> M B) :
  sends_at_most a m -> (forall x, sends_at_most b (k x)) -> sends_at_most (a + b) (bind m k).
Proof.
  intros Hm Hk s. unfold bind. specialize (Hm s).
  destruct (m s) as [[x|e] s1]; cbn [snd] in *; [|lia].
  specialize (Hk x s1). lia.
Qed.

Lemma sends_ret {A} (a : A) : sends_at_most 0 (ret a).
Proof. intros s. cbn. lia. Qed.

Lemma sends_log r : sends_at_most 0 (log r).
Proof. intros s. cbn. lia. Qed.

Lemma sends_request_and_log E u m h : sends_at_most 1 (request_and_log E u m h).
Proof.
  intros s. unfold request_and_log, requests_request, bind, get, modify, log, ret.
  destruct (network E (events s) u m h) as [code content|e]; [|cbn; lia].
  match goal with |- context [if ?c then _ else _] => destruct c end; cbn; lia.
Qed.

Lemma sends_request_failed u m e : sends_at_most 0 (request_failed u m e).
Proof.
  intros s. unfold request_failed.
  destruct e as [r| | | | | |]; try (cbn; lia).
  destruct (is_Timeout r); [|destruct (is_ConnectionError r)]; cbn; lia.
Qed.

Lemma sends_try_except a b {A} (m : M A) h :
  sends_at_most a m -> (forall e, sends_at_most b (h e)) -> sends_at_most (a + b) (try_except m h).
Proof.
  intros Hm Hh s. unfold try_except. specialize (Hm s).
  destruct (m s) as [[x|e] s1]; cbn [snd] in *; [lia|].
  specialize (Hh e s1). lia.
Qed.

Lemma sends_random_choice E l : sends_at_most 0 (random_choice E l).
Proof. intros s. unfold random_choice. destruct l; cbn; lia. Qed.

Lemma sends_make_single_request E u m h b : sends_at_most 1 (_make_single_request E u m h b).
Proof.
  unfold _make_single_request.
  apply (sends_bind 0 1); [apply sends_none, keeps_get, same_sent_relation|]. intros s.
  apply (sends_bind 0 1).
  { destruct (negb _); [|apply sends_ret].
    apply (sends_bind 0 0); [apply sends_random_choice|]. intros a. apply sends_ret. }
  intros h1. apply (sends_bind 0 1).
  { destruct (negb b); [apply sends_none, keeps_sent_coordinate_delay|apply sends_ret]. }
  intros _. apply (sends_try_except 1 0); [apply sends_request_and_log|].
  intros e. apply sends_request_failed.
Qed.

Lemma sends_make_threaded_request E u m h : sends_at_most 1 (_make_threaded_request E u m h).
Proof.
  unfold _make_threaded_request.
  apply (sends_bind 0 1); [apply sends_none, keeps_sent_is_timeout|]. intros [|].
  - apply (sends_more 0); [lia|apply sends_ret].
  - apply (sends_bind 0 1); [apply sends_none, keeps_get, same_sent_relation|]. intros s.
    apply (sends_bind 0 1); [apply sends_none, keeps_sent_coordinate_delay|]. intros _.
    apply sends_make_single_request.
Qed.

Lemma seq_headers_sends E u m total st hs :
  forall acc, sends_at_most (List.length hs) (seq_headers E u m total st hs acc).
Proof.
  induction hs as [|h hs IH]; intros acc; cbn [seq_headers List.length].
  - apply sends_ret.
  - apply (sends_bind 0 (S (List.length hs))); [apply sends_none, keeps_sent_is_timeout|].
    intros [|]; [apply (sends_more 0); [lia|apply sends_ret]|].
    destruct acc as [all cur].
    apply (sends_bind 0 (S (List.length hs)));
      [apply sends_none, keeps_sent_log_progress_with_time|]. intros _.
    apply (sends_bind 0 (S (List.length hs))).
    { destruct (_ =? 0); [apply sends_none, keeps_sent_log_global_timeout_remaining
                         |apply sends_ret]. }
    intros _. apply (sends_bind 1 (List.length hs)); [apply sends_make_single_request|].
    intros result. destruct (_ >=? _).
    + apply (sends_more 0); [lia|].
      apply (sends_bind 0 0); [apply sends_log|]. intros _. apply sends_ret.
    + apply IH.
Qed.

Lemma framed_get_headers s s' : framed s s' -> _get_headers s' = _get_headers s.
Proof.
  intros (Hs & Hc & _). destruct Hs as (Hr & _). unfold _get_headers. rewrite Hc, Hr.
  reflexivity.
Qed.

Lemma framed_get_methods s s' : framed s s' -> _get_methods s' = _get_methods s.
Proof.
  intros (Hs & Hc & _). destruct Hs as (Hr & _). unfold _get_methods. rewrite Hc, Hr.
  reflexivity.
Qed.

Lemma framed_request_tasks s s' urls : framed s s' -> request_tasks s' urls = request_tasks s urls.
Proof.
  intros H. unfold request_tasks. rewrite (framed_get_headers _ _ H), (framed_get_methods _ _ H).
  reflexivity.
Qed.

Lemma framed_trans s1 s2 s3 : framed s1 s2 -> framed s2 s3 -> framed s1 s3.
Proof. apply (frame_trans _ framed_relation). Qed.

Lemma seq_methods_sends E u total st ms :
  forall acc s,
    (List.length (sent (snd (seq_methods E u total st ms acc s)))
     <= List.length (sent s) + List.length ms * List.length (_get_headers s))%nat.
Proof.
  induction ms as [|m ms IH]; intros acc s; cbn [seq_methods List.length].
  - cbn. lia.
  - unfold bind at 1.
    pose proof (keeps_at same_sent _ (keeps_sent_is_timeout E) s) as Ht.
    pose proof (keeps_framed_at (_is_timeout E) s (keeps_is_timeout E)) as Hf.
    destruct (_is_timeout E s) as [[t|e] s1]; cbn [snd] in *; unfold same_sent in Ht;
      rewrite <- Ht; [|lia].
    destruct t; [cbn; lia|].
    rewrite (bind_returns get _ s1 s1 s1 eq_refl). unfold bind at 1.
    pose proof (seq_headers_sends E u m total st (_get_headers s1) acc s1) as Hh.
    pose proof (keeps_framed_at _ s1 (keeps_seq_headers E u m total st (_get_headers s1) acc))
      as Hf2.
    rewrite (framed_get_headers _ _ Hf) in *.
    destruct (seq_headers E u m total st (_get_headers s) acc s1) as [[[r acc']|e] s2];
      cbn [snd] in *; [|lia].
    destruct r; [cbn [ret snd]; lia|].
    specialize (IH acc' s2).
    rewrite (framed_get_headers _ _ (framed_trans _ _ _ Hf Hf2)) in IH. lia.
Qed.

Lemma length_flat_map_const {A B} (f : A -> list B) (l : list A) n :
  (forall a, List.length (f a) = n) -> List.length (flat_map f l) = (List.length l * n)%nat.
Proof.
  intros H. induction l as [|a l IH]; [reflexivity|].
  cbn [flat_map List.length]. rewrite length_app, H, IH. lia.
Qed.

Lemma request_tasks_length s urls :
  List.length (request_tasks s urls)
  = (List.length urls * (List.length (_get_methods s) * List.length (_get_headers s)))%nat.
Proof.
  unfold request_tasks. apply length_flat_map_const. intros u.
  apply length_flat_map_const. intros m. apply length_map.
Qed.

Lemma seq_urls_sends E total st us :
  forall acc s,
    (List.length (sent (snd (seq_urls E total st us acc s)))
     <= List.length (sent s) + List.length (request_tasks s us))%nat.
Proof.
  induction us as [|u us IH]; intros acc s; rewrite request_tasks_length;
    cbn [seq_urls List.length].
  - cbn. lia.
  - unfold bind at 1.
    pose proof (keeps_at same_sent _ (keeps_sent_is_timeout E) s) as Ht.
    pose proof (keeps_framed_at (_is_timeout E) s (keeps_is_timeout E)) as Hf.
    destruct (_is_timeout E s) as [[t|e] s1]; cbn [snd] in *; unfold same_sent in Ht;
      rewrite <- Ht; [|lia].
    destruct t; [cbn; lia|].
    rewrite (bind_returns get _ s1 s1 s1 eq_refl). unfold bind at 1.
    pose proof (seq_methods_sends E u total st (_get_methods s1) acc s1) as Hh.
    pose proof (keeps_framed_at _ s1 (keeps_seq_methods E u total st (_get_methods s1) acc))
      as Hf2.
    rewrite (framed_get_methods _ _ Hf), (framed_get_headers _ _ Hf) in *.
    destruct (seq_methods E u total st (_get_methods s) acc s1) as [[[r acc']|e] s2];
      cbn [snd] in *; [|lia].
    destruct r; [cbn [ret snd]; lia|].
    specialize (IH acc' s2). rewrite request_tasks_length in IH.
    rewrite (framed_get_headers _ _ (framed_trans _ _ _ Hf Hf2)),
      (framed_get_methods _ _ (framed_trans _ _ _ Hf Hf2)) in IH. lia.
Qed.

Lemma run_sequential_sends E urls s :
  (List.length (sent (snd (_run_sequential E urls s)))
   <= List.length (sent s) + List.length (request_tasks s urls))%nat.
Proof.
  unfold _run_sequential. rewrite (bind_returns get _ s s s eq_refl).
  rewrite (bind_returns (time_time E) _ s _ _ eq_refl).
  unfold bind.
  pose proof (seq_urls_sends E
                (Z.of_nat (List.length urls) * Z.of_nat (List.length (_get_methods s))
                 * Z.of_nat (List.length (_get_headers s)))
                (clock (advance E 0 s)) urls ([], 0) (advance E 0 s)) as H.
  rewrite (framed_request_tasks s (advance E 0 s) urls (framed_advance E 0 s)) in H.
  change (sent (advance E 0 s)) with (sent s) in H.
  destruct (seq_urls _ _ _ _ _ _) as [[r|e] s1]; cbn [snd] in *; exact H.
Qed.

Lemma pool_ret {X} (proj : X -> Pool) pool (r : X) :
  (open_count (proj r) <= open_count pool)%nat -> pool_bounded proj pool (ret r).
Proof. intros H s. cbn. lia. Qed.

Lemma pool_bind {X Y} (proj : X -> Pool) (proj' : Y -> Pool) pool (m : M X) (k : X -> M Y) :
  pool_bounded proj pool m -> (forall r, pool_bounded proj' (proj r) (k r)) ->
  pool_bounded proj' pool (bind m k).
Proof.
  intros Hm Hk s. unfold bind. specialize (Hm s).
  destruct (m s) as [[r|e] s1]; [|exact Hm].
  specialize (Hk r s1). destruct (k r s1) as [[r'|e] s2]; lia.
Qed.

Lemma pool_after {A Y} (proj' : Y -> Pool) pool (m : M A) (k : A -> M Y) :
  Keeps same_sent m -> (forall a, pool_bounded proj' pool (k a)) ->
  pool_bounded proj' pool (bind m k).
Proof.
  intros [Hm] Hk s. unfold bind. specialize (Hm s). unfold same_sent in Hm.
  destruct (m s) as [[a|e] s1]; cbn [snd] in Hm; [|rewrite Hm; lia].
  specialize (Hk a s1). rewrite Hm in Hk. exact Hk.
Qed.

Lemma open_count_cons f pool :
  open_count (f :: pool) = ((if done f then 0 else 1) + open_count pool)%nat.
Proof. unfold open_count. cbn [filter]. destruct (done f); reflexivity. Qed.

Lemma open_count_set_nth pool : forall i f g,
  nth_error pool i = Some f ->
  (open_count (set_nth pool i g) + (if done f then 0 else 1)
   = open_count pool + (if done g then 0 else 1))%nat.
Proof.
  induction pool as [|h pool IH]; intros [|i] f g; cbn [nth_error set_nth]; try discriminate.
  - intros [= ->]. rewrite !open_count_cons. lia.
  - intros H. rewrite !open_count_cons. specialize (IH i f g H). lia.
Qed.

Lemma open_count_start_first pool : open_count (start_first pool) = open_count pool.
Proof.
  induction pool as [|f pool IH]; [reflexivity|]. cbn [start_first].
  destruct (fstate f) eqn:Hf; rewrite !open_count_cons; unfold done; cbn [fstate];
    rewrite ?Hf, ?IH; reflexivity.
Qed.

Lemma open_count_worker_start w pool : open_count (worker_start w pool) = open_count pool.
Proof. unfold worker_start. destruct (_ <? _); [apply open_count_start_first|reflexivity]. Qed.

Lemma open_count_map_le (g : Future -> Future) pool :
  (forall f, done f = true -> done (g f) = true) ->
  (open_count (map g pool) <= open_count pool)%nat.
Proof.
  intros H. induction pool as [|f pool IH]; [cbn; lia|].
  cbn [map]. rewrite !open_count_cons. specialize (H f).
  destruct (done f); [rewrite H by reflexivity; cbv iota; lia|].
  destruct (done (g f)); cbv iota; lia.
Qed.

Lemma open_count_cancel_all pool : (open_count (cancel_all pool) <= open_count pool)%nat.
Proof.
  apply open_count_map_le. intros f. unfold done, cancel.
  destruct (fstate f) eqn:Hf; cbn [snd fstate]; rewrite ?Hf; congruence.
Qed.

Lemma open_count_cancel_not_done pool :
  (open_count (cancel_not_done pool) <= open_count pool)%nat.
Proof.
  apply open_count_map_le. intros f Hd. rewrite Hd. exact Hd.
Qed.

Lemma worker_finish_bounded E i pq :
  pool_bounded fst (fst pq) (worker_finish E i pq).
Proof.
  destruct pq as [pool queue]. unfold worker_finish. cbn [fst].
  destruct (nth_error pool i) as [f|] eqn:Hn; [|apply pool_ret; unfold await_pool; cbn [fst snd]; lia].
  destruct (is_running f) eqn:Hr; [|apply pool_ret; unfold await_pool; cbn [fst snd]; lia].
  destruct (request f) as [[u m] h] eqn:Hq. intros s. unfold bind, capture, ret.
  pose proof (sends_make_threaded_request E u m h s) as Hs.
  destruct (_make_threaded_request E u m h s) as [r s1]. cbn [snd fst] in *.
  pose proof (open_count_set_nth pool i f (mkFuture (request f) (Finished r)) Hn) as Ho.
  unfold is_running in Hr. unfold done in Ho. cbn [fstate] in Ho. rewrite Hq in Ho.
  destruct (fstate f); try discriminate. lia.
Qed.

Lemma worker_events_bounded E w evs :
  forall pq, pool_bounded fst (fst pq) (worker_events E w evs pq).
Proof.
  induction evs as [|ev evs IH]; intros pq; cbn [worker_events].
  - apply pool_ret. lia.
  - apply (pool_bind fst fst); [|intros r; apply IH].
    destruct ev; cbn [worker_event]; [|apply worker_finish_bounded].
    apply pool_ret. cbn [fst]. rewrite open_count_worker_start. lia.
Qed.

Lemma await_bounded E w pq : pool_bounded await_pool (fst pq) (await E w pq).
Proof.
  unfold await.
  apply pool_after; [apply keeps_get, same_sent_relation|]. intros s.
  apply pool_after; [apply keeps_modify; reflexivity|]. intros _.
  apply (pool_bind fst await_pool); [apply worker_events_bounded|]. intros pq1.
  destruct (snd pq1) as [|j queue]; [|apply pool_ret; unfold await_pool; cbn [fst snd]; lia].
  destruct (first_index is_running (fst pq1) 0) as [j|].
  - apply (pool_bind fst await_pool); [apply (worker_finish_bounded E j pq1)|].
    intros pq2. apply pool_ret. unfold await_pool; cbn [fst snd]. lia.
  - destruct (first_index is_pending (fst pq1) 0) as [j|]; [|apply pool_ret; unfold await_pool; cbn [fst snd]; lia].
    apply (pool_bind fst await_pool).
    + intros s0.
      match goal with |- context [worker_finish E j ?a s0] =>
        pose proof (worker_finish_bounded E j a s0) as H end.
      cbn [fst] in H. rewrite open_count_start_first in H. exact H.
    + intros pq2. apply pool_ret. unfold await_pool; cbn [fst snd]. lia.
Qed.

Lemma keeps_sent_log_progress c t : Keeps same_sent (_log_progress c t).
Proof.
  constructor. intros s. destruct (log_progress_cases c t s) as [-> | ->]; reflexivity.
Qed.

Lemma collect_bounded E n w :
  forall i total pq acc, pool_bounded snd (fst pq) (collect E n w i total pq acc).
Proof.
  induction n as [|n IH]; intros i total pq acc; cbn [collect].
  - apply pool_ret. unfold await_pool; cbn [fst snd]. lia.
  - apply (pool_bind await_pool snd); [apply await_bounded|].
    intros [[pool queue] next]. unfold await_pool. cbn [fst].
    destruct next as [future|]; [|apply pool_ret; unfold await_pool; cbn [fst snd]; lia].
    apply pool_after; [apply keeps_sent_log_progress|]. intros _.
    apply pool_after; [apply keeps_sent_is_timeout|]. intros [|].
    { apply pool_ret. cbn [snd]. apply open_count_cancel_not_done. }
    destruct (future_result pool future) as [result|e].
    + destruct (_ && _); [|apply (IH _ _ (pool, queue))].
      destruct (_ >=? _); [|apply (IH _ _ (pool, queue))].
      apply pool_after; [apply keeps_sent_log|]. intros _.
      apply pool_ret. cbn [snd]. apply open_count_cancel_all.
    + destruct (request_of pool future) as [[url method] hdrs].
      destruct e; (apply pool_after; [apply keeps_sent_log|]); intros _;
        apply (IH _ _ (pool, queue)).
Qed.

Lemma shutdown_bounded E idx :
  forall pool, pool_bounded (fun p => p) pool (shutdown E idx pool).
Proof.
  induction idx as [|i idx IH]; intros pool; cbn [shutdown].
  - apply pool_ret. lia.
  - destruct (nth_error pool i) as [f|] eqn:Hn; [|apply IH].
    assert (Hrun :
               fstate f = Pending \/ fstate f = Running ->
               pool_bounded (fun p => p) pool
                 (pq <- worker_finish E i (set_nth pool i (mkFuture (request f) Running), []) ;;
                  shutdown E idx (fst pq))).
    { intros Hf. apply (pool_bind fst (fun p => p)); [|intros pq; apply IH].
      intros s0.
      pose proof (worker_finish_bounded E i
                    (set_nth pool i (mkFuture (request f) Running), []) s0) as H.
      cbn [fst] in H.
      pose proof (open_count_set_nth pool i f (mkFuture (request f) Running) Hn) as Ho.
      unfold done in Ho. cbn [fstate] in Ho.
      destruct Hf as [Hf|Hf]; rewrite Hf in Ho;
        destruct (worker_finish _ _ _ _) as [[r|e] s1]; lia. }
    destruct (fstate f) eqn:Hf; try apply IH; apply Hrun; auto.
Qed.

Lemma open_count_pending tasks :
  open_count (map (fun t => mkFuture t Pending) tasks) = List.length tasks.
Proof.
  induction tasks as [|t tasks IH]; [reflexivity|].
  cbn [map]. rewrite open_count_cons. cbn. rewrite IH. reflexivity.
Qed.

Lemma run_fuzz_threading_sends :
  forall E urls s,
    (List.length (sent (snd (_run_fuzz_threading E urls s)))
     <= List.length (sent s) + List.length (request_tasks s urls))%nat.
Proof.
  intros E urls s. unfold _run_fuzz_threading.
  rewrite (bind_returns (log _) _ s tt _ eq_refl).
  rewrite (bind_returns get _ _ _ _ eq_refl).
  set (s0 := add_log (LogStartThreading (List.length urls)) s).
  assert (Hf0 : framed s s0) by (apply framed_log; reflexivity).
  change (sent s) with (sent s0). rewrite <- (framed_request_tasks s s0 urls Hf0).
  destruct (num_threads (runtime_config s0) <=? 1); [apply run_sequential_sends|].
  rewrite (bind_returns (log _) _ _ tt _ eq_refl).
  set (s1 := add_log _ s0). change (sent s0) with (sent s1).
  set (pool0 := map (fun t => mkFuture t Pending) (request_tasks s0 urls)).
  rewrite <- (open_count_pending (request_tasks s0 urls)). fold pool0.
  assert (H : pool_bounded (fun _ : list string => []) pool0
                (r <- _collect_threaded_result E (num_threads (runtime_config s0)) pool0 ;;
                 (let (all_result, pool) := r in
                  shutdown E (seq 0 (List.length pool)) pool ;; ret all_result))).
  { apply (pool_bind snd (fun _ => [])).
    - unfold _collect_threaded_result. apply (collect_bounded E _ _ _ _ (pool0, [])).
    - intros [res pool]. cbn [snd].
      apply (pool_bind (fun p => p) (fun _ => [])); [apply shutdown_bounded|].
      intros p. apply pool_ret. cbv beta. change (open_count []) with 0%nat. lia. }
  specialize (H s1). change (open_count []) with 0%nat in H.
  match type of H with match ?t with _ => _ end => destruct t as [[r|e] s2] end;
    cbn [snd]; lia.
Qed.

(** X4.  A dispatch call, sequential or concurrent, calls
    [requests.request] at most once for each task, whatever the network,
    the clock and the schedule of the workers do: at most
    [len(urls) * len(methods) * len(headers)] requests, also when it is cut
    short by a time limit, the result cap or an exception. *)
Theorem one_request_per_task_at_most :
  forall E urls s,
    (List.length (sent (snd (_run_fuzz_threading E urls s)))
     <= List.length (sent s) + List.length (request_tasks s urls))%nat
    /\ List.length (request_tasks s urls)
       = (List.length urls
          * (List.length (_get_methods s) * List.length (_get_headers s)))%nat.
Proof.
  intros E urls s. split; [apply run_fuzz_threading_sends|apply request_tasks_length].
Qed.

(* ================================================================= *)
(** ** The requests a run sends *)

Lemma generate_all_spec paths :
  forall acc s,
    generate_all paths acc s
    = (Return (acc ++ flat_map (variations (str_opt (base_url (config s)))) paths)%list, s).
Proof.
  induction paths as [|p paths IH]; intros acc s; cbn [generate_all flat_map].
  - rewrite app_nil_r. reflexivity.
  - assert (Hg : _generate_url_variations p acc s
                 = (Return (acc ++ variations (str_opt (base_url (config s))) p)%list, s))
      by reflexivity.
    rewrite (bind_returns _ _ _ _ _ Hg), IH, <- app_assoc. reflexivity.
Qed.

Lemma variations_length base paths :
  List.length (flat_map (variations base) paths) = (List.length paths * 18)%nat.
Proof. apply length_flat_map_const. intros p. reflexivity. Qed.

Lemma batch_loop_sends E B idx :
  forall results s,
    (List.length (sent (snd (batch_loop E B idx results s)))
     <= List.length (sent s)
        + List.length (List.concat (batch_paths B (path_file (config s)) idx))
          * 18 * (List.length (_get_methods s) * List.length (_get_headers s)))%nat.
Proof.
  induction idx as [|i idx IH]; intros results s; cbn [batch_loop batch_paths map List.concat].
  - cbn. lia.
  - unfold bind at 1.
    pose proof (keeps_at same_sent _ (keeps_sent_is_timeout_global E) s) as S1.
    pose proof (keeps_framed_at _ s (keeps_is_timeout_global E)) as F1.
    destruct (_is_timeout_global E s) as [[g|e] s1]; cbn [snd] in *; unfold same_sent in S1;
      rewrite <- S1; [|lia].
    destruct g; [cbn; lia|].
    unfold bind at 1.
    pose proof (keeps_at same_sent _ (keeps_sent_is_per_url_timeout E) s1) as S2.
    pose proof (keeps_framed_at _ s1 (keeps_is_per_url_timeout E)) as F2.
    destruct (_is_per_url_timeout E s1) as [[p|e] s2]; cbn [snd] in *; unfold same_sent in S2;
      rewrite <- S2; [|lia].
    destruct p; [cbn; lia|].
    rewrite (bind_returns get _ s2 s2 s2 eq_refl).
    rewrite (bind_returns _ _ _ _ _ (generate_all_spec _ [] s2)). cbn [app].
    pose proof (framed_trans _ _ _ F1 F2) as F.
    assert (Hc : config s2 = config s) by apply F.
    rewrite Hc. set (batch := Py.slice (path_file (config s)) i (i + B)).
    set (urls := flat_map (variations (str_opt (base_url (config s)))) batch).
    rewrite length_app.
    destruct (Py.truthy_list urls) eqn:Hu.
    + unfold bind at 1.
      pose proof (run_fuzz_threading_sends E urls s2) as Hd.
      pose proof (keeps_framed_at _ s2 (keeps_run_fuzz_threading E urls)) as F3.
      rewrite request_tasks_length in Hd. unfold urls in Hd at 2.
      rewrite variations_length in Hd.
      rewrite (framed_get_methods _ _ F), (framed_get_headers _ _ F) in Hd.
      destruct (_run_fuzz_threading E urls s2) as [[r|e] s3]; cbn [snd] in *; [|nia].
      specialize (IH (results ++ r)%list s3).
      pose proof (framed_trans _ _ _ F F3) as F'.
      assert (Hc3 : config s3 = config s) by apply F'.
      rewrite Hc3, (framed_get_methods _ _ F'), (framed_get_headers _ _ F') in IH.
      fold (batch_paths B (path_file (config s)) idx) in *. nia.
    + specialize (IH results s2).
      rewrite Hc, (framed_get_methods _ _ F), (framed_get_headers _ _ F) in IH.
      fold (batch_paths B (path_file (config s)) idx) in *. nia.
Qed.

Lemma target_request_budget :
  forall E s,
    (List.length (sent (snd (_process_paths_for_base_url E s)))
     <= List.length (sent s)
        + 18 * List.length (path_file (config s))
          * (List.length (_get_methods s) * List.length (_get_headers s)))%nat.
Proof.
  intros E s. unfold _process_paths_for_base_url.
  rewrite (bind_returns get _ s s s eq_refl).
  destruct (path_batch_size (runtime_config s)) as [B|]; [|cbn; lia].
  destruct (B =? 0) eqn:HB; [cbn; lia|]. apply Z.eqb_neq in HB.
  eapply Nat.le_trans; [apply batch_loop_sends|].
  apply Nat.add_le_mono_l. apply Nat.mul_le_mono_r.
  destruct (Z.ltb_spec 0 B) as [Hpos|Hneg].
  - rewrite (batches_concat (path_file (config s)) B Hpos). lia.
  - unfold Py.range0. destruct (B >? 0) eqn:Hb; [lia|]. cbn. lia.
Qed.

Lemma same_plan_budget s s' : same_plan s s' -> target_budget s' = target_budget s.
Proof. intros (H1 & H2 & H3). unfold target_budget. rewrite H1, H2, H3. reflexivity. Qed.

Lemma same_plan_relation : frame_relation same_plan.
Proof. split; unfold same_plan; intuition congruence. Qed.

Lemma framed_same_plan s s' : framed s s' -> same_plan s s'.
Proof.
  intros F. split; [|split].
  - assert (Hc : config s' = config s) by apply F. rewrite Hc. reflexivity.
  - apply framed_get_methods, F.
  - apply framed_get_headers, F.
Qed.

Lemma process_target_sends E i s :
  (List.length (sent (snd (process_target E i s))) <= List.length (sent s) + target_budget s)%nat.
Proof.
  unfold process_target. rewrite (bind_returns get _ s s s eq_refl). unfold bind at 1.
  unfold target_budget.
  set (mh := (List.length (_get_methods s) * List.length (_get_headers s))%nat).
  pose proof (Nat.le_max_l 1 (18 * List.length (path_file (config s)))) as M1.
  pose proof (Nat.le_max_r 1 (18 * List.length (path_file (config s)))) as M2.
  set (mx := Nat.max 1 (18 * List.length (path_file (config s)))) in *.
  destruct (Py.truthy_list (path_file (config s))) eqn:Hp.
  - pose proof (target_request_budget E s) as H. fold mh in H.
    destruct (_process_paths_for_base_url E s) as [[r|e] s1]; cbn [snd] in *;
      [unfold bind, log, modify, ret; cbn [snd sent add_log]|]; nia.
  - pose proof (run_fuzz_threading_sends E [str_opt (base_url (config s))] s) as H.
    rewrite request_tasks_length in H. cbn [List.length] in H. fold mh in H.
    destruct (_run_fuzz_threading E _ s) as [[r|e] s1]; cbn [snd] in *;
      [unfold bind, log, modify, ret; cbn [snd sent add_log]|]; nia.
Qed.

Lemma process_target_plan E i s : same_plan s (snd (process_target E i s)).
Proof.
  unfold process_target.
  rewrite (bind_returns get _ s s s eq_refl). unfold bind at 1.
  destruct (Py.truthy_list (path_file (config s))).
  - pose proof (keeps_framed_at _ s (keeps_process_paths_for_base_url E)) as F.
    destruct (_process_paths_for_base_url E s) as [[r|e] s1]; cbn [snd] in *;
      [|exact (framed_same_plan _ _ F)].
    apply (frame_trans _ same_plan_relation _ _ _ (framed_same_plan _ _ F)). repeat split.
  - pose proof (keeps_framed_at _ s
                  (keeps_run_fuzz_threading E [str_opt (base_url (config s))])) as F.
    destruct (_run_fuzz_threading E _ s) as [[r|e] s1]; cbn [snd] in *;
      [|exact (framed_same_plan _ _ F)].
    apply (frame_trans _ same_plan_relation _ _ _ (framed_same_plan _ _ F)). repeat split.
Qed.

Lemma url_iteration_sends E base i s :
  (List.length (sent (snd (url_iteration E base i s)))
   <= List.length (sent s) + target_budget s)%nat
  /\ same_plan s (snd (url_iteration E base i s)).
Proof.
  rewrite url_iteration_unfold. unfold try_finally.
  pose proof (process_target_sends E i (entered E base s)) as H.
  pose proof (process_target_plan E i (entered E base s)) as P.
  assert (Pe : same_plan s (entered E base s)) by (repeat split).
  rewrite (same_plan_budget _ _ Pe) in H.
  change (sent (entered E base s)) with (sent s) in H.
  destruct (process_target E i (entered E base s)) as [r s1]. cbn [snd] in *.
  unfold set_base_url, modify. cbn [snd sent set_config].
  split; [exact H|].
  apply (frame_trans _ same_plan_relation _ _ _ Pe).
  apply (frame_trans _ same_plan_relation _ _ _ P). repeat split.
Qed.

Lemma url_loop_sends E total urls :
  forall i acc s,
    (List.length (sent (snd (url_loop E total urls i acc s)))
     <= List.length (sent s) + List.length urls * target_budget s)%nat.
Proof.
  induction urls as [|base urls IH]; intros i acc s; cbn [url_loop List.length].
  - cbn. lia.
  - rewrite (bind_returns (log _) _ s tt _ eq_refl).
    set (s0 := add_log (LogStartingURL i total base) s).
    assert (P0 : same_plan s s0) by (repeat split).
    change (sent s) with (sent s0). rewrite <- (same_plan_budget _ _ P0).
    unfold bind at 1.
    pose proof (keeps_at same_sent _ (keeps_sent_is_timeout_global E) s0) as S1.
    pose proof (keeps_framed_at _ s0 (keeps_is_timeout_global E)) as F1.
    destruct (_is_timeout_global E s0) as [[g|e] s1]; cbn [snd] in *; unfold same_sent in S1;
      rewrite <- S1; [|lia].
    destruct g; [cbn; lia|].
    rewrite <- (same_plan_budget _ _ (framed_same_plan _ _ F1)).
    unfold bind at 1.
    destruct (url_iteration_sends E base i s1) as [H P].
    destruct (url_iteration E base i s1) as [[r|e] s2]; cbn [snd] in *; [|lia].
    specialize (IH (i + 1) (acc ++ r)%list s2). rewrite (same_plan_budget _ _ P) in IH. lia.
Qed.

(** X5.  A run sends at most one request for each variation of each path,
    method and header set, per target: eighteen times the number of paths
    (once, when there is no path) times the number of methods times the
    number of header sets, for each target of the URL list (for the one
    base URL, when there is no list). *)
Theorem run_request_budget :
  forall E s,
    (List.length (sent (snd (run E s)))
     <= List.length (sent s)
        + Nat.max 1 (List.length (url_file (config s)))
          * (Nat.max 1 (18 * List.length (path_file (config s)))
             * (List.length (_get_methods s) * List.length (_get_headers s))))%nat.
Proof.
  intros E s. fold (target_budget s). unfold run.
  rewrite (bind_returns (modify (set_logged_count 0)) _ s tt _ eq_refl).
  rewrite (bind_returns (time_time E) _ _ _ _ eq_refl).
  rewrite (bind_returns (modify (set_scan_start_time _)) _ _ tt _ eq_refl).
  rewrite (bind_returns _display_configuration _ _ tt _ eq_refl).
  rewrite (bind_returns get _ _ _ _ eq_refl).
  match goal with |- context [bind _ _ ?s0] => set (pre := s0) end.
  match goal with |- context [bind ?m _ pre] => set (scan := m) end.
  assert (Ppre : same_plan s pre) by (repeat split).
  assert (Hscan : (List.length (sent (snd (scan pre)))
                   <= List.length (sent pre)
                      + Nat.max 1 (List.length (url_file (config pre))) * target_budget pre)%nat).
  { subst scan. destruct (Py.truthy_list (url_file (config pre))).
    - unfold _process_url_list. rewrite (bind_returns get _ pre pre pre eq_refl).
      eapply Nat.le_trans; [apply url_loop_sends|].
      apply Nat.add_le_mono_l, Nat.mul_le_mono_r, Nat.le_max_r.
    - destruct (_ && _); [|cbn [ret snd]; lia].
      eapply Nat.le_trans; [apply target_request_budget|]. unfold target_budget.
      apply Nat.add_le_mono_l.
      pose proof (Nat.le_max_l 1 (List.length (url_file (config pre)))) as M1.
      pose proof (Nat.le_max_r 1 (18 * List.length (path_file (config pre)))) as M2.
      set (mh := (List.length (_get_methods pre) * List.length (_get_headers pre))%nat).
      set (mx := Nat.max 1 (18 * List.length (path_file (config pre)))) in *.
      set (mu := Nat.max 1 (List.length (url_file (config pre)))) in *. nia. }
  rewrite (same_plan_budget _ _ Ppre) in Hscan.
  change (sent pre) with (sent s) in Hscan.
  change (url_file (config pre)) with (url_file (config s)) in Hscan.
  unfold bind. destruct (scan pre) as [[results|e] s1]; cbn [snd] in *; [|exact Hscan].
  pose proof (keeps_at unsent _ (keeps_unsent_finalize_results E results) s1) as [_ Hk].
  rewrite Hk. exact Hscan.
Qed.

(* ================================================================= *)
(** ** The sequential sweep *)

Lemma framed_of {A} (m : M A) s r s' : Keeps framed m -> m s = (r, s') -> framed s s'.
Proof. intros [H] Hm. specialize (H s). rewrite Hm in H. exact H. Qed.

Lemma framed_not_stopped s s' : framed s s' -> stop_event s' = false -> stop_event s = false.
Proof.
  intros ((_ & _ & _ & _ & _ & _ & Hm & _) & _) H.
  destruct (stop_event s); [rewrite Hm in H by reflexivity; discriminate|reflexivity].
Qed.

Lemma framed_latched s s' : framed s s' -> latched s -> latched s'.
Proof. intros ((_ & _ & _ & _ & _ & Hl & _) & _). exact Hl. Qed.

Lemma framed_no_target_clock s s' : framed s s' -> no_target_clock s -> no_target_clock s'.
Proof.
  intros ((_ & _ & Hp & _) & _ & Hc & _). unfold no_target_clock. rewrite Hp, Hc. auto.
Qed.

Lemma is_per_url_timeout_idle E s :
  no_target_clock s -> _is_per_url_timeout E s = (Return false, s).
Proof.
  unfold _is_per_url_timeout, bind, get. intros [H|H]; rewrite H; [reflexivity|].
  destruct (per_url_time_limit_seconds s); reflexivity.
Qed.

Lemma is_timeout_false E s t s1 :
  latched s -> no_target_clock s ->
  _is_timeout E s = (Return t, s1) -> stop_event s1 = false -> t = false.
Proof.
  intros Hl Hn. unfold _is_timeout. intros H Hs.
  apply bind_inv in H. destruct H as (g & s0 & Hg & H).
  destruct g.
  - injection H as <- <-. apply is_timeout_global_true in Hg; [congruence|exact Hl].
  - pose proof (framed_of _ _ _ _ (keeps_is_timeout_global E) Hg) as Hf.
    rewrite is_per_url_timeout_idle in H by (apply (framed_no_target_clock _ _ Hf), Hn).
    injection H as <- <-. reflexivity.
Qed.

Lemma make_single_request_sends E u m h b s result s' :
  _make_single_request E u m h b s = (Return result, s') ->
  exists h', sent s' = (u, m, h') :: sent s /\ Py.truthy_str result = true.
Proof.
  unfold _make_single_request.
  rewrite (bind_returns get _ s s s eq_refl).
  match goal with |- context [bind ?p _ s] => set (pick := p) end.
  assert (Hpick : forall r s1, pick s = (r, s1) -> sent s1 = sent s).
  { subst pick. destruct (negb _); [|intros r s1 [= _ <-]; reflexivity].
    unfold bind, random_choice, ret. destruct (user_agents s);
      intros r s1 [= _ <-]; reflexivity. }
  unfold bind at 1. specialize (Hpick (fst (pick s)) (snd (pick s)) (surjective_pairing _)).
  destruct (pick s) as [[h1|e] s1]; [|discriminate]. cbn [snd] in Hpick.
  match goal with |- context [bind ?d _ s1] => set (dly := d) end.
  assert (Hdly : Keeps same_sent dly).
  { subst dly. destruct (negb b); [apply keeps_sent_coordinate_delay|].
    apply keeps_ret, same_sent_relation. }
  pose proof (keeps_at same_sent dly Hdly s1) as Hd.
  unfold bind at 1. destruct (dly s1) as [[[]|e] s2]; [|discriminate].
  cbn [snd] in Hd. unfold same_sent in Hd. pose proof Hpick as Hp.
  unfold try_except, request_and_log, request_failed, requests_request, bind, get,
    modify, log, ret, raise.
  destruct (network E (events s2) u m h1) as [code content|[r| | | | | |]];
    try discriminate.
  - match goal with |- context [if ?c then _ else _] => destruct c end;
      intros [= <- <-]; fields; exists h1;
      (split; [rewrite Hd, Hp; reflexivity|apply truthy_append; reflexivity]).
  - destruct (is_Timeout r); [|destruct (is_ConnectionError r)];
      intros [= <- <-]; fields; exists h1;
      (split; [rewrite Hd, Hp; reflexivity|apply truthy_append; reflexivity]).
Qed.

Lemma seq_headers_sweeps E u m total st hs :
  forall acc s returned res n s',
    latched s -> no_target_clock s ->
    seq_headers E u m total st hs acc s = (Return (returned, (res, n)), s') ->
    stop_event s' = false ->
    Z.of_nat (List.length (fst acc) + List.length hs) < MAX_RESULT ->
    returned = false
    /\ List.length res = (List.length (fst acc) + List.length hs)%nat
    /\ exists new,
         sent s' = (rev new ++ sent s)%list
         /\ map target new = map (fun _ => (u, m)) hs.
Proof.
  induction hs as [|h hs IH]; intros [all cur] s returned res n s' Hl Hn;
    cbn [seq_headers fst List.length] in *.
  - intros [= <- <- <- <-] _ _. split; [reflexivity|]. split; [lia|].
    exists []. split; reflexivity.
  - intros H Hstop Hcap.
    pose proof (framed_of _ _ _ _ (keeps_seq_headers E u m total st (h :: hs) (all, cur)) H)
      as Hwhole.
    apply bind_inv in H. destruct H as (t & s1 & Ht & H).
    pose proof (framed_of _ _ _ _ (keeps_is_timeout E) Ht) as F1.
    pose proof (kept_sent _ _ _ _ (keeps_sent_is_timeout E) Ht) as S1.
    destruct t.
    { injection H as <- <- <- <-.
      apply (is_timeout_false E s true s1 Hl Hn Ht) in Hstop. discriminate. }
    apply bind_inv in H. destruct H as ([] & s2 & Hp & H).
    pose proof (framed_of _ _ _ _ (keeps_log_progress_with_time E _ _ _) Hp) as F2.
    pose proof (kept_sent _ _ _ _ (keeps_sent_log_progress_with_time E _ _ _) Hp) as S2.
    apply bind_inv in H. destruct H as ([] & s3 & Hr & H).
    assert (F3 : framed s2 s3 /\ sent s3 = sent s2).
    { destruct (_ =? 0).
      - split; [exact (framed_of _ _ _ _ (keeps_log_global_timeout_remaining E) Hr)|].
        exact (kept_sent _ _ _ _ (keeps_sent_log_global_timeout_remaining E) Hr).
      - injection Hr as <-. split; [apply (frame_refl _ framed_relation)|reflexivity]. }
    destruct F3 as [F3 S3].
    apply bind_inv in H. destruct H as (result & s4 & Hreq & H).
    pose proof (framed_of _ _ _ _ (keeps_make_single_request E u m h false) Hreq) as F4.
    apply make_single_request_sends in Hreq. destruct Hreq as (h' & S4 & Htruthy).
    rewrite Htruthy in H.
    assert (Hlen : List.length (all ++ [result]) = S (List.length all))
      by (rewrite length_app; cbn; lia).
    destruct (Z.of_nat (List.length (all ++ [result])) >=? MAX_RESULT) eqn:Hfull;
      [rewrite Hlen in Hfull; apply Z.geb_le in Hfull; lia|].
    pose proof (framed_trans _ _ _ (framed_trans _ _ _ (framed_trans _ _ _ F1 F2) F3) F4)
      as F.
    apply IH in H; [|exact (framed_latched _ _ F Hl)|exact (framed_no_target_clock _ _ F Hn)
                    |exact Hstop|cbn [fst]; rewrite Hlen; lia].
    cbn [fst] in H. destruct H as (H1 & H2 & new & H3 & H4).
    split; [exact H1|]. split; [rewrite H2, Hlen; lia|].
    exists ((u, m, h') :: new). split.
    + cbn [rev]. rewrite <- app_assoc. cbn [app]. rewrite H3, S4, S3, S2, S1. reflexivity.
    + cbn [map target fst snd]. rewrite H4. reflexivity.
Qed.

Lemma map_flat_map {A B C} (f : B -> C) (g : A -> list B) l :
  map f (flat_map g l) = flat_map (fun x => map f (g x)) l.
Proof.
  induction l as [|a l IH]; [reflexivity|]. cbn [flat_map]. rewrite map_app, IH. reflexivity.
Qed.

Lemma seq_methods_sweeps E u total st ms :
  forall acc s returned res n s',
    latched s -> no_target_clock s ->
    seq_methods E u total st ms acc s = (Return (returned, (res, n)), s') ->
    stop_event s' = false ->
    Z.of_nat (List.length (fst acc) + List.length ms * List.length (_get_headers s))
    < MAX_RESULT ->
    returned = false
    /\ List.length res
       = (List.length (fst acc) + List.length ms * List.length (_get_headers s))%nat
    /\ exists new,
         sent s' = (rev new ++ sent s)%list
         /\ map target new
            = flat_map (fun m => map (fun _ => (u, m)) (_get_headers s)) ms.
Proof.
  induction ms as [|m ms IH]; intros acc s returned res n s' Hl Hn;
    cbn [seq_methods List.length flat_map].
  - destruct acc as [all cur]. intros [= <- <- <- <-] _ _. cbn [fst].
    split; [reflexivity|]. split; [lia|]. exists []. split; reflexivity.
  - intros H Hstop Hcap.
    apply bind_inv in H. destruct H as (t & s1 & Ht & H).
    pose proof (framed_of _ _ _ _ (keeps_is_timeout E) Ht) as F1.
    pose proof (kept_sent _ _ _ _ (keeps_sent_is_timeout E) Ht) as S1.
    destruct t.
    { destruct acc as [all cur]. injection H as <- <- <- <-.
      apply (is_timeout_false E s true s1 Hl Hn Ht) in Hstop. discriminate. }
    rewrite (bind_returns get _ s1 s1 s1 eq_refl) in H.
    apply bind_inv in H. destruct H as ([ret1 [res1 n1]] & s2 & Hh & H).
    rewrite (framed_get_headers _ _ F1) in Hh.
    pose proof (framed_of _ _ _ _ (keeps_seq_headers E u m total st _ acc) Hh) as F2.
    pose proof (framed_trans _ _ _ F1 F2) as F.
    assert (Hstop2 : stop_event s2 = false).
    { destruct ret1.
      - injection H as <- <- <- <-. exact Hstop.
      - apply (framed_not_stopped s2 s'); [|exact Hstop].
        exact (framed_of _ _ _ _ (keeps_seq_methods E u total st ms (res1, n1)) H). }
    apply seq_headers_sweeps in Hh;
      [|exact (framed_latched _ _ F1 Hl)|exact (framed_no_target_clock _ _ F1 Hn)
       |exact Hstop2|lia].
    destruct Hh as (-> & A2 & new1 & A3 & A4).
    apply IH in H; [|exact (framed_latched _ _ F Hl)|exact (framed_no_target_clock _ _ F Hn)
                    |exact Hstop|cbn [fst]; rewrite (framed_get_headers _ _ F); lia].
    cbn [fst] in H. rewrite (framed_get_headers _ _ F) in H.
    destruct H as (H1 & H2 & new2 & H3 & H4).
    split; [exact H1|]. split; [lia|].
    exists (new1 ++ new2)%list. split.
    + rewrite rev_app_distr, <- app_assoc, H3, A3, S1. reflexivity.
    + rewrite map_app, A4, H4. reflexivity.
Qed.

Lemma seq_urls_sweeps E total st us :
  forall acc s returned res n s',
    latched s -> no_target_clock s ->
    seq_urls E total st us acc s = (Return (returned, (res, n)), s') ->
    stop_event s' = false ->
    Z.of_nat (List.length (fst acc) + List.length (request_tasks s us)) < MAX_RESULT ->
    returned = false
    /\ List.length res = (List.length (fst acc) + List.length (request_tasks s us))%nat
    /\ exists new,
         sent s' = (rev new ++ sent s)%list
         /\ map target new = map target (request_tasks s us).
Proof.
  induction us as [|u us IH]; intros acc s returned res n s' Hl Hn;
    cbn [seq_urls].
  - destruct acc as [all cur]. intros [= <- <- <- <-] _ _. cbn [fst].
    split; [reflexivity|]. split; [cbn; lia|]. exists []. split; reflexivity.
  - intros H Hstop Hcap.
    assert (Htasks : request_tasks s (u :: us)
                     = (flat_map (fun m => map (fun h => (u, m, h)) (_get_headers s))
                                 (_get_methods s)
                        ++ request_tasks s us)%list) by reflexivity.
    rewrite Htasks in *. rewrite length_app in *.
    assert (Hlen : List.length (flat_map (fun m => map (fun h => (u, m, h)) (_get_headers s))
                                         (_get_methods s))
                   = (List.length (_get_methods s) * List.length (_get_headers s))%nat).
    { apply length_flat_map_const. intros m. apply length_map. }
    rewrite Hlen in *.
    apply bind_inv in H. destruct H as (t & s1 & Ht & H).
    pose proof (framed_of _ _ _ _ (keeps_is_timeout E) Ht) as F1.
    pose proof (kept_sent _ _ _ _ (keeps_sent_is_timeout E) Ht) as S1.
    destruct t.
    { destruct acc as [all cur]. injection H as <- <- <- <-.
      apply (is_timeout_false E s true s1 Hl Hn Ht) in Hstop. discriminate. }
    rewrite (bind_returns get _ s1 s1 s1 eq_refl) in H.
    apply bind_inv in H. destruct H as ([ret1 [res1 n1]] & s2 & Hh & H).
    rewrite (framed_get_methods _ _ F1) in Hh.
    pose proof (framed_of _ _ _ _ (keeps_seq_methods E u total st _ acc) Hh) as F2.
    pose proof (framed_trans _ _ _ F1 F2) as F.
    assert (Hstop2 : stop_event s2 = false).
    { destruct ret1.
      - injection H as <- <- <- <-. exact Hstop.
      - apply (framed_not_stopped s2 s'); [|exact Hstop].
        exact (framed_of _ _ _ _ (keeps_seq_urls E total st us (res1, n1)) H). }
    apply seq_methods_sweeps in Hh;
      [|exact (framed_latched _ _ F1 Hl)|exact (framed_no_target_clock _ _ F1 Hn)
       |exact Hstop2|rewrite (framed_get_headers _ _ F1); lia].
    rewrite (framed_get_headers _ _ F1) in Hh.
    destruct Hh as (-> & A2 & new1 & A3 & A4).
    apply IH in H; [|exact (framed_latched _ _ F Hl)|exact (framed_no_target_clock _ _ F Hn)
                    |exact Hstop|cbn [fst]; rewrite (framed_request_tasks _ _ _ F); lia].
    cbn [fst] in H. rewrite (framed_request_tasks _ _ _ F) in H.
    destruct H as (H1 & H2 & new2 & H3 & H4).
    split; [exact H1|]. split; [lia|].
    exists (new1 ++ new2)%list. split.
    + rewrite rev_app_distr, <- app_assoc, H3, A3, S1. reflexivity.
    + rewrite !map_app, A4, H4. f_equal. rewrite map_flat_map.
      apply flat_map_ext. intros m. rewrite map_map. reflexivity.
Qed.



(* ================================================================= *)
(** ** The records a dispatch call returns *)

Lemma yields_bind {A B} (P : B -> Prop) (m : M A) (k : A -> M B) :
  (forall a, Yields P (k a)) -> Yields P (bind m k).
Proof.
  intros Hk s b s' H. apply bind_inv in H. destruct H as (a & s1 & _ & H).
  exact (Hk a s1 b s' H).
Qed.

Lemma yields_bind_with {A B} (Q : A -> Prop) (P : B -> Prop) (m : M A) (k : A -> M B) :
  Yields Q m -> (forall a, Q a -> Yields P (k a)) -> Yields P (bind m k).
Proof.
  intros Hm Hk s b s' H. apply bind_inv in H. destruct H as (a & s1 & Ha & H).
  exact (Hk a (Hm s a s1 Ha) s1 b s' H).
Qed.

Lemma yields_ret {A} (P : A -> Prop) a : P a -> Yields P (ret a).
Proof. intros H s b s' [= <- <-]. exact H. Qed.

Lemma yields_try_except {A} (P : A -> Prop) (m : M A) h :
  Yields P m -> (forall e, Yields P (h e)) -> Yields P (try_except m h).
Proof.
  intros Hm Hh s a s'. unfold try_except. specialize (Hm s).
  destruct (m s) as [[x|e] s1].
  - intros [= <- <-]. exact (Hm x s1 eq_refl).
  - apply Hh.
Qed.

Lemma result_line_intro url rest : is_result_line (url ++ " ---> " ++ rest).
Proof. apply contains_inside. Qed.

Lemma yields_request_and_log E u m h : Yields is_result_line (request_and_log E u m h).
Proof.
  unfold request_and_log. apply yields_bind. intros [code content].
  apply yields_bind. intros s. apply yields_bind. intros _.
  apply yields_ret. apply result_line_intro.
Qed.

Lemma yields_request_failed u m e : Yields is_result_line (request_failed u m e).
Proof.
  unfold request_failed. destruct e as [r| | | | | |]; try (intros s a s'; discriminate).
  destruct (is_Timeout r); [|destruct (is_ConnectionError r)];
    (apply yields_bind; intros _; apply yields_ret);
    [apply (result_line_intro u ("TIMEOUT, " ++ m ++ ", {}, 0 bytes"))
    |apply (result_line_intro u ("CONNECTION_ERROR, " ++ m ++ ", {}, 0 bytes"))
    |apply (result_line_intro u ("ERROR, " ++ m ++ ", {}, 0 bytes"))].
Qed.

Lemma yields_make_single_request E u m h b :
  Yields is_result_line (_make_single_request E u m h b).
Proof.
  unfold _make_single_request. apply yields_bind. intros s.
  apply yields_bind. intros h1. apply yields_bind. intros _.
  apply yields_try_except; [apply yields_request_and_log|apply yields_request_failed].
Qed.

Lemma yields_make_threaded_request E u m h :
  Yields (fun r => r = "" \/ is_result_line r) (_make_threaded_request E u m h).
Proof.
  unfold _make_threaded_request. apply yields_bind. intros [|].
  - apply yields_ret. left. reflexivity.
  - apply yields_bind. intros s. apply yields_bind. intros _.
    intros s0 a s' H. right. exact (yields_make_single_request E u m h true s0 a s' H).
Qed.

Lemma yields_seq_headers E u m total st hs :
  forall acc, Forall is_result_line (fst acc) ->
              Yields lines_so_far (seq_headers E u m total st hs acc).
Proof.
  induction hs as [|h hs IH]; intros [all cur] Hacc; cbn [seq_headers fst] in *.
  - apply yields_ret. exact Hacc.
  - apply yields_bind. intros [|]; [apply yields_ret; exact Hacc|].
    apply yields_bind. intros _. apply yields_bind. intros _.
    apply (yields_bind_with is_result_line); [apply yields_make_single_request|].
    intros result Hr.
    assert (Hall : Forall is_result_line
                     (if Py.truthy_str result then (all ++ [result])%list else all)).
    { destruct (Py.truthy_str result); [|exact Hacc].
      apply Forall_app. split; [exact Hacc|]. constructor; [exact Hr|constructor]. }
    destruct (_ >=? _).
    + apply yields_bind. intros _. apply yields_ret. exact Hall.
    + apply IH. exact Hall.
Qed.

Lemma yields_seq_methods E u total st ms :
  forall acc, Forall is_result_line (fst acc) ->
              Yields lines_so_far (seq_methods E u total st ms acc).
Proof.
  induction ms as [|m ms IH]; intros acc Hacc; cbn [seq_methods].
  - apply yields_ret. exact Hacc.
  - apply yields_bind. intros [|]; [apply yields_ret; exact Hacc|].
    apply yields_bind. intros s.
    apply (yields_bind_with lines_so_far); [apply yields_seq_headers, Hacc|].
    intros [r acc'] Hr. destruct r; [apply yields_ret; exact Hr|]. apply IH. exact Hr.
Qed.

Lemma yields_seq_urls E total st us :
  forall acc, Forall is_result_line (fst acc) ->
              Yields lines_so_far (seq_urls E total st us acc).
Proof.
  induction us as [|u us IH]; intros acc Hacc; cbn [seq_urls].
  - apply yields_ret. exact Hacc.
  - apply yields_bind. intros [|]; [apply yields_ret; exact Hacc|].
    apply yields_bind. intros s.
    apply (yields_bind_with lines_so_far); [apply yields_seq_methods, Hacc|].
    intros [r acc'] Hr. destruct r; [apply yields_ret; exact Hr|]. apply IH. exact Hr.
Qed.

Lemma yields_run_sequential E urls : Yields (Forall is_result_line) (_run_sequential E urls).
Proof.
  unfold _run_sequential. apply yields_bind. intros s. apply yields_bind. intros st.
  apply (yields_bind_with lines_so_far); [apply yields_seq_urls; constructor|].
  intros r Hr. apply yields_ret. exact Hr.
Qed.

Lemma pool_lines_set_nth pool : forall i g,
  pool_lines pool ->
  match fstate g with Finished (Return r) => r = "" \/ is_result_line r | _ => True end ->
  pool_lines (set_nth pool i g).
Proof.
  unfold pool_lines. induction pool as [|f pool IH]; intros [|i] g Hp Hg; cbn [set_nth];
    try constructor; inversion Hp; subst; auto.
Qed.

Lemma pool_lines_start_first pool : pool_lines pool -> pool_lines (start_first pool).
Proof.
  unfold pool_lines. induction 1 as [|f pool Hf Hp IH]; cbn [start_first]; [constructor|].
  destruct (fstate f) eqn:Hs; constructor; auto; cbn [fstate]; try rewrite Hs; auto.
Qed.

Lemma pool_lines_worker_start w pool : pool_lines pool -> pool_lines (worker_start w pool).
Proof.
  intros H. unfold worker_start. destruct (_ <? _); [apply pool_lines_start_first|]; exact H.
Qed.

Lemma yields_worker_finish E i pq :
  pool_lines (fst pq) -> Yields pool_of (worker_finish E i pq).
Proof.
  destruct pq as [pool queue]. cbn [fst]. intros Hp. unfold worker_finish.
  destruct (nth_error pool i) as [f|]; [|apply yields_ret; exact Hp].
  destruct (is_running f); [|apply yields_ret; exact Hp].
  destruct (request f) as [[u m] h].
  intros s a s'. unfold bind, capture, ret.
  pose proof (yields_make_threaded_request E u m h s) as Hr.
  destruct (_make_threaded_request E u m h s) as [r s1].
  intros [= <- <-]. unfold pool_of. cbn [fst].
  apply pool_lines_set_nth; [exact Hp|]. cbn [fstate].
  destruct r as [r|e]; [|exact I]. apply (Hr r s1 eq_refl).
Qed.

Lemma yields_worker_events E w evs :
  forall pq, pool_lines (fst pq) -> Yields pool_of (worker_events E w evs pq).
Proof.
  induction evs as [|ev evs IH]; intros pq Hp; cbn [worker_events].
  - apply yields_ret. exact Hp.
  - apply (yields_bind_with pool_of); [|intros pq1 H1; apply IH, H1].
    destruct ev; cbn [worker_event]; [|apply yields_worker_finish, Hp].
    apply yields_ret. unfold pool_of. cbn [fst]. apply pool_lines_worker_start, Hp.
Qed.

Lemma yields_await E w pq : pool_lines (fst pq) -> Yields awaited (await E w pq).
Proof.
  intros Hp. unfold await. apply yields_bind. intros s. apply yields_bind. intros _.
  apply (yields_bind_with pool_of); [apply yields_worker_events, Hp|].
  intros pq1 H1. unfold pool_of in H1.
  destruct (snd pq1) as [|j queue]; [|apply yields_ret; exact H1].
  destruct (first_index is_running (fst pq1) 0) as [j|].
  - apply (yields_bind_with pool_of); [apply yields_worker_finish, H1|].
    intros pq2 H2. apply yields_ret. exact H2.
  - destruct (first_index is_pending (fst pq1) 0) as [j|]; [|apply yields_ret; exact H1].
    apply (yields_bind_with pool_of).
    + apply yields_worker_finish. cbn [fst]. apply pool_lines_start_first, H1.
    + intros pq2 H2. apply yields_ret. exact H2.
Qed.

Lemma future_result_line pool j result :
  pool_lines pool -> future_result pool j = Return result ->
  result = "" \/ is_result_line result.
Proof.
  unfold pool_lines, future_result. intros Hp.
  destruct (nth_error pool j) as [f|] eqn:Hn; [|discriminate].
  apply nth_error_In in Hn. rewrite Forall_forall in Hp. specialize (Hp f Hn).
  destruct (fstate f) as [| |r|]; try discriminate. intros ->. exact Hp.
Qed.

Lemma yields_collect E n w :
  forall i total pq acc,
    pool_lines (fst pq) -> Forall is_result_line acc ->
    Yields collected (collect E n w i total pq acc).
Proof.
  induction n as [|n IH]; intros i total pq acc Hp Hacc; cbn [collect].
  - apply yields_ret. exact Hacc.
  - apply (yields_bind_with awaited); [apply yields_await, Hp|].
    intros [[pool queue] next] Ha. unfold awaited in Ha. cbn [fst] in Ha.
    destruct next as [future|]; [|apply yields_ret; exact Hacc].
    apply yields_bind. intros _. apply yields_bind. intros [|]; [apply yields_ret; exact Hacc|].
    destruct (future_result pool future) as [result|e] eqn:Hr.
    + destruct (Py.truthy_str result && Py.strip_nonempty result) eqn:Hk;
        [|apply (IH _ _ (pool, queue)); assumption].
      assert (Hall : Forall is_result_line (acc ++ [result])).
      { apply Forall_app. split; [exact Hacc|]. constructor; [|constructor].
        destruct (future_result_line pool future result Ha Hr) as [->|H]; [discriminate|].
        exact H. }
      destruct (_ >=? _); [|apply (IH _ _ (pool, queue)); assumption].
      apply yields_bind. intros _. apply yields_ret. exact Hall.
    + destruct (request_of pool future) as [[url method] hdrs].
      destruct e; apply yields_bind; intros _; apply (IH _ _ (pool, queue)); assumption.
Qed.

(** X7.  Every record a dispatch call returns, sequential or concurrent, is a
    formatted result line (it holds [" ---> "]); the empty string with which
    a worker answers when it finds the time limit passed is never among the
    results. *)
Theorem dispatch_returns_result_lines :
  forall E urls s results s',
    _run_fuzz_threading E urls s = (Return results, s') ->
    Forall (fun r => Py.contains " ---> " r = true) results
    /\ ~ In "" results.
Proof.
  intros E urls s results s' H.
  assert (Hl : Forall is_result_line results).
  { revert s results s' H. change (Yields (Forall is_result_line) (_run_fuzz_threading E urls)).
    unfold _run_fuzz_threading. apply yields_bind. intros _. apply yields_bind. intros s.
    destruct (_ <=? 1); [apply yields_run_sequential|].
    apply yields_bind. intros _.
    apply (yields_bind_with collected).
    - unfold _collect_threaded_result. apply yields_collect; [|constructor].
      unfold pool_lines. cbn [fst]. apply Forall_map, Forall_forall. intros t _. exact I.
    - intros [all pool] Hc. apply yields_bind. intros _. apply yields_ret. exact Hc. }
  split; [exact Hl|]. intros Hin. rewrite Forall_forall in Hl. specialize (Hl "" Hin).
  discriminate.
Qed.

Lemma dispatch_returns_result_lines_witness :
  let r := _run_fuzz_threading quiet_world (variations "http://example.com" "admin")
                               (example_state 4) in
  Forall (fun line => Py.contains " ---> " line = true) (returned (fst r))
  /\ ~ In "" (returned (fst r)).
Proof.
  intros r.
  apply (dispatch_returns_result_lines quiet_world (variations "http://example.com" "admin")
           (example_state 4) (returned (fst r)) (snd r)).
  rewrite <- returned_eq; [apply surjective_pairing|]. vm_compute. reflexivity.
Defined.

(* ================================================================= *)
(** ** Start-up: the loaders of [utility/configuration.py] *)

Lemma lstrip_space_empty s : Py.strip_nonempty s = false -> Py.lstrip_space s = "".
Proof.
  induction s as [|c s IH]; cbn; [reflexivity|].
  destruct (Py.is_space c); [exact IH|discriminate].
Qed.

Lemma lstrip_space_head s :
  Py.strip_nonempty s = true ->
  exists c t, Py.lstrip_space s = String c t /\ Py.is_space c = false.
Proof.
  induction s as [|c s IH]; cbn; [discriminate|].
  destruct (Py.is_space c) eqn:Hc; [exact IH|].
  intros _. exists c, s. split; [reflexivity|exact Hc].
Qed.

Lemma rstrip_space_head c t :
  Py.is_space c = false -> exists t', Py.rstrip_space (String c t) = String c t'.
Proof.
  intros Hc. cbn. destruct (Py.rstrip_space t); [rewrite Hc|]; eexists; reflexivity.
Qed.

Lemma strip_nonempty_strip s : Py.strip_nonempty s = Py.truthy_str (Py.strip s).
Proof.
  unfold Py.strip. destruct (Py.strip_nonempty s) eqn:H.
  - destruct (lstrip_space_head s H) as (c & t & -> & Hc).
    destruct (rstrip_space_head c t Hc) as [t' ->]. reflexivity.
  - rewrite lstrip_space_empty by exact H. reflexivity.
Qed.

Lemma rstrip_space_cons a s :
  Py.rstrip_space (String a s)
  = match Py.rstrip_space s with
    | EmptyString => if Py.is_space a then EmptyString else String a EmptyString
    | r => String a r
    end.
Proof. reflexivity. Qed.

Lemma rstrip_space_idempotent s : Py.rstrip_space (Py.rstrip_space s) = Py.rstrip_space s.
Proof.
  induction s as [|a s IH]; [reflexivity|]. rewrite rstrip_space_cons.
  destruct (Py.rstrip_space s) as [|b r] eqn:Hr.
  - destruct (Py.is_space a) eqn:Ha; [reflexivity|]. cbn. rewrite Ha. reflexivity.
  - rewrite rstrip_space_cons, IH. reflexivity.
Qed.

Lemma lstrip_space_fixed c t : Py.is_space c = false -> Py.lstrip_space (String c t) = String c t.
Proof. intros H. cbn. rewrite H. reflexivity. Qed.

Lemma strip_idempotent s : Py.strip (Py.strip s) = Py.strip s.
Proof.
  unfold Py.strip. destruct (Py.strip_nonempty s) eqn:H.
  - destruct (lstrip_space_head s H) as (c & t & -> & Hc).
    destruct (rstrip_space_head c t Hc) as [t' Ht]. rewrite Ht.
    rewrite (lstrip_space_fixed c t' Hc), <- Ht. apply rstrip_space_idempotent.
  - rewrite (lstrip_space_empty s H). reflexivity.
Qed.

Lemma contains_colon c s :
  Py.contains ":" (String c s) = (Ascii.eqb c ":" || Py.contains ":" s)%bool.
Proof.
  cbn [Py.contains String.prefix].
  destruct (ascii_dec ":" c) as [<-|Hne].
  - destruct s; reflexivity.
  - destruct (Ascii.eqb_spec c ":"%char) as [->|_]; [congruence|]. reflexivity.
Qed.

Lemma split_once_none s : Py.contains ":" s = false <-> Py.split_once ":" s = None.
Proof.
  induction s as [|c s IH]; [split; reflexivity|].
  rewrite contains_colon. cbn [Py.split_once].
  destruct (Ascii.eqb c ":"); cbn [orb]; [split; discriminate|].
  rewrite IH. destruct (Py.split_once ":" s) as [[k v]|]; split; congruence.
Qed.

Lemma split_once_first key value :
  Py.contains ":" key = false ->
  Py.split_once ":" (key ++ ":" ++ value) = Some (key, value).
Proof.
  induction key as [|c key IH]; intros H; [reflexivity|].
  rewrite contains_colon in H. apply orb_false_iff in H. destruct H as [Hc Hk].
  cbn [append Py.split_once]. rewrite Hc.
  change (key ++ String ":" value) with (key ++ ":" ++ value). rewrite (IH Hk). reflexivity.
Qed.

Lemma split_once_parts s key value :
  Py.split_once ":" s = Some (key, value) ->
  s = key ++ ":" ++ value /\ Py.contains ":" key = false.
Proof.
  revert key. induction s as [|c s IH]; intros key; cbn [Py.split_once]; [discriminate|].
  destruct (Ascii.eqb_spec c ":"%char) as [->|Hc].
  - intros [= <- <-]. split; reflexivity.
  - destruct (Py.split_once ":" s) as [[k v]|]; [|discriminate].
    intros [= <- <-]. destruct (IH k eq_refl) as [-> Hk]. split; [reflexivity|].
    rewrite contains_colon, Hk. destruct (Ascii.eqb_spec c ":"%char); [congruence|reflexivity].
Qed.

Lemma no_colon_lstrip s : Py.contains ":" s = false -> Py.contains ":" (Py.lstrip_space s) = false.
Proof.
  induction s as [|c s IH]; [reflexivity|]. intros H. cbn [Py.lstrip_space].
  destruct (Py.is_space c); [|exact H]. apply IH.
  rewrite contains_colon in H. apply orb_false_iff in H. apply H.
Qed.

Lemma no_colon_rstrip s : Py.contains ":" s = false -> Py.contains ":" (Py.rstrip_space s) = false.
Proof.
  induction s as [|c s IH]; [reflexivity|]. intros H. rewrite rstrip_space_cons.
  rewrite contains_colon in H. apply orb_false_iff in H. destruct H as [Hc Hs].
  specialize (IH Hs). destruct (Py.rstrip_space s) as [|b r].
  - destruct (Py.is_space c); [reflexivity|]. rewrite contains_colon, Hc. reflexivity.
  - rewrite contains_colon, Hc, IH. reflexivity.
Qed.

Lemma no_colon_strip s : Py.contains ":" s = false -> Py.contains ":" (Py.strip s) = false.
Proof. intros H. apply no_colon_rstrip, no_colon_lstrip, H. Qed.

(** X11.  [parse_header] splits at the first colon only: the name is what
    stands before it and the value everything after it, further colons
    included, both without the white space around them.  A text without a
    colon gives the empty dict and one warning.  The dict has at most one
    entry, whose name holds no colon. *)
Theorem parse_header_splits_at_the_first_colon :
  (forall key value,
      Py.contains ":" key = false ->
      Configuration.parse_header (key ++ ":" ++ value)
      = (Loaded [(Py.strip key, Py.strip value)], []))
  /\ (forall header_str,
         Py.contains ":" header_str = false ->
         Configuration.parse_header header_str
         = (Loaded [], [LogInvalidHeaderFormat header_str]))
  /\ (forall header_str parsed log,
         Configuration.parse_header header_str = (parsed, log) ->
         exists d, parsed = Loaded d /\ (List.length d <= 1)%nat
                   /\ Forall (fun kv => Py.contains ":" (fst kv) = false
                                        /\ Py.strip (fst kv) = fst kv
                                        /\ Py.strip (snd kv) = snd kv) d).
Proof.
  split; [|split].
  - intros key value H. unfold Configuration.parse_header.
    rewrite split_once_first by exact H. reflexivity.
  - intros h H. unfold Configuration.parse_header.
    apply split_once_none in H. rewrite H. reflexivity.
  - intros h parsed log. unfold Configuration.parse_header.
    destruct (Py.split_once ":" h) as [[k v]|] eqn:Hs.
    + intros [= <- <-]. eexists. split; [reflexivity|]. split; [cbn; lia|].
      constructor; [|constructor]. cbn [fst snd].
      split; [|split; apply strip_idempotent].
      apply no_colon_strip. apply split_once_parts in Hs. apply Hs.
    + intros [= <- <-]. eexists. split; [reflexivity|]. split; [cbn; lia|constructor].
Qed.

Lemma stripped_lines_clean text :
  Forall (fun line => line <> "" /\ Py.strip line = line) (Py.stripped_lines text).
Proof.
  unfold Py.stripped_lines. apply Forall_map, Forall_forall. intros l Hl.
  apply filter_In in Hl. destruct Hl as [_ Hl]. split; [|apply strip_idempotent].
  rewrite strip_nonempty_strip in Hl. destruct (Py.strip l); [discriminate|discriminate].
Qed.



Lemma header_lines_spec lines :
  forall acc,
    Configuration.header_lines lines acc
    = (Loaded (acc ++ filter Py.truthy_list
                        (map (fun line => parsed (Configuration.parse_header line)) lines))%list,
       map LogSkippingHeaderLine (filter (fun line => negb (Py.contains ":" line)) lines)).
Proof.
  induction lines as [|line lines IH]; intros acc; cbn [Configuration.header_lines map filter].
  - rewrite app_nil_r. reflexivity.
  - unfold Configuration.parse_header, parsed.
    destruct (Py.contains ":" line) eqn:Hc; cbn [negb].
    + destruct (Py.split_once ":" line) as [[k v]|] eqn:Hs.
      * rewrite IH. cbn [fst Py.truthy_list]. rewrite <- app_assoc. reflexivity.
      * apply split_once_none in Hs. congruence.
    + apply split_once_none in Hc. rewrite Hc. cbn [fst Py.truthy_list and_then report].
      rewrite IH. reflexivity.
Qed.

(** X13.  A header file is read line by line as [parse_header] reads the
    [-header] option: the headers loaded are the dicts [parse_header] gives
    for the lines that have a colon, in the order of the file, and every
    other line, blank ones included, is reported in a warning. *)
Theorem header_file_parses_like_the_option :
  forall disk self file text,
    Configuration.header_file self = Some file ->
    Py.truthy_str file = true ->
    disk file = FileText text ->
    Configuration.load_headers_from_file disk self
    = (Loaded (filter Py.truthy_list
                 (map (fun line => parsed (Configuration.parse_header line))
                      (Py.file_lines text))),
       map LogSkippingHeaderLine
           (filter (fun line => negb (Py.contains ":" line)) (Py.file_lines text))).
Proof.
  intros disk self file text Hf Ht Hd. unfold Configuration.load_headers_from_file.
  rewrite Hf, Ht, Hd. cbn [negb]. apply header_lines_spec.
Qed.

Lemma header_file_parses_like_the_option_witness :
  Configuration.load_headers_from_file header_disk header_args
  = (Loaded (filter Py.truthy_list
               (map (fun line => parsed (Configuration.parse_header line))
                    (Py.file_lines "X-Forwarded-For: 127.0.0.1"))),
     map LogSkippingHeaderLine
         (filter (fun line => negb (Py.contains ":" line))
                 (Py.file_lines "X-Forwarded-For: 127.0.0.1"))).
Proof.
  apply (header_file_parses_like_the_option header_disk header_args "headers.txt").
  - reflexivity.
  - reflexivity.
  - reflexivity.
Defined.

Lemma validate_url_loads urlparse self :
  exists result log, Configuration.validate_url urlparse self = (Loaded result, log).
Proof.
  unfold Configuration.validate_url.
  destruct (Configuration.domain self) as [d|]; [|eexists _, _; reflexivity].
  destruct (negb (Py.truthy_str d)); [eexists _, _; reflexivity|].
  destruct (urlparse _) as [[scheme netloc]|e]; [|eexists _, _; reflexivity].
  destruct (negb (Py.truthy_str netloc)); [eexists _, _; reflexivity|].
  destruct (negb _); eexists _, _; reflexivity.
Qed.

(** X16.  [validate_url] never raises and never ends the process, whatever
    [urlparse] does.  The URL it returns is the domain as given when that
    starts with [http://] or [https://], and the domain behind [http://]
    otherwise (never [https://]); [urlparse] found a network location in it
    and the scheme [http] or [https]; and nothing was logged. *)
Theorem validate_url_prefixes_http :
  forall urlparse self,
    exists result log,
      Configuration.validate_url urlparse self = (Loaded result, log)
      /\ forall url,
           result = Some url ->
           log = []
           /\ (String.prefix "http://" url || String.prefix "https://" url)%bool = true
           /\ exists domain,
                Configuration.domain self = Some domain
                /\ (url = domain \/
                    (url = "http://" ++ domain
                     /\ String.prefix "http://" domain = false
                     /\ String.prefix "https://" domain = false))
                /\ exists scheme netloc,
                     urlparse url = Return (scheme, netloc) /\ netloc <> ""
                     /\ (scheme = "http" \/ scheme = "https").
Proof.
  intros urlparse self. unfold Configuration.validate_url.
  destruct (Configuration.domain self) as [d|].
  2: { eexists _, _. split; [reflexivity|]. intros url [=]. }
  destruct (Py.truthy_str d).
  2: { eexists _, _. split; [reflexivity|]. intros url [=]. }
  cbn [negb].
  destruct (String.prefix "http://" d || String.prefix "https://" d)%bool eqn:Hp.
  - destruct (urlparse d) as [[scheme netloc]|e] eqn:Hu.
    2: { eexists _, _. split; [reflexivity|]. intros url [=]. }
    destruct netloc as [|c netloc]; cbn [Py.truthy_str negb].
    { eexists _, _. split; [reflexivity|]. intros url [=]. }
    destruct (String.eqb scheme "http" || String.eqb scheme "https")%bool eqn:Hs; cbn [negb].
    2: { eexists _, _. split; [reflexivity|]. intros url [=]. }
    eexists _, _. split; [reflexivity|]. intros url [= <-].
    split; [reflexivity|]. split; [exact Hp|]. exists d. split; [reflexivity|].
    split; [left; reflexivity|]. exists scheme, (String c netloc).
    split; [exact Hu|]. split; [discriminate|].
    apply orb_true_iff in Hs. destruct Hs as [Hs|Hs]; apply String.eqb_eq in Hs; auto.
  - destruct (urlparse ("http://" ++ d)) as [[scheme netloc]|e] eqn:Hu.
    2: { eexists _, _. split; [reflexivity|]. intros url [=]. }
    destruct netloc as [|c netloc]; cbn [Py.truthy_str negb].
    { eexists _, _. split; [reflexivity|]. intros url [=]. }
    destruct (String.eqb scheme "http" || String.eqb scheme "https")%bool eqn:Hs; cbn [negb].
    2: { eexists _, _. split; [reflexivity|]. intros url [=]. }
    eexists _, _. split; [reflexivity|]. intros url [= <-].
    apply orb_false_iff in Hp. destruct Hp as [Hp1 Hp2].
    split; [reflexivity|]. split.
    { change ("http://" ++ d) with (String "h" (String "t" (String "t" (String "p"
        (String ":" (String "/" (String "/" d))))))).
      cbn [String.prefix]. repeat (destruct (ascii_dec _ _) as [_|Hn]; [|congruence]).
      destruct d; reflexivity. }
    exists d. split; [reflexivity|].
    split; [right; split; [reflexivity|split; assumption]|].
    exists scheme, (String c netloc).
    split; [exact Hu|]. split; [discriminate|].
    apply orb_true_iff in Hs. destruct Hs as [Hs|Hs]; apply String.eqb_eq in Hs; auto.
Qed.

Lemma load_lines_cases disk o :
  (exists lines,
      Configuration.load_lines_from_file disk o = (Loaded lines, [])
      /\ forall p, named o p -> exists text, disk p = FileText text)
  \/ (exists l p,
         Configuration.load_lines_from_file disk o = (Exit 1, l)
         /\ named o p /\ (disk p = FileNotFound \/ disk p = FileIOError))
  \/ (exists p before,
         Configuration.load_lines_from_file disk o = (Broken ValueError, [])
         /\ named o p /\ disk p = FileUndecodable before).
Proof.
  unfold Configuration.load_lines_from_file, named. destruct o as [p|].
  2: { left. eexists. split; [reflexivity|]. intros p [[=] _]. }
  destruct (Py.truthy_str p) eqn:Ht; cbn [negb].
  2: { left. eexists. split; [reflexivity|]. intros q [[= <-] H]. congruence. }
  destruct (disk p) as [text| | |before] eqn:Hd.
  - left. eexists. split; [reflexivity|]. intros q [[= <-] _]. eexists. exact Hd.
  - right. left. eexists _, p. split; [reflexivity|]. auto.
  - right. left. eexists _, p. split; [reflexivity|]. auto.
  - right. right. exists p, before. auto.
Qed.

Lemma load_headers_cases disk self :
  (exists hs l,
      Configuration.load_headers_from_file disk self = (Loaded hs, l)
      /\ forall p, named (Configuration.header_file self) p ->
                   disk p = FileNotFound \/ disk p = FileIOError -> hs = [])
  \/ (exists l p before,
         Configuration.load_headers_from_file disk self = (Broken ValueError, l)
         /\ named (Configuration.header_file self) p /\ disk p = FileUndecodable before).
Proof.
  unfold Configuration.load_headers_from_file, named.
  destruct (Configuration.header_file self) as [p|].
  2: { left. eexists _, _. split; [reflexivity|]. intros p [[=] _]. }
  destruct (Py.truthy_str p) eqn:Ht; cbn [negb].
  2: { left. eexists _, _. split; [reflexivity|]. intros q [[= <-] H]. congruence. }
  destruct (disk p) as [text| | |before] eqn:Hd.
  - left. rewrite header_lines_spec. eexists _, _. split; [reflexivity|].
    intros q [[= <-] _] [Hq|Hq]; congruence.
  - left. eexists _, _. split; [reflexivity|]. reflexivity.
  - left. eexists _, _. split; [reflexivity|]. reflexivity.
  - right. rewrite header_lines_spec. eexists _, p, before. split; [reflexivity|]. auto.
Qed.

Lemma and_then_loaded {A B} (m : Startup A) (k : A -> Startup B) a l :
  m = (Loaded a, l) -> and_then m k = (fst (k a), (l ++ snd (k a))%list).
Proof. intros ->. unfold and_then. destruct (k a). reflexivity. Qed.

Lemma and_then_exit {A B} (m : Startup A) (k : A -> Startup B) c l :
  m = (Exit c, l) -> and_then m k = (Exit c, l).
Proof. intros ->. reflexivity. Qed.

Lemma and_then_broken {A B} (m : Startup A) (k : A -> Startup B) e l :
  m = (Broken e, l) -> and_then m k = (Broken e, l).
Proof. intros ->. reflexivity. Qed.

(** X14.  How [build_fuzzer_config] ends.  It returns a configuration only
    if every path, URL and method file that is named could be read; a
    header file that is missing or unreadable leaves the header list empty,
    and no proxy is set.  It ends the process with status 1, and not with
    the [ValueError] of its own handler, when one of the three line files is
    missing or unreadable.  It raises only [ValueError], and only when a
    file cannot be decoded. *)
Theorem start_up_ends :
  forall disk urlparse utility header,
    let line_files := [Configuration.path_file utility; Configuration.url_file utility;
                       Configuration.method_file utility] in
    match fst (build_fuzzer_config disk urlparse utility header) with
    | Loaded c =>
        (forall o p, In o line_files -> named o p -> exists text, disk p = FileText text)
        /\ (forall p, named (Configuration.header_file utility) p ->
                      disk p = FileNotFound \/ disk p = FileIOError ->
                      header_file c = [])
        /\ proxy c = []
    | Exit code =>
        code = 1
        /\ exists o p, In o line_files /\ named o p
                       /\ (disk p = FileNotFound \/ disk p = FileIOError)
    | Broken e =>
        e = ValueError
        /\ exists o p before,
             In o (Configuration.header_file utility :: line_files) /\ named o p
             /\ disk p = FileUndecodable before
    end.
Proof.
  intros disk urlparse utility header line_files. unfold build_fuzzer_config.
  destruct (validate_url_loads urlparse utility) as (b & lb & Hv).
  rewrite (and_then_loaded _ _ _ _ Hv). cbn [fst snd].
  destruct (load_lines_cases disk (Configuration.path_file utility))
    as [(paths & Hp & Rp)|[(l & p & Hp & Np & Dp)|(p & bf & Hp & Np & Dp)]].
  2: { rewrite (and_then_exit _ _ _ _ Hp). cbn [fst]. split; [reflexivity|].
       exists (Configuration.path_file utility), p. subst line_files. cbn [In]. split; [tauto|split; [assumption|auto]]. }
  2: { rewrite (and_then_broken _ _ _ _ Hp). cbn [fst]. split; [reflexivity|].
       exists (Configuration.path_file utility), p, bf. subst line_files. cbn [In]. split; [tauto|split; [assumption|auto]]. }
  rewrite (and_then_loaded _ _ _ _ Hp). cbn [fst snd].
  destruct (load_lines_cases disk (Configuration.url_file utility))
    as [(urls & Hu & Ru)|[(l & p & Hu & Nu & Du)|(p & bf & Hu & Nu & Du)]].
  2: { rewrite (and_then_exit _ _ _ _ Hu). cbn [fst]. split; [reflexivity|].
       exists (Configuration.url_file utility), p. subst line_files. cbn [In]. split; [tauto|split; [assumption|auto]]. }
  2: { rewrite (and_then_broken _ _ _ _ Hu). cbn [fst]. split; [reflexivity|].
       exists (Configuration.url_file utility), p, bf. subst line_files. cbn [In]. split; [tauto|split; [assumption|auto]]. }
  rewrite (and_then_loaded _ _ _ _ Hu). cbn [fst snd].
  destruct (load_lines_cases disk (Configuration.method_file utility))
    as [(methods & Hm & Rm)|[(l & p & Hm & Nm & Dm)|(p & bf & Hm & Nm & Dm)]].
  2: { rewrite (and_then_exit _ _ _ _ Hm). cbn [fst]. split; [reflexivity|].
       exists (Configuration.method_file utility), p. subst line_files. cbn [In]. split; [tauto|split; [assumption|auto]]. }
  2: { rewrite (and_then_broken _ _ _ _ Hm). cbn [fst]. split; [reflexivity|].
       exists (Configuration.method_file utility), p, bf. subst line_files. cbn [In]. split; [tauto|split; [assumption|auto]]. }
  rewrite (and_then_loaded _ _ _ _ Hm). cbn [fst snd].
  destruct (load_headers_cases disk utility) as [(hs & l & Hh & Rh)|(l & p & bf & Hh & Nh & Dh)].
  2: { rewrite (and_then_broken _ _ _ _ Hh). cbn [fst]. split; [reflexivity|].
       exists (Configuration.header_file utility), p, bf. cbn [In].
       split; [tauto|split; assumption]. }
  rewrite (and_then_loaded _ _ _ _ Hh). cbn [fst snd].
  assert (Hdone : forall hd lh,
             fst (and_then (hd, lh)
                    (fun header0 : option Headers =>
                       loaded (mkStatic b paths urls methods hs header0
                                        (Configuration.proxy false))))
             = match hd with
               | Loaded h => Loaded (mkStatic b paths urls methods hs h [])
               | Exit c => Exit c
               | Broken e => Broken e
               end).
  { intros [h|c|e] lh; reflexivity. }
  assert (Hhead : exists h lh,
             match header with
             | Some header_str =>
                 if Py.truthy_str header_str
                 then and_then (Configuration.parse_header header_str)
                        (fun d => loaded (Some d))
                 else loaded None
             | None => loaded None
             end = (Loaded h, lh)).
  { destruct header as [hstr|]; [|eexists _, _; reflexivity].
    destruct (Py.truthy_str hstr); [|eexists _, _; reflexivity].
    unfold Configuration.parse_header.
    destruct (Py.split_once ":" hstr) as [[k v]|]; eexists _, _; reflexivity. }
  destruct Hhead as (h & lh & Hhead). rewrite Hhead.
  cbn [and_then loaded fst snd header_file proxy].
  split; [|split; [exact Rh|reflexivity]].
  intros o p Hin Hn. subst line_files. cbn [In] in Hin.
  destruct Hin as [<-|[<-|[<-|[]]]]; auto.
Qed.

(** X15.  A [-header] value without a colon is dropped: the configuration
    then gives the engine the header sets, and so the tasks, that it has
    with no [-header] option at all. *)
Theorem header_without_colon_is_ignored :
  forall disk urlparse utility header_str c log,
    Py.contains ":" header_str = false ->
    build_fuzzer_config disk urlparse utility (Some header_str) = (Loaded c, log) ->
    exists c0 log0,
      build_fuzzer_config disk urlparse utility None = (Loaded c0, log0)
      /\ forall s s0,
           config s = c -> config s0 = c0 -> runtime_config s = runtime_config s0 ->
           _get_headers s = _get_headers s0
           /\ forall urls, request_tasks s urls = request_tasks s0 urls.
Proof.
  intros disk urlparse utility hstr c log Hc. unfold build_fuzzer_config.
  destruct (validate_url_loads urlparse utility) as (b & lb & Hv).
  rewrite !(and_then_loaded _ _ _ _ Hv). cbn [fst snd].
  destruct (load_lines_cases disk (Configuration.path_file utility))
    as [(paths & Hp & _)|[(l & p & Hp & _)|(p & bf & Hp & _)]].
  2: { rewrite (and_then_exit _ _ _ _ Hp). discriminate. }
  2: { rewrite (and_then_broken _ _ _ _ Hp). discriminate. }
  rewrite !(and_then_loaded _ _ _ _ Hp). cbn [fst snd].
  destruct (load_lines_cases disk (Configuration.url_file utility))
    as [(urls & Hu & _)|[(l & p & Hu & _)|(p & bf & Hu & _)]].
  2: { rewrite (and_then_exit _ _ _ _ Hu). discriminate. }
  2: { rewrite (and_then_broken _ _ _ _ Hu). discriminate. }
  rewrite !(and_then_loaded _ _ _ _ Hu). cbn [fst snd].
  destruct (load_lines_cases disk (Configuration.method_file utility))
    as [(methods & Hm & _)|[(l & p & Hm & _)|(p & bf & Hm & _)]].
  2: { rewrite (and_then_exit _ _ _ _ Hm). discriminate. }
  2: { rewrite (and_then_broken _ _ _ _ Hm). discriminate. }
  rewrite !(and_then_loaded _ _ _ _ Hm). cbn [fst snd].
  destruct (load_headers_cases disk utility) as [(hs & l & Hh & _)|(l & p & bf & Hh & _)].
  2: { rewrite (and_then_broken _ _ _ _ Hh). discriminate. }
  rewrite !(and_then_loaded _ _ _ _ Hh). cbn [fst snd].
  unfold Configuration.parse_header. apply split_once_none in Hc. rewrite Hc.
  destruct (Py.truthy_str hstr); cbn [and_then report loaded fst snd];
    intros [= <- <-]; eexists _, _; (split; [reflexivity|]);
    intros s s0 Hs Hs0 Hr; unfold request_tasks, _get_headers, _get_methods;
    rewrite Hs, Hs0, Hr; cbn [header header_file method_file]; split; reflexivity.
Qed.

Lemma header_without_colon_is_ignored_witness :
  exists c0 log0,
    build_fuzzer_config header_disk sample_urlparse header_args None = (Loaded c0, log0)
    /\ forall s s0,
         config s = mkStatic (Some "http://example.com") ["admin"] [] []
                      [[("X-Forwarded-For", "127.0.0.1")]] (Some []) [] ->
         config s0 = c0 -> runtime_config s = runtime_config s0 ->
         _get_headers s = _get_headers s0
         /\ forall urls, request_tasks s urls = request_tasks s0 urls.
Proof.
  apply (header_without_colon_is_ignored header_disk sample_urlparse header_args
           "X-Custom-IP-Authorization 127.0.0.1" _
           [LogInvalidHeaderFormat "X-Custom-IP-Authorization 127.0.0.1"]).
  - reflexivity.
  - reflexivity.
Defined.

(* ================================================================= *)
(** ** Times in words *)

Lemma inject_Z_lt a b : (inject_Z a < inject_Z b)%Q <-> a < b.
Proof. unfold Qlt. cbn [Qnum Qden inject_Z]. lia. Qed.

Lemma inject_Z_le a b : (inject_Z a <= inject_Z b)%Q <-> a <= b.
Proof. unfold Qle. cbn [Qnum Qden inject_Z]. lia. Qed.

Lemma Qfloor_unique (y : Q) (q : Z) :
  (inject_Z q <= y)%Q -> (y < inject_Z (q + 1))%Q -> Qfloor y = q.
Proof.
  intros Hl Hu.
  assert (H1 : q <= Qfloor y).
  { rewrite <- (Qfloor_Z q). apply Qfloor_resp_le, Hl. }
  assert (H2 : Qfloor y < q + 1).
  { apply inject_Z_lt. eapply Qle_lt_trans; [apply Qfloor_le|exact Hu]. }
  lia.
Qed.

Lemma Qfloor_bounds (x : Q) :
  (inject_Z (Qfloor x) <= x)%Q /\ (x < inject_Z (Qfloor x + 1))%Q.
Proof. split; [apply Qfloor_le|apply Qlt_floor]. Qed.

Lemma Qfloor_div (x : Q) (k : Z) :
  0 < k -> Qfloor (x / inject_Z k) = Qfloor x / k.
Proof.
  intros Hk. destruct (Qfloor_bounds x) as [Hl Hu].
  set (z := Qfloor x) in *.
  pose proof (Z.div_mod z k ltac:(lia)) as Hd.
  pose proof (Z.mod_pos_bound z k Hk) as Hr.
  assert (Hkq : (0 < inject_Z k)%Q) by (apply (inject_Z_lt 0 k); exact Hk).
  apply Qfloor_unique.
  - apply Qle_shift_div_l; [exact Hkq|].
    rewrite <- inject_Z_mult. eapply Qle_trans; [|exact Hl].
    apply inject_Z_le. nia.
  - apply Qlt_shift_div_r; [exact Hkq|].
    rewrite <- inject_Z_mult. eapply Qlt_le_trans; [exact Hu|].
    apply inject_Z_le. nia.
Qed.

Lemma Qfloor_minus_Z (x : Q) (n : Z) : Qfloor (x - inject_Z n) = Qfloor x - n.
Proof.
  destruct (Qfloor_bounds x) as [Hl Hu]. apply Qfloor_unique.
  - unfold Z.sub. rewrite inject_Z_plus, inject_Z_opp. lra.
  - replace (Qfloor x - n + 1) with (Qfloor x + 1 + - n) by lia.
    rewrite inject_Z_plus, inject_Z_opp. lra.
Qed.

Lemma int_of_float_Z (z : Z) : Py.int_of_float (inject_Z z) = z.
Proof.
  unfold Py.int_of_float. destruct (Qle_bool 0 (inject_Z z)).
  - apply Qfloor_Z.
  - apply Qceiling_Z.
Qed.

Lemma int_of_float_floor (x : Q) : (0 <= x)%Q -> Py.int_of_float x = Qfloor x.
Proof.
  intros H. unfold Py.int_of_float. apply Qle_bool_iff in H. rewrite H. reflexivity.
Qed.

Lemma floordiv_Z (x : Q) (k : Z) :
  0 < k -> Py.int_of_float (Py.floordiv x (inject_Z k)) = Qfloor x / k.
Proof. intros Hk. unfold Py.floordiv. rewrite int_of_float_Z. apply Qfloor_div, Hk. Qed.

Lemma fmod_floor (x : Q) (k : Z) :
  0 < k -> Qfloor (Py.fmod x (inject_Z k)) = Qfloor x mod k.
Proof.
  intros Hk. unfold Py.fmod, Py.floordiv. rewrite Qfloor_div by exact Hk.
  rewrite <- inject_Z_mult, Qfloor_minus_Z. rewrite Z.mod_eq by lia. reflexivity.
Qed.

Lemma fmod_nonneg (x : Q) (k : Z) : 0 < k -> (0 <= Py.fmod x (inject_Z k))%Q.
Proof.
  intros Hk.
  assert (H : 0 <= Qfloor (Py.fmod x (inject_Z k))).
  { rewrite fmod_floor by exact Hk. apply Z.mod_pos_bound, Hk. }
  eapply Qle_trans; [|apply Qfloor_le]. apply (inject_Z_le 0). exact H.
Qed.



Example time_remaining_samples :
  Configuration.format_time_remaining (7379 # 2) = "1h 1m"
  /\ Configuration.format_time_remaining 3599 = "59m 59s"
  /\ Configuration.format_time_remaining 120 = "2m"
  /\ Configuration.format_time_remaining (5 # 2) = "2s"
  /\ Configuration.format_time_remaining (7 # 2) = "4s"
  /\ Configuration.format_time_remaining (-3) = "0s".
Proof. repeat split. Qed.

(** X18.  Below one minute [format_time_remaining] rounds to the nearest
    second: the text is at most half a second off, so a time of 59.5 s or
    more reads ["60s"] and half a second or less reads ["0s"]. *)
Theorem seconds_are_rounded_to_nearest :
  forall seconds,
    (0 < seconds)%Q -> (seconds < 60)%Q ->
    (exists n : Z,
        0 <= n <= 60
        /\ (inject_Z n - (1 # 2) <= seconds)%Q /\ (seconds <= inject_Z n + (1 # 2))%Q
        /\ Configuration.format_time_remaining seconds = Py.str_int n ++ "s")
    /\ ((119 # 2 <= seconds)%Q -> Configuration.format_time_remaining seconds = "60s")
    /\ ((seconds <= 1 # 2)%Q -> Configuration.format_time_remaining seconds = "0s").
Proof.
  intros seconds H0 H60.
  destruct (Qfloor_bounds seconds) as [Hl Hu]. set (f := Qfloor seconds) in *.
  assert (Hf0 : 0 <= f).
  { subst f. rewrite <- (Qfloor_Z 0). apply Qfloor_resp_le.
    change (inject_Z 0) with 0%Q. lra. }
  assert (Hf59 : f <= 59).
  { apply Z.lt_succ_r. apply inject_Z_lt. eapply Qle_lt_trans; [exact Hl|exact H60]. }
  rewrite inject_Z_plus in Hu. change (inject_Z 1) with 1%Q in Hu.
  unfold Configuration.format_time_remaining.
  assert (Hpos : Qle_bool seconds 0 = false).
  { destruct (Qle_bool seconds 0) eqn:Hb; [|reflexivity].
    apply Qle_bool_iff in Hb. lra. }
  rewrite Hpos.
  assert (Hlt60 : Py.Qlt_bool seconds 60 = true).
  { unfold Py.Qlt_bool. apply negb_true_iff. destruct (Qle_bool 60 seconds) eqn:Hb;
      [|reflexivity]. apply Qle_bool_iff in Hb. lra. }
  rewrite Hlt60. unfold Py.format_0f, Py.round_half_even. fold f.
  split; [|split].
  - destruct (Py.Qlt_bool (seconds - inject_Z f) (1 # 2)) eqn:Hlo.
    { apply Qlt_bool_true in Hlo. exists f. split; [lia|]. split; [lra|]. split; [lra|].
      reflexivity. }
    apply Qlt_bool_false in Hlo.
    destruct (Py.Qlt_bool (1 # 2) (seconds - inject_Z f)) eqn:Hhi.
    { exists (f + 1). split; [lia|]. rewrite inject_Z_plus. change (inject_Z 1) with 1%Q.
      split; [lra|]. split; [lra|]. reflexivity. }
    apply Qlt_bool_false in Hhi.
    destruct (Z.even f).
    + exists f. split; [lia|]. split; [lra|]. split; [lra|]. reflexivity.
    + exists (f + 1). split; [lia|]. rewrite inject_Z_plus. change (inject_Z 1) with 1%Q.
      split; [lra|]. split; [lra|]. reflexivity.
  - intros H. assert (Hf : f = 59).
    { assert (59 < f + 1); [|lia]. apply inject_Z_lt.
      rewrite inject_Z_plus. change (inject_Z 1) with 1%Q.
      change (inject_Z 59) with 59%Q. lra. }
    rewrite Hf in *. change (inject_Z 59) with 59%Q in *.
    destruct (Py.Qlt_bool (seconds - 59) (1 # 2)) eqn:Hlo.
    { apply Qlt_bool_true in Hlo. lra. }
    destruct (Py.Qlt_bool (1 # 2) (seconds - 59)); reflexivity.
  - intros H. assert (Hf : f = 0).
    { assert (f < 1); [|lia]. apply inject_Z_lt. change (inject_Z 1) with 1%Q. lra. }
    rewrite Hf in *. change (inject_Z 0) with 0%Q in *.
    destruct (Py.Qlt_bool (seconds - 0) (1 # 2)) eqn:Hlo; [reflexivity|].
    destruct (Py.Qlt_bool (1 # 2) (seconds - 0)) eqn:Hhi; [|reflexivity].
    apply Qlt_bool_true in Hhi. lra.
Qed.

Lemma seconds_are_rounded_to_nearest_witness :
  Configuration.format_time_remaining (597 # 10) = "60s".
Proof.
  apply (seconds_are_rounded_to_nearest (597 # 10)).
  - unfold Qlt. simpl. lia.
  - unfold Qlt. simpl. lia.
  - unfold Qle. simpl. lia.
Defined.

(* ================================================================= *)
(** ** The output file read back *)

Lemma universal_newlines_line r rest :
  has_char Py.CR r = false ->
  Py.universal_newlines (r ++ String Py.LF rest)
  = r ++ String Py.LF (Py.universal_newlines rest).
Proof.
  induction r as [|a r IH]; intros H.
  - reflexivity.
  - cbn [has_char] in H. apply orb_false_iff in H. destruct H as [Ha Hr].
    cbn [append Py.universal_newlines]. rewrite Ha, (IH Hr). reflexivity.
Qed.

Lemma lines_line r rest :
  has_char Py.LF r = false ->
  Py.lines (r ++ String Py.LF rest) = (r ++ String Py.LF "") :: Py.lines rest.
Proof.
  induction r as [|a r IH]; intros H.
  - reflexivity.
  - cbn [has_char] in H. apply orb_false_iff in H. destruct H as [Ha Hr].
    cbn [append Py.lines]. rewrite Ha, (IH Hr). reflexivity.
Qed.

Lemma rstrip_space_newline r :
  Py.rstrip_space (r ++ String Py.LF "") = Py.rstrip_space r.
Proof.
  induction r as [|a r IH]; [reflexivity|].
  cbn [append]. rewrite !rstrip_space_cons, IH. reflexivity.
Qed.

Lemma lstrip_space_app r t :
  Py.strip_nonempty r = true -> Py.lstrip_space (r ++ t) = Py.lstrip_space r ++ t.
Proof.
  induction r as [|a r IH]; cbn [Py.strip_nonempty]; [discriminate|].
  cbn [append Py.lstrip_space]. destruct (Py.is_space a); [exact IH|reflexivity].
Qed.

Lemma strip_newline r :
  Py.strip_nonempty r = true -> Py.strip (r ++ String Py.LF "") = Py.strip r.
Proof.
  intros H. unfold Py.strip. rewrite lstrip_space_app by exact H.
  apply rstrip_space_newline.
Qed.

Lemma strip_nonempty_app r t :
  Py.strip_nonempty r = true -> Py.strip_nonempty (r ++ t) = true.
Proof.
  induction r as [|a r IH]; cbn [Py.strip_nonempty]; [discriminate|].
  cbn [append Py.strip_nonempty]. destruct (Py.is_space a); [exact IH|reflexivity].
Qed.

Lemma plain_line_nonblank r : plain_line r -> Py.strip_nonempty r = true.
Proof.
  intros (_ & _ & Hs & Hne). rewrite strip_nonempty_strip, Hs.
  destruct r; [congruence|reflexivity].
Qed.

Lemma file_text_cons r results :
  file_text (r :: results) = r ++ String Py.LF (file_text results).
Proof.
  unfold file_text. cbn [map]. 
  assert (H : forall l, String.concat "" l
                        = fold_right (fun a b => a ++ b) "" l).
  { induction l as [|a [|b l] IH]; [reflexivity| |].
    - cbn. induction a; cbn; congruence.
    - change (String.concat "" (a :: b :: l)) with (a ++ "" ++ String.concat "" (b :: l)).
      rewrite IH. reflexivity. }
  rewrite !H. cbn [fold_right]. unfold Py.newline.
  rewrite append_assoc. reflexivity.
Qed.

Lemma stripped_lines_file_text results :
  Forall plain_line results -> Py.stripped_lines (file_text results) = results.
Proof.
  unfold Py.stripped_lines, Py.file_lines.
  induction 1 as [|r results Hr _ IH]; [reflexivity|].
  rewrite file_text_cons.
  destruct Hr as (Hlf & Hcr & Hs & Hne).
  rewrite universal_newlines_line by exact Hcr.
  rewrite lines_line by exact Hlf. cbn [filter map].
  assert (Hnb : Py.strip_nonempty r = true) by (apply plain_line_nonblank; repeat split; assumption).
  rewrite strip_nonempty_app by exact Hnb. cbn [map].
  rewrite strip_newline by exact Hnb. rewrite Hs, IH. reflexivity.
Qed.

(** X19.  The output file reads back: when [_finalize_results] writes the
    filtered results to the output file and each of them is a plain line (no
    line break in it, no white space around it, not empty),
    [load_lines_from_file] reads from that file the list that was written,
    line for line. *)
Theorem output_file_reads_back :
  forall E results s file,
    output_file (runtime_config s) = Some file ->
    Py.truthy_str file = true -> open_fails E file = false ->
    filtered s results <> [] ->
    Forall plain_line (filtered s results) ->
    Configuration.load_lines_from_file
      (disk_of (files (snd (_finalize_results E results s)))) (Some file)
    = (Loaded (filtered s results), []).
Proof.
  intros E results s file Ho Ht Hop Hne Hp.
  destruct (finalize_results_spec E results s) as (s' & Hfin & _ & Hfile).
  rewrite Hfin. cbn [snd]. specialize (Hfile file Ho Ht Hop Hne).
  unfold Configuration.load_lines_from_file, disk_of. rewrite Ht, Hfile. cbn [negb].
  rewrite stripped_lines_file_text by exact Hp. reflexivity.
Qed.

Lemma output_file_reads_back_witness :
  Configuration.load_lines_from_file
    (disk_of (files (snd (_finalize_results quiet_world
                            ["http://example.com/admin ---> 403, GET, {}, 9 bytes";
                             "http://example.com/admin/. ---> 403, GET, {}, 9 bytes"]
                            output_state))))
    (Some "out.txt")
  = (Loaded (filtered output_state
               ["http://example.com/admin ---> 403, GET, {}, 9 bytes";
                "http://example.com/admin/. ---> 403, GET, {}, 9 bytes"]), []).
Proof.
  apply (output_file_reads_back quiet_world
           ["http://example.com/admin ---> 403, GET, {}, 9 bytes";
            "http://example.com/admin/. ---> 403, GET, {}, 9 bytes"] output_state "out.txt").
  - reflexivity.
  - reflexivity.
  - reflexivity.
  - discriminate.
  - repeat constructor; discriminate.
Defined.

(* ================================================================= *)
(** ** Method names *)

Lemma upper_char_idempotent c : Py.upper_char (Py.upper_char c) = Py.upper_char c.
Proof.
  unfold Py.upper_char.
  destruct (Nat.leb 97 (nat_of_ascii c) && Nat.leb (nat_of_ascii c) 122)%bool eqn:H;
    [|rewrite H; reflexivity].
  apply andb_true_iff in H. destruct H as [H1 H2].
  apply Nat.leb_le in H1. apply Nat.leb_le in H2.
  rewrite nat_ascii_embedding by lia.
  destruct (Nat.leb 97 (nat_of_ascii c - 32)) eqn:H3; [|reflexivity].
  apply Nat.leb_le in H3. lia.
Qed.

Lemma upper_idempotent s : Py.upper (Py.upper s) = Py.upper s.
Proof.
  induction s as [|c s IH]; [reflexivity|].
  cbn [Py.upper]. rewrite upper_char_idempotent, IH. reflexivity.
Qed.

Lemma Forall_slice_to {A} (P : A -> Prop) l k : Forall P l -> Forall P (Py.slice_to l k).
Proof.
  intros H. unfold Py.slice_to.
  generalize (Z.to_nat (if k <? 0 then Z.of_nat (List.length l) + k else k)). intros n.
  revert n. induction H as [|x l Hx _ IH]; intros [|n]; cbn [firstn]; constructor; auto.
Qed.

(** X20.  Every method [_get_methods] returns is in upper case, whichever
    source it comes from (command line, method file or the built-in list)
    and whether or not the list was cut to [max_methods]. *)
Theorem methods_are_upper_case :
  forall s, Forall (fun m => Py.upper m = m) (_get_methods s).
Proof.
  intros s. unfold _get_methods.
  assert (Hmap : forall l : list string, Forall (fun m => Py.upper m = m) (map Py.upper l)).
  { intros l. apply Forall_map, Forall_forall. intros m _. apply upper_idempotent. }
  assert (Hcap : forall methods : list string,
             Forall (fun m => Py.upper m = m) methods ->
             Forall (fun m => Py.upper m = m)
               match max_methods (runtime_config s) with
               | Some max_methods =>
                   if Z.of_nat (List.length methods) >? max_methods
                   then Py.slice_to methods max_methods else methods
               | None => methods
               end).
  { intros methods H. destruct (max_methods (runtime_config s)) as [k|]; [|exact H].
    destruct (_ >? _); [apply Forall_slice_to|]; exact H. }
  destruct (method (runtime_config s)) as [[|m ms]|].
  - destruct (method_file (config s)) as [|m ms]; [|apply Hcap, Hmap].
    repeat constructor.
  - apply Hcap, Hmap.
  - destruct (method_file (config s)) as [|m ms]; [|apply Hcap, Hmap].
    repeat constructor.
Qed.
